(** * yupsh/awk: the record engine (Context, Program, Executor) in Rocq

    A shallow embedding of the Go package [command] (the awk execution
    engine) together with the parts of the Go standard library it calls
    ([strings.Fields], [strings.Split], UTF-8 decoding, [unicode.IsSpace]),
    followed by the properties of the engine.  With it come the options
    of [opt.go], programs of [command_test.go], and the package [awk] of
    [awk.go], the interpreter of script strings, with what it calls of
    [strings] and [strconv].

    Conventions.
    - A Go [string] is an immutable byte sequence: Rocq's [string], whose
      characters are the 8-bit [ascii] values.
    - Go's [int] and [int64] are [Z]; the one place where the engine does
      arithmetic that could overflow ([NR++] on an [int64]) wraps explicitly.
    - A hook of a [Program] receives the program value and the [*Context]
      and may mutate both: hooks are state transformers over a program
      state [P] and the [Context].
    - The executor records, as ghost state, every hook invocation with the
      context it was handed and the context it left behind. *)

From Stdlib Require Import ZArith Lia Ascii String List Bool Sorted DecimalString.
From stdpp Require Import base gmap strings list.

Local Open Scope Z_scope.

(* ================================================================== *)
(** * Part I. Definitions                                              *)
(* ================================================================== *)

(** ** Go strings: bytes, length, slicing *)

(** The numeric value of a byte. *)
Definition byteZ (b : ascii) : Z := Z.of_N (N_of_ascii b).

(** [len(s)] *)
Abbreviation len := String.length.

(** [s[n:]] *)
Fixpoint string_drop (n : nat) (s : string) : string :=
  match n, s with
  | O, _ => s
  | S _, EmptyString => EmptyString
  | S k, String _ s' => string_drop k s'
  end.

(** [s[:n]] *)
Fixpoint string_take (n : nat) (s : string) : string :=
  match n, s with
  | O, _ => EmptyString
  | S _, EmptyString => EmptyString
  | S k, String a s' => String a (string_take k s')
  end.

(** [s[lo:hi]] *)
Definition slice (s : string) (lo hi : nat) : string :=
  string_take (hi - lo) (string_drop lo s).

(** [s[i]] as a number; the callers below guard the index by a length
    test, as the Go code does. *)
Definition byteAt (s : string) (i : nat) : Z :=
  match String.get i s with
  | Some b => byteZ b
  | None => 0
  end.

(** ** Package [unicode/utf8] *)

Module utf8.

Definition RuneError : Z := 0xFFFD.

Definition maskx : Z := 0x3F.
Definition mask2 : Z := 0x1F.
Definition mask3 : Z := 0x0F.
Definition mask4 : Z := 0x07.

Definition locb : Z := 0x80.
Definition hicb : Z := 0xBF.

(** Entries of the table [first]: the high nibble indexes [acceptRanges]
    (or is F for the one-byte cases), the low nibble is the length. *)
Definition xx : Z := 0xF1.
Definition as_ : Z := 0xF0.
Definition s1 : Z := 0x02.
Definition s2 : Z := 0x13.
Definition s3 : Z := 0x03.
Definition s4 : Z := 0x23.
Definition s5 : Z := 0x34.
Definition s6 : Z := 0x04.
Definition s7 : Z := 0x44.

(** [first[b]]: information about the first byte of a UTF-8 sequence. *)
Definition first (b : Z) : Z :=
  if b <? 0x80 then as_
  else if b <? 0xC2 then xx
  else if b <? 0xE0 then s1
  else if b =? 0xE0 then s2
  else if b <? 0xED then s3
  else if b =? 0xED then s4
  else if b <? 0xF0 then s3
  else if b =? 0xF0 then s5
  else if b <? 0xF4 then s6
  else if b =? 0xF4 then s7
  else xx.

(** [acceptRanges[i]] as the pair (lo, hi) allowed for the second byte. *)
Definition acceptRanges (i : Z) : Z * Z :=
  if i =? 0 then (locb, hicb)
  else if i =? 1 then (0xA0, hicb)
  else if i =? 2 then (locb, 0x9F)
  else if i =? 3 then (0x90, hicb)
  else if i =? 4 then (locb, 0x8F)
  else (0, 0).

(** [DecodeRuneInString(s)]: the first rune of [s] and its width in bytes;
    an invalid encoding decodes as [(RuneError, 1)], the empty string as
    [(RuneError, 0)]. *)
Definition DecodeRuneInString (s : string) : Z * nat :=
  let n := Z.of_nat (len s) in
  if n <? 1 then (RuneError, 0%nat)
  else
    let s0 := byteAt s 0 in
    let x := first s0 in
    if as_ <=? x then
      (* mask is 0 for an ASCII byte and all ones for an invalid one *)
      let mask := - Z.land x 1 in
      (Z.lor (Z.land s0 (Z.lnot mask)) (Z.land RuneError mask), 1%nat)
    else
      let sz := Z.land x 7 in
      let accept := acceptRanges (Z.shiftr x 4) in
      if n <? sz then (RuneError, 1%nat)
      else
        let b1 := byteAt s 1 in
        if (b1 <? fst accept) || (snd accept <? b1) then (RuneError, 1%nat)
        else if sz <=? 2 then
          (Z.lor (Z.shiftl (Z.land s0 mask2) 6) (Z.land b1 maskx), 2%nat)
        else
          let b2 := byteAt s 2 in
          if (b2 <? locb) || (hicb <? b2) then (RuneError, 1%nat)
          else if sz <=? 3 then
            (Z.lor (Z.lor (Z.shiftl (Z.land s0 mask3) 12)
                          (Z.shiftl (Z.land b1 maskx) 6))
                   (Z.land b2 maskx), 3%nat)
          else
            let b3 := byteAt s 3 in
            if (b3 <? locb) || (hicb <? b3) then (RuneError, 1%nat)
            else
              (Z.lor (Z.lor (Z.lor (Z.shiftl (Z.land s0 mask4) 18)
                                   (Z.shiftl (Z.land b1 maskx) 12))
                            (Z.shiftl (Z.land b2 maskx) 6))
                     (Z.land b3 maskx), 4%nat).

Definition RuneSelf : Z := 0x80.
Definition UTFMax : Z := 4.

(** [RuneStart(b)]: [b] is not a continuation byte. *)
Definition RuneStart (b : Z) : bool := negb (Z.land b 0xC0 =? 0x80).

(** The loop of [DecodeLastRuneInString]:
    [for start--; start >= lim; start-- { if RuneStart(s[start]) { break } }],
    entered after its initial statement. *)
Fixpoint lastStart (fuel : nat) (s : string) (start lim : Z) : Z :=
  match fuel with
  | O => start
  | S k =>
      if start <? lim then start
      else if RuneStart (byteAt s (Z.to_nat start)) then start
      else lastStart k s (start - 1) lim
  end.

(** [DecodeLastRuneInString(s)]: the last rune of [s] and its width.  The
    loop steps back over no more than [UTFMax] bytes. *)
Definition DecodeLastRuneInString (s : string) : Z * nat :=
  let end_ := Z.of_nat (len s) in
  if end_ =? 0 then (RuneError, 0%nat)
  else
    let start := end_ - 1 in
    let r := byteAt s (Z.to_nat start) in
    if r <? RuneSelf then (r, 1%nat)
    else
      let lim := end_ - UTFMax in
      let lim := if lim <? 0 then 0 else lim in
      let start := lastStart (Z.to_nat UTFMax) s (start - 1) lim in
      let start := if start <? 0 then 0 else start in
      let '(r, size) := DecodeRuneInString (slice s (Z.to_nat start) (Z.to_nat end_)) in
      if negb (start + Z.of_nat size =? end_) then (RuneError, 1%nat)
      else (r, size).

End utf8.

(** The statement [for i, r := range s]: the byte offset and the rune of
    every UTF-8 sequence of [s], in order.  [off] is the offset of [s] in
    the string being ranged over; every step consumes at least one byte, so
    [len s] steps of fuel are enough. *)
Fixpoint range_from (fuel : nat) (off : nat) (s : string) : list (nat * Z) :=
  match fuel with
  | O => []
  | S k =>
      match s with
      | EmptyString => []
      | String _ _ =>
          let '(r, size) := utf8.DecodeRuneInString s in
          (off, r) :: range_from k (off + size)%nat (string_drop size s)
      end
  end.

Definition range_string (s : string) : list (nat * Z) :=
  range_from (len s) 0 s.

(** ** Package [unicode] *)

Module unicode.

Definition MaxLatin1 : Z := 0xFF.

(** [IsSpace(r)]: the Latin-1 cases are spelled out in the Go source, the
    others are the ranges of the table [White_Space] above Latin-1. *)
Definition IsSpace (r : Z) : bool :=
  if r <=? MaxLatin1 then
    (r =? 0x09) || (r =? 0x0A) || (r =? 0x0B) || (r =? 0x0C) || (r =? 0x0D)
    || (r =? 0x20) || (r =? 0x85) || (r =? 0xA0)
  else
    (r =? 0x1680) || ((0x2000 <=? r) && (r <=? 0x200A))
    || ((0x2028 <=? r) && (r <=? 0x2029)) || (r =? 0x202F) || (r =? 0x205F)
    || (r =? 0x3000).

End unicode.

(** ** Package [strings] *)

Module strings.

(** [HasPrefix(s, prefix)]:
    [len(s) >= len(prefix) && s[:len(prefix)] == prefix]. *)
Definition HasPrefix (s prefix : string) : bool :=
  (len prefix <=? len s)%nat && String.eqb (slice s 0 (len prefix)) prefix.

(** [Index(s, substr)]: the index of the first instance of [substr] in
    [s], or -1 if there is none. *)
Fixpoint Index (s substr : string) : Z :=
  if HasPrefix s substr then 0
  else
    match s with
    | EmptyString => -1
    | String _ s' =>
        let i := Index s' substr in
        if i <? 0 then -1 else i + 1
    end.

(** [utf8.RuneCountInString(s)]: one for every UTF-8 sequence and every
    invalid byte, which is what the [range] statement visits. *)
Definition RuneCountInString (s : string) : nat :=
  length (range_string s).

(** [bytealg.CountString(s, c)]: the number of bytes of [s] equal to [c]. *)
Fixpoint CountString (s : string) (c : ascii) : nat :=
  match s with
  | EmptyString => 0%nat
  | String a s' => ((if Ascii.eqb a c then 1 else 0) + CountString s' c)%nat
  end.

(** The loop of [Count]:
    [for { i := Index(s, substr); if i == -1 { return n }; n++;
           s = s[i+len(substr):] }]. *)
Fixpoint Count_loop (fuel : nat) (n : nat) (s substr : string) : nat :=
  match fuel with
  | O => n
  | S k =>
      let i := Index s substr in
      if i =? -1 then n
      else Count_loop k (S n) (string_drop (Z.to_nat i + len substr) s) substr
  end.

(** [Count(s, substr)]: the number of non-overlapping instances of
    [substr] in [s]; for the empty [substr], one more than the number of
    runes.  A found instance consumes at least one byte, so the loop runs
    at most [len s + 1] times. *)
Definition Count (s substr : string) : nat :=
  match substr with
  | EmptyString => (RuneCountInString s + 1)%nat
  | String c EmptyString => CountString s c
  | _ => Count_loop (S (len s)) 0 s substr
  end.

(** The loop of [explode]: [n - 1] one-rune strings, the rest unsplit. *)
Fixpoint explode_loop (k : nat) (s : string) : list string :=
  match k with
  | O => [s]
  | S k' =>
      let '(_, size) := utf8.DecodeRuneInString s in
      string_take size s :: explode_loop k' (string_drop size s)
  end.

(** [explode(s, n)]: [s] split into its UTF-8 sequences, at most [n] of
    them ([n < 0]: no limit). *)
Definition explode (s : string) (n : Z) : list string :=
  let l := Z.of_nat (RuneCountInString s) in
  let n := if (n <? 0) || (l <? n) then l else n in
  if 0 <? n then explode_loop (Z.to_nat (n - 1)) s else [].

(** The loop of [genSplit]:
    [for i < n { m := Index(s, sep); if m < 0 { break };
                 a[i] = s[:m+sepSave]; s = s[m+len(sep):]; i++ }; a[i] = s],
    the argument counting the iterations that are left. *)
Fixpoint genSplit_loop (left : nat) (s sep : string) (sepSave : nat) : list string :=
  match left with
  | O => [s]
  | S k =>
      let m := Index s sep in
      if m <? 0 then [s]
      else
        slice s 0 (Z.to_nat m + sepSave)
          :: genSplit_loop k (string_drop (Z.to_nat m + len sep) s) sep sepSave
  end.

(** [genSplit(s, sep, sepSave, n)] *)
Definition genSplit (s sep : string) (sepSave : nat) (n : Z) : list string :=
  if n =? 0 then []
  else if String.eqb sep "" then explode s n
  else
    let n := if n <? 0 then Z.of_nat (Count s sep) + 1 else n in
    let n := if Z.of_nat (len s) + 1 <? n then Z.of_nat (len s) + 1 else n in
    genSplit_loop (Z.to_nat (n - 1)) s sep sepSave.

(** [Split(s, sep)] *)
Definition Split (s sep : string) : list string := genSplit s sep 0 (-1).

(** One iteration of the loop of [FieldsFunc] over [range s]; the state is
    [start] (the start of the field being read, negative outside a field)
    and the spans recorded so far. *)
Definition FieldsFunc_step (f : Z -> bool)
    (st : Z * list (nat * nat)) (it : nat * Z) : Z * list (nat * nat) :=
  let '(start, spans) := st in
  let '(end_, rune) := it in
  if f rune then
    if 0 <=? start then (Z.lnot start, spans ++ [(Z.to_nat start, end_)])
    else (start, spans)
  else
    if start <? 0 then (Z.of_nat end_, spans) else (start, spans).

(** After the loop: [if start >= 0 { spans = append(spans, span{start, len(s)}) }]. *)
Definition FieldsFunc_last (s : string) (st : Z * list (nat * nat)) : list (nat * nat) :=
  let '(start, spans) := st in
  if 0 <=? start then spans ++ [(Z.to_nat start, len s)] else spans.

(** [FieldsFunc(s, f)]: [s] split at each run of code points satisfying
    [f]; the spans are found first and sliced out of [s] afterwards. *)
Definition FieldsFunc (s : string) (f : Z -> bool) : list string :=
  let spans :=
    FieldsFunc_last s (fold_left (FieldsFunc_step f) (range_string s) (-1, [])) in
  map (fun span => slice s (fst span) (snd span)) spans.

(** [Fields(s)]: [s] split around each run of white space as defined by
    [unicode.IsSpace].  Go's implementation has a fast path for strings
    of ASCII bytes only, on which a byte is its own rune and the byte
    table [asciiSpace] agrees with [unicode.IsSpace]; it returns what the
    general path returns, which is what is modelled. *)
Definition Fields (s : string) : list string :=
  FieldsFunc s unicode.IsSpace.

(** [Contains(s, substr)]: [Index(s, substr) >= 0]. *)
Definition Contains (s substr : string) : bool := 0 <=? Index s substr.

(** [LastIndex(s, substr)]: the index of the last instance of [substr] in
    [s], or -1 if there is none. *)
Fixpoint LastIndex (s substr : string) : Z :=
  match s with
  | EmptyString => if HasPrefix s substr then 0 else -1
  | String _ s' =>
      let i := LastIndex s' substr in
      if 0 <=? i then i + 1
      else if HasPrefix s substr then 0 else -1
  end.

(** [Join(elems, sep)]: the elements with [sep] between them, written
    one after the other into a [Builder]. *)
Definition Join (elems : list string) (sep : string) : string :=
  match elems with
  | [] => ""
  | [e] => e
  | e :: rest => fold_left (fun b s => b +:+ sep +:+ s) rest e
  end.

(** The table [asciiSpace]. *)
Definition asciiSpace (c : Z) : bool :=
  (c =? 0x09) || (c =? 0x0A) || (c =? 0x0B) || (c =? 0x0C) || (c =? 0x0D) || (c =? 0x20).

(** [indexFunc(s, f, truth)]: the offset of the first rune on which [f]
    gives [truth], or -1. *)
Definition indexFunc (s : string) (f : Z -> bool) (truth : bool) : Z :=
  match List.find (fun it : nat * Z => Bool.eqb (f it.2) truth) (range_string s) with
  | Some it => Z.of_nat it.1
  | None => -1
  end.

(** The loop of [lastIndexFunc]:
    [for i := len(s); i > 0; { r, size := utf8.DecodeLastRuneInString(s[0:i]);
       i -= size; if f(r) == truth { return i } }; return -1]. *)
Fixpoint lastIndexFunc_loop (fuel : nat) (s : string) (f : Z -> bool) (truth : bool)
    (i : Z) : Z :=
  match fuel with
  | O => -1
  | S k =>
      if 0 <? i then
        let '(r, size) := utf8.DecodeLastRuneInString (slice s 0 (Z.to_nat i)) in
        let i := i - Z.of_nat size in
        if Bool.eqb (f r) truth then i else lastIndexFunc_loop k s f truth i
      else -1
  end.

(** [lastIndexFunc(s, f, truth)]; every step goes back by at least one
    byte. *)
Definition lastIndexFunc (s : string) (f : Z -> bool) (truth : bool) : Z :=
  lastIndexFunc_loop (S (len s)) s f truth (Z.of_nat (len s)).

(** [TrimLeftFunc(s, f)] *)
Definition TrimLeftFunc (s : string) (f : Z -> bool) : string :=
  let i := indexFunc s f false in
  if i =? -1 then "" else string_drop (Z.to_nat i) s.

(** [TrimRightFunc(s, f)] *)
Definition TrimRightFunc (s : string) (f : Z -> bool) : string :=
  let i := lastIndexFunc s f false in
  let i :=
    if (0 <=? i) && (utf8.RuneSelf <=? byteAt s (Z.to_nat i)) then
      let '(_, wid) := utf8.DecodeRuneInString (string_drop (Z.to_nat i) s) in
      i + Z.of_nat wid
    else i + 1 in
  slice s 0 (Z.to_nat i).

(** [TrimFunc(s, f)] *)
Definition TrimFunc (s : string) (f : Z -> bool) : string :=
  TrimRightFunc (TrimLeftFunc s f) f.

(** The second loop of [TrimSpace], from the end of [s] down to [start]:
    [left] is [stop - start], the number of bytes still to look at. *)
Fixpoint TrimSpace_stop (left : nat) (s : string) (start : nat) : string :=
  match left with
  | O => slice s start start
  | S k =>
      let stop := (start + left)%nat in
      let c := byteAt s (stop - 1) in
      if utf8.RuneSelf <=? c then TrimRightFunc (slice s start stop) unicode.IsSpace
      else if negb (asciiSpace c) then slice s start stop
      else TrimSpace_stop k s start
  end.

(** The first loop of [TrimSpace], followed by the second: [rest] is
    [s[start:]]. *)
Fixpoint TrimSpace_start (rest : string) (s : string) (start : nat) : string :=
  match rest with
  | EmptyString => TrimSpace_stop (len s - start) s start
  | String b rest' =>
      let c := byteZ b in
      if utf8.RuneSelf <=? c then TrimFunc (string_drop start s) unicode.IsSpace
      else if negb (asciiSpace c) then TrimSpace_stop (len s - start) s start
      else TrimSpace_start rest' s (S start)
  end.

(** [TrimSpace(s)]: [s] without its leading and trailing white space, by
    bytes as long as they are ASCII and by runes from the first one that
    is not. *)
Definition TrimSpace (s : string) : string := TrimSpace_start s s 0.

End strings.

(** ** Package [strconv] *)

Module strconv.

(** [Itoa(i)]: the decimal digits of [i], after a minus sign when [i] is
    negative. *)
Definition Itoa (i : Z) : string := NilZero.string_of_int (Z.to_int i).

(** The loop over the digits: [ch -= '0'; if ch > 9 { syntax error };
    n = n*10 + int(ch)]. *)
Fixpoint digits (s : string) (n : Z) : option Z :=
  match s with
  | EmptyString => Some n
  | String ch s' =>
      let d := byteZ ch - 48 in
      if (0 <=? d) && (d <=? 9) then digits s' (n * 10 + d) else None
  end.

(** [Atoi(s)]: an optional sign and at least one decimal digit, of a value
    that an [int] holds; [None] stands for the syntax and range errors. *)
Definition Atoi (s : string) : option Z :=
  match s with
  | EmptyString => None
  | String c rest =>
      let neg := Ascii.eqb c "-" in
      let body := if neg || Ascii.eqb c "+" then rest else s in
      match body with
      | EmptyString => None
      | String _ _ =>
          match digits body 0 with
          | None => None
          | Some n =>
              let n := if neg then - n else n in
              if (- 2 ^ 63 <=? n) && (n <? 2 ^ 63) then Some n else None
          end
      end
  end.

End strconv.

(** ** Machine integers *)

(** The value an [int64] holds after an arithmetic result [z]. *)
Definition wrap64 (z : Z) : Z := (z + 2 ^ 63) mod 2 ^ 64 - 2 ^ 63.

(** ** Values of type [any] and of type [error] *)

(** The dynamically typed values the engine stores but never inspects:
    Go's [nil] and some boxed values. *)
Inductive any : Type :=
  | AnyNil
  | AnyInt (n : Z)
  | AnyString (s : string)
  | AnyBool (b : bool).

(** An [error] is either created by a program ([errors.New]) or wraps
    another one with a prefix: [fmt.Errorf(prefix + "%w", err)]. *)
Inductive error : Type :=
  | errors_New (text : string)
  | Errorf_w (prefix : string) (err : error).

(** [err.Error()] *)
Fixpoint Error (e : error) : string :=
  match e with
  | errors_New text => text
  | Errorf_w prefix err => prefix +:+ Error err
  end.

(** [errors.Unwrap(err)] *)
Definition Unwrap (e : error) : option error :=
  match e with
  | errors_New _ => None
  | Errorf_w _ err => Some err
  end.

(** ** [type Context struct] *)

Record Context : Type := mkContext {
  Fields : list string;                    (* []string; $0 is Fields[0] *)
  NR : Z;                                  (* int64 *)
  NF : Z;                                  (* int *)
  FS : string;
  OFS : string;
  Variables : option (gmap string any);    (* map[string]any; None is the nil map *)
  RS : string
}.

Definition set_Fields (c : Context) (v : list string) : Context :=
  mkContext v (NR c) (NF c) (FS c) (OFS c) (Variables c) (RS c).
Definition set_NR (c : Context) (v : Z) : Context :=
  mkContext (Fields c) v (NF c) (FS c) (OFS c) (Variables c) (RS c).
Definition set_NF (c : Context) (v : Z) : Context :=
  mkContext (Fields c) (NR c) v (FS c) (OFS c) (Variables c) (RS c).
Definition set_Variables (c : Context) (v : option (gmap string any)) : Context :=
  mkContext (Fields c) (NR c) (NF c) (FS c) (OFS c) v (RS c).

(** Indexing a slice: [l[i]] and [l[i] = v].  [None] stands for the
    run-time panic that an index out of range raises. *)
Definition slice_get (l : list string) (i : Z) : option string :=
  if (i <? 0) || (Z.of_nat (length l) <=? i) then None
  else l !! Z.to_nat i.

Definition slice_set (l : list string) (i : Z) (v : string) : option (list string) :=
  if (i <? 0) || (Z.of_nat (length l) <=? i) then None
  else Some (<[Z.to_nat i := v]> l).

(** [func (c *Context) Field(index int) string]; [None] would be a
    panic. *)
Definition Field_checked (c : Context) (index : Z) : option string :=
  if (index <? 0) || (Z.of_nat (length (Fields c)) <=? index) then Some ""
  else slice_get (Fields c) index.

(** The loop of [SetField]:
    [for len(c.Fields) <= index { c.Fields = append(c.Fields, "") }]. *)
Fixpoint expandFields (fuel : nat) (fields : list string) (index : Z) : list string :=
  match fuel with
  | O => fields
  | S k =>
      if Z.of_nat (length fields) <=? index
      then expandFields k (fields ++ [""]) index
      else fields
  end.

(** [func (c *Context) SetField(index int, value string)]; [None] would
    be a panic.  The loop appends at most [index + 1] placeholders. *)
Definition SetField_checked (c : Context) (index : Z) (value : string)
    : option Context :=
  if index <? 0 then Some c
  else
    let fields := expandFields (Z.to_nat (index + 1)) (Fields c) index in
    match slice_set fields index value with
    | None => None
    | Some fields =>
        Some (set_NF (set_Fields c fields) (Z.of_nat (length fields) - 1))
    end.

(** The two methods as the total functions they are: neither panics
    ([Field_checked_total], [SetField_checked_total]). *)
Definition Field (c : Context) (index : Z) : string :=
  default "" (Field_checked c index).

Definition SetField (c : Context) (index : Z) (value : string) : Context :=
  default c (SetField_checked c index value).

(** [func (c *Context) Var(name string) any] *)
Definition Var (c : Context) (name : string) : any :=
  match Variables c with
  | None => AnyNil
  | Some m => default AnyNil (m !! name)
  end.

(** [func (c *Context) SetVar(name string, value any)] *)
Definition SetVar (c : Context) (name : string) (value : any) : Context :=
  let m := match Variables c with None => ∅ | Some m => m end in
  set_Variables c (Some (<[name := value]> m)).

(** ** Package [fmt] *)

Module fmt.

(** [Sprint(v)] for a single operand: the default format of the value,
    [<nil>] for the nil interface. *)
Definition Sprint (v : any) : string :=
  match v with
  | AnyNil => "<nil>"
  | AnyInt n => strconv.Itoa n
  | AnyString s => s
  | AnyBool b => if b then "true" else "false"
  end.

End fmt.

(** [func (c *Context) Print(values ...any) string] *)
Definition Print (c : Context) (values : list any) : string :=
  let parts := map fmt.Sprint values in
  strings.Join parts (OFS c).

(** ** [type Program interface] *)

(** The four hooks.  A hook is handed the program value (state [P]) and
    the context, and leaves both behind with its results. *)
Record Program (P : Type) : Type := mkProgram {
  Begin : P -> Context -> P * Context * option error;
  Condition : P -> Context -> P * Context * bool;
  Action : P -> Context -> P * Context * (string * bool);
  End_ : P -> Context -> P * Context * (string * option error)
}.
Arguments mkProgram {P}.
Arguments Begin {P}.
Arguments Condition {P}.
Arguments Action {P}.
Arguments End_ {P}.

(** [type SimpleProgram struct{}]: the default implementations. *)
Definition SimpleProgram : Program unit := {|
  Begin := fun p ctx => (p, ctx, None);
  Condition := fun p ctx => (p, ctx, true);
  Action := fun p ctx => (p, ctx, (Field ctx 0, true));
  End_ := fun p ctx => (p, ctx, ("", None))
|}.

(** ** [type flags struct], [type command struct], [func Awk] *)

Record flags : Type := mkFlags {
  FieldSeparator : string;
  OutputFieldSeparator : string;
  flags_Variables : option (gmap string any)
}.

Record command (P : Type) : Type := mkCommand {
  program : Program P;
  inputs_Flags : flags
}.
Arguments mkCommand {P}.
Arguments program {P}.
Arguments inputs_Flags {P}.

(** [func Awk(program Program, parameters ...any) gloo.Command]; the
    parameters arrive as the [flags] that [gloo.Initialize] made of them. *)
Definition Awk {P} (program : Program P) (parameters : flags) : command P :=
  let fl := parameters in
  let fl :=
    if String.eqb (FieldSeparator fl) ""
    then mkFlags " " (OutputFieldSeparator fl) (flags_Variables fl) else fl in
  let fl :=
    if String.eqb (OutputFieldSeparator fl) ""
    then mkFlags (FieldSeparator fl) " " (flags_Variables fl) else fl in
  mkCommand program fl.

(** ** The options of [opt.go] *)

(** [func (f FieldSeparator) Configure(flags *flags)] *)
Definition FieldSeparator_Configure (f : string) (fl : flags) : flags :=
  mkFlags f (OutputFieldSeparator fl) (flags_Variables fl).

(** [func (o OutputFieldSeparator) Configure(flags *flags)] *)
Definition OutputFieldSeparator_Configure (o : string) (fl : flags) : flags :=
  mkFlags (FieldSeparator fl) o (flags_Variables fl).

(** [func (v Variable) Configure(flags *flags)] for [v = Variable{Name, Value}] *)
Definition Variable_Configure (Name : string) (Value : any) (fl : flags) : flags :=
  let m := match flags_Variables fl with None => ∅ | Some m => m end in
  mkFlags (FieldSeparator fl) (OutputFieldSeparator fl) (Some (<[Name := Value]> m)).

(** The three kinds of option, each with its [Configure] method. *)
Inductive parameter : Type :=
  | OptFieldSeparator (f : string)
  | OptOutputFieldSeparator (o : string)
  | OptVariable (Name : string) (Value : any).

Definition Configure (o : parameter) (fl : flags) : flags :=
  match o with
  | OptFieldSeparator f => FieldSeparator_Configure f fl
  | OptOutputFieldSeparator o => OutputFieldSeparator_Configure o fl
  | OptVariable Name Value => Variable_Configure Name Value fl
  end.

(** The options [ps] applied to [fl] one after the other. *)
Definition configure (ps : list parameter) (fl : flags) : flags :=
  fold_left (fun fl o => Configure o fl) ps fl.

(** The argument of the last option of each kind in [ps], if any. *)
Definition last_FieldSeparator (ps : list parameter) : option string :=
  last (omap (fun o => match o with OptFieldSeparator f => Some f | _ => None end) ps).

Definition last_OutputFieldSeparator (ps : list parameter) : option string :=
  last (omap (fun o => match o with OptOutputFieldSeparator f => Some f | _ => None end) ps).

Definition last_Variable (name : string) (ps : list parameter) : option any :=
  last (omap (fun o => match o with
                       | OptVariable n v => if String.eqb n name then Some v else None
                       | _ => None
                       end) ps).

(** ** [func (c command) Executor()] *)

(** What [bufio.Scanner] delivers from [stdin]: the lines for which
    [Scan] returns true and, once it returns false, the value of [Err]
    ([None] at end of input). *)
Record Input : Type := mkInput {
  lines : list string;
  scanner_Err : option error
}.

(** Ghost record of one hook invocation: the context handed to the hook,
    the context it left, and what it returned. *)
Inductive call : Type :=
  | CallBegin (ctx_in ctx_out : Context) (err : option error)
  | CallCondition (ctx_in ctx_out : Context) (res : bool)
  | CallAction (ctx_in ctx_out : Context) (output : string) (emit : bool)
  | CallEnd (ctx_in ctx_out : Context) (output : string) (err : option error).

(** The state of a run: the program value, [awkCtx], what has been
    written to [stdout], and the ghost list of hook invocations. *)
Record run_state (P : Type) : Type := mkRun {
  prog_state : P;
  awkCtx : Context;
  stdout : string;
  calls : list call
}.
Arguments mkRun {P}.
Arguments prog_state {P}.
Arguments awkCtx {P}.
Arguments stdout {P}.
Arguments calls {P}.

(** [fmt.Fprintln(w, s)] for a string [s]: the text and a newline. *)
Definition Fprintln (w : string) (s : string) : string :=
  w +:+ s +:+ String "010" "".

(** The loop [for k, v := range m { awkCtx.Variables[k] = v }] into the
    map made by [make]; ranging over the nil map does nothing. *)
Definition copyVariables (m : option (gmap string any)) : gmap string any :=
  match m with
  | None => ∅
  | Some m => map_fold (fun k v (acc : gmap string any) => <[k := v]> acc) ∅ m
  end.

(** [awkCtx := &Context{...}] followed by the copy of the initial
    variables. *)
Definition initContext (fl : flags) : Context :=
  {| Fields := [];
     NR := 0;
     NF := 0;
     FS := FieldSeparator fl;
     OFS := OutputFieldSeparator fl;
     Variables := Some (copyVariables (flags_Variables fl));
     RS := String "010" "" |}.

(** The fields of one line: the [if awkCtx.FS == " "] statement. *)
Definition splitLine (fs line : string) : list string :=
  if String.eqb fs " " then strings.Fields line
  else if String.eqb line "" then []
  else strings.Split line fs.

(** The body of the scanning loop up to the hooks: [awkCtx.NR++], the
    fresh [Fields] with [$0], the split, and [NF]. *)
Definition updateRecord (c : Context) (line : string) : Context :=
  let c := set_NR c (wrap64 (NR c + 1)) in
  let c := set_Fields c [] in
  let c := set_Fields c (Fields c ++ [line]) in
  let fields := splitLine (FS c) line in
  let c := set_Fields c (Fields c ++ fields) in
  set_NF c (Z.of_nat (length fields)).

(** One iteration of the scanning loop. *)
Definition processLine {P} (prog : Program P) (st : run_state P) (line : string)
    : run_state P :=
  let ctx := updateRecord (awkCtx st) line in
  let '(p1, ctx1, ok) := Condition prog (prog_state st) ctx in
  let calls1 := calls st ++ [CallCondition ctx ctx1 ok] in
  if negb ok then mkRun p1 ctx1 (stdout st) calls1
  else
    let '(p2, ctx2, (output, emit)) := Action prog p1 ctx1 in
    let calls2 := calls1 ++ [CallAction ctx1 ctx2 output emit] in
    if emit then mkRun p2 ctx2 (Fprintln (stdout st) output) calls2
    else mkRun p2 ctx2 (stdout st) calls2.

(** [for scanner.Scan() { ... }] *)
Definition scanLoop {P} (prog : Program P) (st : run_state P) (ls : list string)
    : run_state P :=
  fold_left (processLine prog) ls st.

(** The function wrapped by [Executor]: a run of the command on [stdin],
    starting with the program value [p] and with [out] already on
    [stdout].  Returns the final state and the error of the run. *)
Definition Executor {P} (c : command P) (p : P) (stdin : Input) (out : string)
    : run_state P * option error :=
  let awkCtx0 := initContext (inputs_Flags c) in
  let '(p1, ctx1, err) := Begin (program c) p awkCtx0 in
  let st := mkRun p1 ctx1 out [CallBegin awkCtx0 ctx1 err] in
  match err with
  | Some err => (st, Some (Errorf_w "BEGIN: " err))
  | None =>
      let st := scanLoop (program c) st (lines stdin) in
      match scanner_Err stdin with
      | Some err => (st, Some err)
      | None =>
          let '(p2, ctx2, (endOutput, err)) :=
            End_ (program c) (prog_state st) (awkCtx st) in
          let calls2 := calls st ++ [CallEnd (awkCtx st) ctx2 endOutput err] in
          match err with
          | Some err =>
              (mkRun p2 ctx2 (stdout st) calls2, Some (Errorf_w "END: " err))
          | None =>
              if negb (String.eqb endOutput "")
              then (mkRun p2 ctx2 (Fprintln (stdout st) endOutput) calls2, None)
              else (mkRun p2 ctx2 (stdout st) calls2, None)
          end
      end
  end.

(** ** Reading the ghost record *)

(** The contexts handed to [Condition], in call order. *)
Definition condition_inputs (cs : list call) : list Context :=
  omap (fun e => match e with CallCondition c _ _ => Some c | _ => None end) cs.

(** The contexts handed to [Action], in call order. *)
Definition action_inputs (cs : list call) : list Context :=
  omap (fun e => match e with CallAction c _ _ _ => Some c | _ => None end) cs.

(** The contexts handed to [End], in call order. *)
Definition end_inputs (cs : list call) : list Context :=
  omap (fun e => match e with CallEnd c _ _ _ => Some c | _ => None end) cs.

(** The contexts handed to [Begin], in call order. *)
Definition begin_inputs (cs : list call) : list Context :=
  omap (fun e => match e with CallBegin c _ _ => Some c | _ => None end) cs.

(** The context a hook was handed and the context it left. *)
Definition call_in (e : call) : Context :=
  match e with
  | CallBegin c _ _ | CallCondition c _ _ | CallAction c _ _ _ | CallEnd c _ _ _ => c
  end.
Definition call_out (e : call) : Context :=
  match e with
  | CallBegin _ c _ | CallCondition _ c _ | CallAction _ c _ _ | CallEnd _ c _ _ => c
  end.

(** What the engine writes for one hook invocation: the output and a
    newline for an [Action] that asks to emit and for an [End] that
    returns a non-empty output and no error, nothing otherwise. *)
Definition written (e : call) : string :=
  match e with
  | CallAction _ _ output true => output +:+ String "010" ""
  | CallEnd _ _ output None =>
      if String.eqb output "" then "" else output +:+ String "010" ""
  | _ => ""
  end.

(** What the engine writes for a list of hook invocations. *)
Definition written_all (cs : list call) : string :=
  foldr (fun e acc => written e +:+ acc) "" cs.

(** The context the last hook invoked so far left behind, [c0] when no
    hook has run. *)
Definition last_out (c0 : Context) (cs : list call) : Context :=
  fold_left (fun _ e => call_out e) cs c0.

(** The hook invocations [cs] are run on one context that starts as
    [prev]: [Condition] is handed what the hook before it left, updated
    for a record; every other hook is handed exactly what the hook
    before it left. *)
Fixpoint chained (prev : Context) (cs : list call) : Prop :=
  match cs with
  | [] => True
  | e :: cs' =>
      match e with
      | CallCondition c _ _ => exists line, c = updateRecord prev line
      | _ => call_in e = prev
      end /\ chained (call_out e) cs'
  end.

(** The contexts left by the [Condition] calls that returned true. *)
Definition passed_outputs (cs : list call) : list Context :=
  omap (fun e => match e with CallCondition _ c true => Some c | _ => None end) cs.

(** The record numbers seen by [Condition] calls that returned true. *)
Definition passed_NR (cs : list call) : list Z :=
  omap (fun e => match e with CallCondition c _ true => Some (NR c) | _ => None end) cs.

(** The context holds the split of the record [line]. *)
Definition holds_record (c : Context) (line : string) : Prop :=
  Fields c = line :: splitLine (FS c) line /\
  NF c = Z.of_nat (length (splitLine (FS c) line)).

(** The lines [ls], each followed by a newline. *)
Definition unlines (ls : list string) : string :=
  foldr (fun l acc => l +:+ String "010" "" +:+ acc) "" ls.

(** The separators and the variables have the same values in two
    contexts. *)
Definition same_settings (a b : Context) : Prop :=
  FS a = FS b /\ OFS a = OFS b /\ RS a = RS b /\ Variables a = Variables b.

(** Every hook invocation of [cs] is handed the separators and the
    variables that the one before it left, the first one those of
    [prev]. *)
Fixpoint settings_kept (prev : Context) (cs : list call) : Prop :=
  match cs with
  | [] => True
  | e :: cs' => same_settings (call_in e) prev /\ settings_kept (call_out e) cs'
  end.

(** ** The specification's notions, stated independently of the code *)

(** *** Literal separators *)

(** [sep] occurs in [s] at byte offset [i]. *)
Definition occurs_at (sep s : string) (i : nat) : Prop :=
  exists a b, s = a +:+ sep +:+ b /\ len a = i.

(** Left-to-right count of the occurrences of [sep] in [s] that do not
    overlap an occurrence counted before; [skip] bytes at the front belong
    to the occurrence just counted.  Meant for a non-empty [sep]. *)
Fixpoint count_from (skip : nat) (sep s : string) : nat :=
  match s with
  | EmptyString => 0%nat
  | String _ s' =>
      match skip with
      | S k => count_from k sep s'
      | O =>
          if String.prefix sep s
          then S (count_from (len sep - 1) sep s')
          else count_from 0 sep s'
      end
  end.

Definition count_occurrences (sep s : string) : nat := count_from 0 sep s.

(** A set of occurrences of [sep] in [s], given by their offsets in
    increasing order, no two of which overlap. *)
Fixpoint non_overlapping (sep s : string) (from : nat) (ps : list nat) : Prop :=
  match ps with
  | [] => True
  | p :: ps' =>
      (from <= p)%nat /\ occurs_at sep s p
      /\ non_overlapping sep s (p + len sep) ps'
  end.

(** [s] cut at the leftmost occurrence of [sep], then the rest cut the same
    way: the fields lie between the occurrences, the last one holds none. *)
Inductive split_at (sep : string) : string -> list string -> Prop :=
  | split_at_last s :
      (forall i, ~ occurs_at sep s i) ->
      split_at sep s [s]
  | split_at_cons f rest fs :
      (forall i, (i < len f)%nat -> ~ occurs_at sep (f +:+ sep +:+ rest) i) ->
      split_at sep rest fs ->
      split_at sep (f +:+ sep +:+ rest) (f :: fs).

(** [strings.Join(fs, sep)], the inverse direction. *)
Fixpoint Join (fs : list string) (sep : string) : string :=
  match fs with
  | [] => ""
  | [f] => f
  | f :: fs' => f +:+ sep +:+ Join fs' sep
  end.

(** *** White space *)

(** The characters of a string: every UTF-8 sequence (or invalid byte)
    with the code point it decodes to. *)
Fixpoint runes_from (fuel : nat) (s : string) : list (Z * string) :=
  match fuel with
  | O => []
  | S k =>
      match s with
      | EmptyString => []
      | String _ _ =>
          let '(r, size) := utf8.DecodeRuneInString s in
          (r, string_take size s) :: runes_from k (string_drop size s)
      end
  end.

Definition runes (s : string) : list (Z * string) := runes_from (len s) s.

(** What [range] visits on the characters [cs] when the first of them
    stands at byte offset [off]: each offset with the code point. *)
Fixpoint range_items (off : nat) (cs : list (Z * string)) : list (nat * Z) :=
  match cs with
  | [] => []
  | c :: cs' => (off, fst c) :: range_items (off + len (snd c))%nat cs'
  end.

(** The bytes of a sequence of characters. *)
Definition bytes_of (cs : list (Z * string)) : string :=
  foldr (fun c acc => snd c +:+ acc) "" cs.

Definition is_space (c : Z * string) : Prop := unicode.IsSpace (fst c) = true.
Definition not_space (c : Z * string) : Prop := unicode.IsSpace (fst c) = false.

(** [cs] starts with white space or is empty: a token may end before it. *)
Definition token_end (cs : list (Z * string)) : Prop :=
  match cs with
  | [] => True
  | c :: _ => is_space c
  end.

(** The tokens of a sequence of characters: [ws_tokens cs ts] when [cs] is
    white space, token, white space, ..., token, white space, where every
    token is a non-empty run of non-space characters that ends at white
    space or at the end, the runs of white space between two tokens are
    non-empty, and those at both ends may be empty. *)
Inductive ws_tokens : list (Z * string) -> list (list (Z * string)) -> Prop :=
  | ws_tokens_end ws :
      Forall is_space ws ->
      ws_tokens ws []
  | ws_tokens_cons ws t rest ts :
      Forall is_space ws ->
      t <> [] -> Forall not_space t ->
      token_end rest ->
      ws_tokens rest ts ->
      ws_tokens (ws ++ t ++ rest) (t :: ts).

(** *** ASCII words *)

(** A byte below [utf8.RuneSelf] that is not white space. *)
Definition solid (b : ascii) : bool :=
  (byteZ b <? utf8.RuneSelf) && negb (strings.asciiSpace (byteZ b)).

(** All bytes of [s] are ASCII white space. *)
Fixpoint blank (s : string) : bool :=
  match s with
  | EmptyString => true
  | String b s' => strings.asciiSpace (byteZ b) && blank s'
  end.

(** The last byte of [s]. *)
Fixpoint lastByte (s : string) : option ascii :=
  match s with
  | EmptyString => None
  | String b EmptyString => Some b
  | String _ s' => lastByte s'
  end.

(** [s] is empty, or starts and ends with an ASCII byte that is not white
    space: there is nothing to trim. *)
Definition trimmed (s : string) : bool :=
  match s with
  | EmptyString => true
  | String b _ => solid b && match lastByte s with Some e => solid e | None => false end
  end.

(** All bytes of [s] are ASCII and none is white space. *)
Fixpoint solid_bytes (s : string) : bool :=
  match s with
  | EmptyString => true
  | String b s' => solid b && solid_bytes s'
  end.

(** A non-empty string of ASCII bytes none of which is white space. *)
Definition word (s : string) : bool :=
  negb (String.eqb s "") && solid_bytes s.

(** The bytes of [s] as one-byte characters. *)
Fixpoint chars (s : string) : list (Z * string) :=
  match s with
  | EmptyString => []
  | String b s' => (byteZ b, String b "") :: chars s'
  end.

(** ** Hooks that leave parts of the context alone *)

Section Frames.
Context {P : Type} (prog : Program P).

(** No hook that runs before or during the scan assigns [NR]. *)
Definition keeps_NR : Prop :=
  (forall p c, NR (Begin prog p c).1.2 = NR c) /\
  (forall p c, NR (Condition prog p c).1.2 = NR c) /\
  (forall p c, NR (Action prog p c).1.2 = NR c).

(** [len(Fields) = NF + 1]: [NF] counts the fields after [$0]. *)
Definition fields_counted (c : Context) : Prop :=
  Z.of_nat (length (Fields c)) = NF c + 1.

(** [Condition] may change [Fields] and [NF] but keeps them in step,
    as it does when it changes them through [SetField] only. *)
Definition condition_keeps_count : Prop :=
  forall p c, fields_counted c -> fields_counted (Condition prog p c).1.2.

(** [Condition] leaves [Fields] and [NF] as it found them. *)
Definition condition_keeps_fields : Prop :=
  forall p c,
    Fields (Condition prog p c).1.2 = Fields c /\
    NF (Condition prog p c).1.2 = NF c.

(** [Action] leaves [Fields] and [NF] as it found them. *)
Definition action_keeps_fields : Prop :=
  forall p c,
    Fields (Action prog p c).1.2 = Fields c /\
    NF (Action prog p c).1.2 = NF c.

(** [Begin] leaves [Fields], [NF] and [NR] as it found them. *)
Definition begin_keeps_record : Prop :=
  forall p c,
    Fields (Begin prog p c).1.2 = Fields c /\
    NF (Begin prog p c).1.2 = NF c /\
    NR (Begin prog p c).1.2 = NR c.

End Frames.

(** ** Programs used as examples *)

(** A program in the style of the tests' [VariableProgram]: [Begin] sets
    the variable total to 0, [Action] adds one and emits nothing, [End]
    emits a fixed line. *)
Definition totalProgram : Program unit := {|
  Begin := fun p ctx => (p, SetVar ctx "total" (AnyInt 0), None);
  Condition := fun p ctx => (p, ctx, true);
  Action := fun p ctx =>
    let n := match Var ctx "total" with AnyInt n => n | _ => 0 end in
    (p, SetVar ctx "total" (AnyInt (n + 1)), ("", false));
  End_ := fun p ctx => (p, ctx, ("done", None))
|}.

(** The tests' [ErrorInBeginProgram] and [ErrorInEndProgram]. *)
Definition ErrorInBeginProgram : Program unit := {|
  Begin := fun p ctx => (p, ctx, Some (errors_New "begin error"));
  Condition := Condition SimpleProgram;
  Action := Action SimpleProgram;
  End_ := End_ SimpleProgram
|}.

Definition ErrorInEndProgram : Program unit := {|
  Begin := Begin SimpleProgram;
  Condition := Condition SimpleProgram;
  Action := Action SimpleProgram;
  End_ := fun p ctx => (p, ctx, ("", Some (errors_New "end error")))
|}.

(** A program whose [Action] rewrites the first field through [SetField]
    and emits the empty string. *)
Definition rewriteProgram : Program unit := {|
  Begin := Begin SimpleProgram;
  Condition := Condition SimpleProgram;
  Action := fun p ctx => (p, SetField ctx 1 "X", ("", true));
  End_ := End_ SimpleProgram
|}.

(** A program whose [Condition] writes a field through [SetField]. *)
Definition markProgram : Program unit := {|
  Begin := Begin SimpleProgram;
  Condition := fun p ctx => (p, SetField ctx 3 "seen", true);
  Action := Action SimpleProgram;
  End_ := End_ SimpleProgram
|}.

(** Programs of [command_test.go]. *)

(** [type ConditionalProgram struct]: [Condition] holds for the lines that
    start with [include:]. *)
Definition ConditionalProgram : Program unit := {|
  Begin := Begin SimpleProgram;
  Condition := fun p ctx =>
    let line := Field ctx 0 in
    (p, ctx, strings.HasPrefix line "include:");
  Action := Action SimpleProgram;
  End_ := End_ SimpleProgram
|}.

(** [type FieldExtractorProgram struct]: the program value is
    [fieldIndex]. *)
Definition FieldExtractorProgram : Program Z := {|
  Begin := fun p ctx => (p, ctx, None);
  Condition := fun p ctx => (p, ctx, true);
  Action := fun p ctx => (p, ctx, (Field ctx p, true));
  End_ := fun p ctx => (p, ctx, ("", None))
|}.

(** [type CountingProgram struct]: the program value is [count], an
    [int] that [Action] increments; [End] formats it with [%d]. *)
Definition CountingProgram : Program Z := {|
  Begin := fun p ctx => (p, ctx, None);
  Condition := fun p ctx => (p, ctx, true);
  Action := fun p ctx => (wrap64 (p + 1), ctx, ("", false));
  End_ := fun p ctx => (p, ctx, ("Total lines: " +:+ strconv.Itoa p, None))
|}.

(** [type LineNumberProgram struct]: [Action] returns
    [fmt.Sprintf("%d: %s", ctx.NR, ctx.Field(0))]. *)
Definition LineNumberProgram : Program unit := {|
  Begin := Begin SimpleProgram;
  Condition := Condition SimpleProgram;
  Action := fun p ctx =>
    (p, ctx, (strconv.Itoa (NR ctx) +:+ ": " +:+ Field ctx 0, true));
  End_ := End_ SimpleProgram
|}.

Definition defaultFlags : flags := mkFlags "" "" None.

(** The string made of the bytes with the given values. *)
Definition bytes (l : list Z) : string :=
  string_of_list_ascii (map (fun z => ascii_of_N (Z.to_N z)) l).

(** The context of a run of [Awk(SimpleProgram{})] before [Begin]. *)
Definition defaultContext : Context :=
  initContext (inputs_Flags (Awk SimpleProgram defaultFlags)).

(** ** Package [awk]: the interpreter of script strings ([awk.go]) *)

Module awk.

(** [type Flags struct] of [opt/opt.go] *)
Record Flags : Type := mkFlags {
  Program : string;
  ScriptFile : string;
  FieldSeparator : string;
  Variables : option (gmap string string)
}.

(** The [Configure] methods of [opt/opt.go]. *)
Definition Program_Configure (p : string) (flags : Flags) : Flags :=
  mkFlags p (ScriptFile flags) (FieldSeparator flags) (Variables flags).

Definition ScriptFile_Configure (s : string) (flags : Flags) : Flags :=
  mkFlags (Program flags) s (FieldSeparator flags) (Variables flags).

Definition FieldSeparator_Configure (f : string) (flags : Flags) : Flags :=
  mkFlags (Program flags) (ScriptFile flags) f (Variables flags).

(** [func (v Variable) Configure(flags *Flags)]: the loop
    [for k, val := range v { flags.Variables[k] = val }] into the map of
    the flags, made first if it is nil; a nil [v] ranges like the empty
    map. *)
Definition Variable_Configure (v : gmap string string) (flags : Flags) : Flags :=
  let m := match Variables flags with None => ∅ | Some m => m end in
  mkFlags (Program flags) (ScriptFile flags) (FieldSeparator flags)
          (Some (map_fold (fun k val (acc : gmap string string) => <[k := val]> acc) m v)).

(** [type command opt.Inputs[string, Flags]] *)
Record command : Type := mkCommand {
  Positional : list string;
  cmd_Flags : Flags
}.

(** [func Awk(parameters ...any) yup.Command]; the parameters arrive as
    the inputs that [opt.Args] made of them. *)
Definition Awk (parameters : command) : command :=
  let cmd := parameters in
  if String.eqb (FieldSeparator (cmd_Flags cmd)) ""
  then mkCommand (Positional cmd) (FieldSeparator_Configure " " (cmd_Flags cmd))
  else cmd.

(** [type AwkProgram struct] *)
Record AwkProgram : Type := mkAwkProgram {
  Pattern : string;
  Action : string
}.

(** [func (c command) parseProgram(program string)], which returns a
    pointer to an [AwkProgram] and an error.  The two slice expressions
    are in range, their bounds being the offsets of a brace that was
    found. *)
Definition parseProgram (program : string) : AwkProgram * option error :=
  if strings.Contains program "{" && strings.Contains program "}" then
    let start := strings.Index program "{" in
    let end_ := strings.LastIndex program "}" in
    if start <? end_ then
      let pattern := strings.TrimSpace (slice program 0 (Z.to_nat start)) in
      let action :=
        strings.TrimSpace (slice program (Z.to_nat (start + 1)) (Z.to_nat end_)) in
      (mkAwkProgram pattern action, None)
    else (mkAwkProgram "" program, None)
  else (mkAwkProgram "" program, None).

(** [func (c command) matchesPattern(line, fields, pattern) bool] *)
Definition matchesPattern (line : string) (fields : list string) (pattern : string)
    : bool :=
  if String.eqb pattern "" then true
  else strings.Contains line pattern.

(** [func (c command) executeAction(line, fields, lineNum, action) string];
    [None] would be the panic of an index or slice expression. *)
Definition executeAction_checked (line : string) (fields : list string)
    (lineNum : Z) (action : string) : option string :=
  if String.eqb action "print" then Some line
  else if String.eqb action "print NF" then Some (strconv.Itoa (Z.of_nat (length fields)))
  else if String.eqb action "print NR" then Some (strconv.Itoa lineNum)
  else if String.eqb action "print $0" then Some line
  else if String.eqb action "print $1" then
    if 0 <? Z.of_nat (length fields) then slice_get fields 0 else Some ""
  else if String.eqb action "print $2" then
    if 1 <? Z.of_nat (length fields) then slice_get fields 1 else Some ""
  else
    if strings.HasPrefix action "print $" then
      if (7 <=? len action)%nat then
        let fieldStr := string_drop 7 action in
        match strconv.Atoi fieldStr with
        | Some fieldNum =>
            if (0 <? fieldNum) && (fieldNum <=? Z.of_nat (length fields))
            then slice_get fields (fieldNum - 1)
            else Some line
        | None => Some line
        end
      else None
    else Some line.

(** The method as the total function it is. *)
Definition executeAction (line : string) (fields : list string)
    (lineNum : Z) (action : string) : string :=
  default line (executeAction_checked line fields lineNum action).

(** The fields of one line in [processReader]. *)
Definition splitFields (fs line : string) : list string :=
  if String.eqb fs " " then strings.Fields line
  else strings.Split line fs.

(** What [processReader] is given to read: the lines for which
    [yup.ScanWithContext] returns true, the result of
    [yup.CheckContextCancellation] after the loop, and that of
    [scanner.Err]. *)
Record Source : Type := mkSource {
  src_lines : list string;
  src_cancelled : option error;
  src_Err : option error
}.

(** One iteration of the loop of [processReader]; the state is [lineNum]
    (an [int]) and what has been written to [output]. *)
Definition processRecord (c : command) (program : AwkProgram)
    (st : Z * string) (line : string) : Z * string :=
  let '(lineNum, output) := st in
  let lineNum := wrap64 (lineNum + 1) in
  let fields := splitFields (FieldSeparator (cmd_Flags c)) line in
  if matchesPattern line fields (Pattern program) then
    let result := executeAction line fields lineNum (Action program) in
    if negb (String.eqb result "") then (lineNum, Fprintln output result)
    else (lineNum, output)
  else (lineNum, output).

(** [func (c command) processReader(ctx, reader, output, program) error]:
    what [output] holds afterwards, and the error. *)
Definition processReader (c : command) (src : Source) (output : string)
    (program : AwkProgram) : string * option error :=
  let st := fold_left (processRecord c program) (src_lines src) (0, output) in
  match src_cancelled src with
  | Some err => (st.2, Some err)
  | None => (st.2, src_Err src)
  end.

End awk.

(* ================================================================== *)
(** * Part II. Properties                                              *)
(* ================================================================== *)

(** ** Strings: append, length and slices *)

Section StringFacts.

Lemma app_cons a (s t : string) : String a s +:+ t = String a (s +:+ t).
Proof. reflexivity. Qed.

Lemma app_empty_l (s : string) : "" +:+ s = s.
Proof. reflexivity. Qed.

Lemma app_empty_r (s : string) : s +:+ "" = s.
Proof. induction s as [|a s IH]; [reflexivity|]. rewrite app_cons. by f_equal. Qed.

Lemma app_assoc_s (s t u : string) : (s +:+ t) +:+ u = s +:+ t +:+ u.
Proof. induction s as [|a s IH]; [reflexivity|]. rewrite !app_cons. by f_equal. Qed.

Lemma len_app (s t : string) : len (s +:+ t) = (len s + len t)%nat.
Proof. induction s as [|a s IH]; [reflexivity|]. rewrite app_cons. simpl. by f_equal. Qed.

Lemma len_zero (s : string) : len s = 0%nat -> s = "".
Proof. by destruct s. Qed.

Lemma take_drop_s (n : nat) (s : string) : string_take n s +:+ string_drop n s = s.
Proof.
  revert s. induction n as [|n IH]; intros [|a s]; try reflexivity.
  simpl. rewrite app_cons. by f_equal.
Qed.

Lemma drop_app_len (a b : string) : string_drop (len a) (a +:+ b) = b.
Proof. induction a as [|c a IH]; [by destruct b|]. exact IH. Qed.

Lemma take_app_len (a b : string) : string_take (len a) (a +:+ b) = a.
Proof.
  induction a as [|c a IH]; [by destruct b|].
  rewrite app_cons. simpl. by f_equal.
Qed.

Lemma drop_add (n m : nat) (s : string) :
  string_drop (n + m) s = string_drop m (string_drop n s).
Proof.
  revert s. induction n as [|n IH]; intros s; [reflexivity|].
  destruct s as [|a s]; simpl; [by destruct m|]. apply IH.
Qed.

Lemma drop_all (n : nat) (s : string) : (len s <= n)%nat -> string_drop n s = "".
Proof.
  revert s. induction n as [|n IH]; intros [|a s] H; simpl in *; try done; try lia.
  apply IH. lia.
Qed.

Lemma take_all (n : nat) (s : string) : (len s <= n)%nat -> string_take n s = s.
Proof.
  revert s. induction n as [|n IH]; intros [|a s] H; simpl in *; try done; try lia.
  f_equal. apply IH. lia.
Qed.

Lemma len_take (n : nat) (s : string) : len (string_take n s) = Nat.min n (len s).
Proof.
  revert s. induction n as [|n IH]; intros [|a s]; simpl; try done.
  by rewrite IH.
Qed.

Lemma len_drop (n : nat) (s : string) : len (string_drop n s) = (len s - n)%nat.
Proof.
  revert s. induction n as [|n IH]; intros [|a s]; simpl; done.
Qed.

Lemma take_add (n m : nat) (s : string) :
  string_take (n + m) s = string_take n s +:+ string_take m (string_drop n s).
Proof.
  revert s. induction n as [|n IH]; intros s; [reflexivity|].
  destruct s as [|a s]; simpl; [by destruct m|].
  rewrite app_cons. f_equal. apply IH.
Qed.

Lemma app_inv_len (a b a' b' : string) :
  a +:+ b = a' +:+ b' -> len a = len a' -> a = a' /\ b = b'.
Proof.
  revert a'. induction a as [|c a IH]; intros [|c' a'] H Hl; simpl in *; try done.
  rewrite !app_cons in H. injection H as -> H.
  destruct (IH a' H) as [-> ->]; [lia|done].
Qed.

Lemma slice_zero (s : string) (hi : nat) : slice s 0 hi = string_take hi s.
Proof. unfold slice. simpl. by rewrite Nat.sub_0_r. Qed.

(** Extending a slice by the bytes that follow it. *)
Lemma slice_extend (s : string) (lo mid hi : nat) :
  (lo <= mid)%nat -> (mid <= hi)%nat ->
  slice s lo hi = slice s lo mid +:+ slice s mid hi.
Proof.
  intros H1 H2. unfold slice.
  replace (hi - lo)%nat with ((mid - lo) + (hi - mid))%nat by lia.
  rewrite take_add. f_equal. f_equal.
  rewrite <-drop_add. f_equal. lia.
Qed.

Lemma slice_of_drop (s t : string) (lo : nat) :
  string_drop lo s = t ->
  forall k, slice s lo (lo + k) = string_take k t.
Proof. intros <- k. unfold slice. f_equal. lia. Qed.

End StringFacts.

(** ** Occurrences of a separator, [Index] and [Count] *)

Section Occurrences.

Lemma HasPrefix_true (s p : string) :
  strings.HasPrefix s p = true <-> exists r, s = p +:+ r.
Proof.
  unfold strings.HasPrefix. rewrite andb_true_iff, Nat.leb_le, String.eqb_eq, slice_zero.
  split.
  - intros [_ H]. exists (string_drop (len p) s).
    rewrite <-H at 1. by rewrite take_drop_s.
  - intros [r ->]. rewrite len_app, take_app_len. split; [lia|done].
Qed.

Lemma prefix_true (p s : string) :
  String.prefix p s = true <-> exists r, s = p +:+ r.
Proof.
  revert s. induction p as [|a p IH]; intros s; simpl.
  - destruct s; split; eauto.
  - destruct s as [|b s]; simpl; [split; [done|by intros [r Hr]]|].
    destruct (ascii_dec a b) as [->|Hne].
    + rewrite IH. split; intros [r Hr]; exists r.
      * rewrite app_cons. by f_equal.
      * rewrite app_cons in Hr. by injection Hr.
    + split; [done|]. intros [r Hr]. rewrite app_cons in Hr. by injection Hr as ->.
Qed.

Lemma occurs_at_zero (sep s : string) :
  occurs_at sep s 0 <-> exists r, s = sep +:+ r.
Proof.
  split.
  - intros (a & b & -> & Ha). apply len_zero in Ha as ->. by exists b.
  - intros [r ->]. by exists "", r.
Qed.

Lemma occurs_at_succ (sep : string) c (s : string) (i : nat) :
  occurs_at sep (String c s) (S i) <-> occurs_at sep s i.
Proof.
  split.
  - intros (a & b & H & Ha). destruct a as [|c' a]; [done|].
    rewrite app_cons in H. injection H as -> ->. exists a, b. split; [done|].
    simpl in Ha. lia.
  - intros (a & b & -> & Ha). exists (String c a), b. split; [done|]. simpl. lia.
Qed.

Lemma occurs_at_bound (sep s : string) (i : nat) :
  occurs_at sep s i -> (i + len sep <= len s)%nat.
Proof. intros (a & b & -> & <-). rewrite !len_app. lia. Qed.

(** An occurrence in [a ++ s] that starts at or after [len a] is an
    occurrence in [s]. *)
Lemma occurs_at_app (sep a s : string) (i : nat) :
  occurs_at sep (a +:+ s) (len a + i) <-> occurs_at sep s i.
Proof.
  induction a as [|c a IH]; [done|].
  rewrite app_cons. simpl. by rewrite occurs_at_succ.
Qed.

(** What [Index] returns: -1 when there is no occurrence, and otherwise
    the offset of the first one. *)
Lemma Index_spec (sep s : string) :
  (strings.Index s sep = -1 /\ forall i, ~ occurs_at sep s i) \/
  (exists a b, strings.Index s sep = Z.of_nat (len a) /\ s = a +:+ sep +:+ b /\
     forall i, (i < len a)%nat -> ~ occurs_at sep s i).
Proof.
  induction s as [|c s IH]; simpl.
  - destruct (strings.HasPrefix "" sep) eqn:E.
    + right. apply HasPrefix_true in E as [r Hr]. exists "", r.
      repeat split; [done|]. intros i Hi. simpl in Hi. lia.
    + left. split; [done|]. intros i Hi.
      pose proof (occurs_at_bound _ _ _ Hi) as Hb. simpl in Hb.
      assert (i = 0%nat) as -> by lia.
      apply occurs_at_zero, HasPrefix_true in Hi. congruence.
  - destruct (strings.HasPrefix (String c s) sep) eqn:E.
    + right. apply HasPrefix_true in E as [r Hr]. exists "", r.
      repeat split; [done|]. intros i Hi. simpl in Hi. lia.
    + destruct IH as [[-> Hno]|(a & b & -> & -> & Hfirst)].
      * left. split; [done|]. intros [|i] Hi.
        -- apply occurs_at_zero, HasPrefix_true in Hi. congruence.
        -- apply occurs_at_succ in Hi. by apply (Hno i).
      * right. exists (String c a), b.
        destruct (Z.ltb_spec (Z.of_nat (len a)) 0) as [Hlt|Hlt]; [lia|].
        split; [simpl; lia|]. split; [done|].
        intros [|i] Hi Ho.
        -- apply occurs_at_zero, HasPrefix_true in Ho. congruence.
        -- apply occurs_at_succ in Ho.
           apply (Hfirst i); [simpl in Hi; lia|done].
Qed.

Lemma Index_none (sep s : string) :
  strings.Index s sep < 0 ->
  strings.Index s sep = -1 /\ forall i, ~ occurs_at sep s i.
Proof.
  intros H. destruct (Index_spec sep s) as [?|(a & b & E & _)]; [done|lia].
Qed.

Lemma Index_found (sep s : string) :
  0 <= strings.Index s sep ->
  exists a b, strings.Index s sep = Z.of_nat (len a) /\ s = a +:+ sep +:+ b /\
    forall i, (i < len a)%nat -> ~ occurs_at sep s i.
Proof.
  intros H. destruct (Index_spec sep s) as [[E _]|?]; [lia|done].
Qed.

End Occurrences.

(** ** Counting occurrences: [Count] against the left-to-right count *)

Section Counting.

Lemma count_from_skip (sep x s : string) (k : nat) :
  count_from (len x + k) sep (x +:+ s) = count_from k sep s.
Proof. induction x as [|c x IH]; [done|]. rewrite app_cons. simpl. exact IH. Qed.

Lemma count_at_head (sep b : string) :
  sep <> "" -> count_from 0 sep (sep +:+ b) = S (count_from 0 sep b).
Proof.
  intros Hsep. destruct sep as [|c sep']; [done|].
  rewrite app_cons. cbn [count_from].
  assert (String.prefix (String c sep') (String c (sep' +:+ b)) = true) as ->.
  { apply prefix_true. by exists b. }
  f_equal. cbn [String.length].
  replace (S (len sep') - 1)%nat with (len sep' + 0)%nat by lia.
  apply count_from_skip.
Qed.

Lemma count_from_le (sep s : string) : forall k, (count_from k sep s <= len s)%nat.
Proof.
  induction s as [|c s IH]; intros k; cbn [count_from String.length]; [lia|].
  destruct k as [|k].
  - destruct (String.prefix sep (String c s)).
    + specialize (IH (len sep - 1)%nat). lia.
    + specialize (IH 0%nat). lia.
  - specialize (IH k). lia.
Qed.

Lemma count_none (sep s : string) :
  (forall i, ~ occurs_at sep s i) -> count_from 0 sep s = 0%nat.
Proof.
  induction s as [|c s IH]; intros Hno; cbn [count_from]; [done|].
  destruct (String.prefix sep (String c s)) eqn:E.
  - apply prefix_true in E. exfalso. apply (Hno 0%nat). by apply occurs_at_zero.
  - apply IH. intros i Hi. apply (Hno (S i)). by apply occurs_at_succ.
Qed.

Lemma count_first (sep a b : string) :
  sep <> "" ->
  (forall i, (i < len a)%nat -> ~ occurs_at sep (a +:+ sep +:+ b) i) ->
  count_from 0 sep (a +:+ sep +:+ b) = S (count_from 0 sep b).
Proof.
  intros Hsep. induction a as [|c a IH]; intros Hfirst.
  - rewrite app_empty_l. by apply count_at_head.
  - rewrite app_cons. cbn [count_from].
    destruct (String.prefix sep (String c (a +:+ sep +:+ b))) eqn:E.
    + apply prefix_true in E. exfalso. apply (Hfirst 0%nat); [simpl; lia|].
      rewrite app_cons. by apply occurs_at_zero.
    + apply IH. intros i Hi Ho. apply (Hfirst (S i)); [simpl; lia|].
      rewrite app_cons. by apply occurs_at_succ.
Qed.

Lemma count_found (sep s : string) :
  sep <> "" -> 0 <= strings.Index s sep -> (1 <= count_from 0 sep s)%nat.
Proof.
  intros Hsep H. destruct (Index_found _ _ H) as (a & b & _ & -> & Hfirst).
  rewrite count_first by done. lia.
Qed.

Lemma drop_past_occurrence (sep a b : string) :
  string_drop (len a + len sep) (a +:+ sep +:+ b) = b.
Proof. by rewrite drop_add, !drop_app_len. Qed.

(** The loop of [Count] adds the left-to-right count to its counter,
    given fuel for more steps than [s] has bytes. *)
Lemma Count_loop_spec (sep : string) (fuel : nat) :
  sep <> "" ->
  forall n s, (len s < fuel)%nat ->
    strings.Count_loop fuel n s sep = (n + count_from 0 sep s)%nat.
Proof.
  intros Hsep. induction fuel as [|fuel IH]; intros n s Hlen; [lia|].
  cbn [strings.Count_loop].
  destruct (Index_spec sep s) as [[-> Hno]|(a & b & -> & -> & Hfirst)].
  - simpl. rewrite count_none by done. lia.
  - destruct (Z.eqb_spec (Z.of_nat (len a)) (-1)) as [?|_]; [lia|].
    rewrite Nat2Z.id, drop_past_occurrence, count_first by done.
    rewrite IH; [lia|].
    rewrite !len_app in Hlen. destruct sep; [done|]. simpl in Hlen. lia.
Qed.

Lemma CountString_spec (c : ascii) (s : string) :
  strings.CountString s c = count_from 0 (String c "") s.
Proof.
  induction s as [|a s IH]; [done|].
  cbn [strings.CountString count_from].
  destruct (Ascii.eqb_spec a c) as [->|Hne].
  - assert (String.prefix (String c "") (String c s) = true) as ->.
    { apply prefix_true. by exists s. }
    cbn [String.length Nat.sub]. by rewrite IH.
  - assert (String.prefix (String c "") (String a s) = false) as ->.
    { apply not_true_is_false. intros [r Hr]%prefix_true.
      rewrite app_cons in Hr. by injection Hr as ->. }
    by rewrite IH.
Qed.

(** [Count] is the left-to-right count of non-overlapping occurrences. *)
Lemma Count_spec (sep s : string) :
  sep <> "" -> strings.Count s sep = count_occurrences sep s.
Proof.
  intros Hsep. unfold strings.Count, count_occurrences.
  destruct sep as [|c [|c' sep']]; [done| |].
  - apply CountString_spec.
  - by rewrite Count_loop_spec by (done || lia).
Qed.

End Counting.

(** ** [Split] cuts at the leftmost non-overlapping occurrences *)

Section Splitting.

(** The loop of [genSplit], allowed at least as many cuts as there are
    occurrences to count, cuts at every one of them. *)
Lemma genSplit_loop_spec (sep : string) (k : nat) :
  sep <> "" ->
  forall s, (count_from 0 sep s <= k)%nat ->
    split_at sep s (strings.genSplit_loop k s sep 0).
Proof.
  intros Hsep. induction k as [|k IH]; intros s Hk; cbn [strings.genSplit_loop].
  - apply split_at_last.
    destruct (Index_spec sep s) as [[_ Hno]|(a & b & E & _ & _)]; [done|].
    pose proof (count_found sep s Hsep) as Hc. lia.
  - destruct (Index_spec sep s) as [[-> Hno]|(a & b & -> & -> & Hfirst)].
    + by apply split_at_last.
    + destruct (Z.ltb_spec (Z.of_nat (len a)) 0) as [?|_]; [lia|].
      rewrite Nat2Z.id, Nat.add_0_r, slice_zero, take_app_len, drop_past_occurrence.
      apply split_at_cons; [done|]. apply IH.
      rewrite count_first in Hk by done. lia.
Qed.

Lemma Split_spec (sep s : string) :
  sep <> "" -> split_at sep s (strings.Split s sep).
Proof.
  intros Hsep. unfold strings.Split, strings.genSplit.
  destruct (String.eqb_spec sep "") as [?|_]; [done|]. cbn [Z.eqb Z.ltb Z.compare].
  pose proof (count_from_le sep s 0) as Hle.
  rewrite Count_spec by done. unfold count_occurrences.
  destruct (Z.ltb_spec (Z.of_nat (len s) + 1) (Z.of_nat (count_from 0 sep s) + 1));
    [lia|].
  apply genSplit_loop_spec; [done|]. lia.
Qed.

Lemma split_at_length (sep s : string) (fs : list string) :
  sep <> "" -> split_at sep s fs -> length fs = S (count_occurrences sep s).
Proof.
  intros Hsep. unfold count_occurrences.
  induction 1 as [s Hno|f rest fs Hfirst _ IH]; simpl.
  - by rewrite count_none.
  - by rewrite count_first, IH.
Qed.

Lemma split_at_nonempty (sep s : string) (fs : list string) :
  split_at sep s fs -> fs <> [].
Proof. by destruct 1. Qed.

(** Joining the fields with the separator gives the record back. *)
Lemma split_at_join (sep s : string) (fs : list string) :
  split_at sep s fs -> Join fs sep = s.
Proof.
  induction 1 as [s Hno|f rest fs Hfirst Hrest IH]; [done|].
  cbn [Join]. destruct fs as [|f' fs']; [by apply split_at_nonempty in Hrest|].
  by rewrite IH.
Qed.

(** The cut is determined by the record and the separator. *)
Lemma split_at_unique (sep s : string) (fs fs' : list string) :
  split_at sep s fs -> split_at sep s fs' -> fs = fs'.
Proof.
  intros H. revert fs'.
  induction H as [s Hno|f rest fs Hfirst Hrest IH]; intros fs' H'.
  - inversion H' as [|f' rest' fs'' Hfirst' Hrest' E]; subst; [done|].
    exfalso. apply (Hno (len f')). by exists f', rest'.
  - inversion H' as [s' Hno' E|f' rest' fs'' Hfirst' Hrest' E]; subst.
    + exfalso. apply (Hno' (len f)). by exists f, rest.
    + assert (len f = len f') as Hlen.
      { destruct (Nat.lt_total (len f) (len f')) as [Hlt|[?|Hlt]]; [|done|].
        - exfalso. apply (Hfirst' _ Hlt). rewrite E. by exists f, rest.
        - exfalso. apply (Hfirst _ Hlt). rewrite <-E. by exists f', rest'. }
      symmetry in E. destruct (app_inv_len _ _ _ _ E Hlen) as [-> E2].
      apply (inj (String.app sep)) in E2 as ->.
      f_equal. by apply IH.
Qed.

(** No field holds an occurrence of the separator. *)
Lemma split_at_fields_free (sep s : string) (fs : list string) :
  sep <> "" -> split_at sep s fs ->
  Forall (fun f => forall i, ~ occurs_at sep f i) fs.
Proof.
  intros Hsep. induction 1 as [s Hno|f rest fs Hfirst _ IH].
  - by constructor.
  - constructor; [|done]. intros i Hi.
    pose proof (occurs_at_bound _ _ _ Hi) as Hb.
    apply (Hfirst i); [destruct sep; [done|simpl in Hb; lia]|].
    destruct Hi as (a & b & -> & <-). exists a, (b +:+ sep +:+ rest).
    by rewrite !app_assoc_s.
Qed.

(** A field that is followed at once by two separators is followed by an
    empty field. *)
Lemma split_at_adjacent (sep x y : string) (fs : list string) :
  (forall i, (i < len x)%nat -> ~ occurs_at sep (x +:+ sep) i) ->
  split_at sep y fs ->
  split_at sep (x +:+ sep +:+ sep +:+ y) (x :: "" :: fs).
Proof.
  intros Hx Hy. apply split_at_cons.
  - intros i Hi Ho. apply (Hx i Hi).
    pose proof Ho as (a & b & E & Ha).
    assert (len (a +:+ sep) <= len (x +:+ sep))%nat as Hle by (rewrite !len_app; lia).
    rewrite <-(app_assoc_s x sep), <-(app_assoc_s a sep) in E.
    exists a, (string_drop (len (a +:+ sep)) (x +:+ sep)). split; [|done].
    rewrite <-app_assoc_s.
    rewrite <-(take_drop_s (len (a +:+ sep)) (x +:+ sep)) in E at 1.
    rewrite app_assoc_s in E.
    apply app_inv_len in E as [E _]; [|rewrite len_take; lia].
    rewrite <-E at 1. by rewrite take_drop_s.
  - apply (split_at_cons sep "" y fs); [|done]. intros i Hi. simpl in Hi. lia.
Qed.

End Splitting.

(** ** The left-to-right count is the largest number of occurrences that
       do not overlap *)

Section Maximality.

Lemma non_overlapping_shift (sep x b : string) (ps : list nat) :
  forall from, (len x <= from)%nat ->
    non_overlapping sep (x +:+ b) from ps ->
    non_overlapping sep b (from - len x) (map (fun q => (q - len x)%nat) ps).
Proof.
  induction ps as [|p ps IH]; intros from Hfrom; [done|].
  intros (Hp & Ho & Hrest). cbn [map non_overlapping]. split; [lia|]. split.
  - apply (occurs_at_app sep x). by replace (len x + (p - len x))%nat with p by lia.
  - replace (p - len x + len sep)%nat with (p + len sep - len x)%nat by lia.
    apply IH; [lia|done].
Qed.

Lemma non_overlapping_unshift (sep x b : string) (ps : list nat) :
  forall from,
    non_overlapping sep b from ps ->
    non_overlapping sep (x +:+ b) (len x + from) (map (fun q => (len x + q)%nat) ps).
Proof.
  induction ps as [|p ps IH]; intros from; [done|].
  intros (Hp & Ho & Hrest). cbn [map non_overlapping]. split; [lia|]. split.
  - by apply occurs_at_app.
  - rewrite <-Nat.add_assoc. by apply IH.
Qed.

Lemma non_overlapping_weaken (sep s : string) (ps : list nat) (from from' : nat) :
  (from' <= from)%nat -> non_overlapping sep s from ps -> non_overlapping sep s from' ps.
Proof. destruct ps as [|p ps]; [done|]. intros ? (? & ? & ?). repeat split; [lia|done..]. Qed.

Lemma count_maximal_aux (sep : string) (n : nat) :
  sep <> "" ->
  forall s ps from, (len s <= n)%nat ->
    non_overlapping sep s from ps -> (length ps <= count_from 0 sep s)%nat.
Proof.
  intros Hsep. induction n as [|n IH]; intros s ps from Hn Hps.
  - destruct ps as [|p ps]; [simpl; lia|]. destruct Hps as (_ & Ho & _).
    apply occurs_at_bound in Ho. destruct sep; [done|]. simpl in Ho. lia.
  - destruct ps as [|p ps]; [simpl; lia|]. destruct Hps as (_ & Ho & Hrest).
    destruct (Index_spec sep s) as [[_ Hno]|(a & b & _ & -> & Hfirst)].
    + by destruct (Hno p).
    + rewrite count_first by done. cbn [length]. apply le_n_S.
      assert (len a <= p)%nat as Hap.
      { destruct (Nat.le_gt_cases (len a) p); [done|]. by destruct (Hfirst p). }
      rewrite <-app_assoc_s in Hrest.
      apply non_overlapping_shift in Hrest; [|rewrite len_app; lia].
      rewrite <-(length_map (fun q => (q - len (a +:+ sep))%nat)).
      eapply IH; [|exact Hrest].
      rewrite !len_app in Hn. destruct sep; [done|]. simpl in Hn. lia.
Qed.

(** No family of non-overlapping occurrences is larger than the count. *)
Lemma count_maximal (sep s : string) (ps : list nat) :
  sep <> "" -> non_overlapping sep s 0 ps ->
  (length ps <= count_occurrences sep s)%nat.
Proof. intros Hsep. by apply (count_maximal_aux sep (len s)). Qed.

Lemma count_attained_aux (sep : string) (n : nat) :
  sep <> "" ->
  forall s, (len s <= n)%nat ->
    exists ps, non_overlapping sep s 0 ps /\ length ps = count_from 0 sep s.
Proof.
  intros Hsep. induction n as [|n IH]; intros s Hn.
  - apply Nat.le_0_r, len_zero in Hn as ->. by exists [].
  - destruct (Index_spec sep s) as [[_ Hno]|(a & b & _ & -> & Hfirst)].
    + exists []. by rewrite count_none.
    + destruct (IH b) as (ps & Hps & Hlen).
      { rewrite !len_app in Hn. destruct sep; [done|]. simpl in Hn. lia. }
      exists (len a :: map (fun q => (len (a +:+ sep) + q)%nat) ps).
      rewrite count_first by done. cbn [length]. rewrite length_map, Hlen.
      split; [|done]. split; [lia|]. split; [by exists a, b|].
      rewrite <-app_assoc_s.
      replace (len a + len sep)%nat with (len (a +:+ sep) + 0)%nat
        by (rewrite len_app; lia).
      by apply non_overlapping_unshift.
Qed.

(** Some family of non-overlapping occurrences has exactly that size. *)
Lemma count_attained (sep s : string) :
  sep <> "" ->
  exists ps, non_overlapping sep s 0 ps /\ length ps = count_occurrences sep s.
Proof. intros Hsep. by apply (count_attained_aux sep (len s)). Qed.

End Maximality.

(** ** Decoding: every step of [range] consumes between one byte and
       what is left *)

Section Decoding.

Lemma first_size (b : Z) :
  (utf8.as_ <=? utf8.first b) = false -> 2 <= Z.land (utf8.first b) 7 <= 4.
Proof.
  unfold utf8.first.
  repeat match goal with |- context [if ?c then _ else _] => destruct c end;
    vm_compute; intros H; (discriminate H || (split; discriminate)).
Qed.

Lemma Decode_size (s : string) :
  s <> "" ->
  (1 <= (utf8.DecodeRuneInString s).2 <= len s)%nat.
Proof.
  intros Hs. destruct s as [|c s]; [done|]. clear Hs.
  unfold utf8.DecodeRuneInString.
  set (n := Z.of_nat (len (String c s))).
  assert (1 <= n) as Hn by (subst n; simpl; lia).
  assert (forall k : nat, Z.of_nat k <= n -> (k <= len (String c s))%nat) as Hk
    by (subst n; intros; lia).
  destruct (Z.ltb_spec n 1) as [?|_]; [lia|].
  destruct (utf8.as_ <=? utf8.first (byteAt (String c s) 0)) eqn:E1.
  { split; [done|]. by apply Hk. }
  apply first_size in E1.
  set (sz := Z.land (utf8.first (byteAt (String c s) 0)) 7) in *.
  repeat match goal with
    | |- context [if Z.ltb ?a ?b then _ else _] => destruct (Z.ltb_spec a b)
    | |- context [if Z.leb ?a ?b then _ else _] => destruct (Z.leb_spec a b)
    | |- context [if ?c then _ else _] => destruct c
    end; cbn [snd]; (split; [lia|]); apply Hk; lia.
Qed.

Lemma bytes_of_app (cs cs' : list (Z * string)) :
  bytes_of (cs ++ cs') = bytes_of cs +:+ bytes_of cs'.
Proof.
  induction cs as [|c cs IH]; [done|]. cbn [app bytes_of foldr].
  fold (bytes_of (cs ++ cs')). fold (bytes_of cs). by rewrite IH, app_assoc_s.
Qed.

(** The characters of a string put together are the string. *)
Lemma bytes_of_runes_from (fuel : nat) :
  forall s, (len s <= fuel)%nat -> bytes_of (runes_from fuel s) = s.
Proof.
  induction fuel as [|fuel IH]; intros s Hlen.
  - by apply Nat.le_0_r, len_zero in Hlen as ->.
  - destruct s as [|c s]; [done|]. cbn [runes_from].
    pose proof (Decode_size (String c s)) as Hsz.
    destruct (utf8.DecodeRuneInString (String c s)) as [r size].
    cbn [snd] in Hsz. cbn [bytes_of foldr snd]. fold (bytes_of (runes_from fuel (string_drop size (String c s)))).
    rewrite IH; [apply take_drop_s|]. rewrite len_drop.
    specialize (Hsz ltac:(done)). lia.
Qed.

Lemma bytes_of_runes (s : string) : bytes_of (runes s) = s.
Proof. by apply bytes_of_runes_from. Qed.

(** No character is empty. *)
Lemma runes_from_nonempty (fuel : nat) :
  forall s, Forall (fun c => snd c <> "") (runes_from fuel s).
Proof.
  induction fuel as [|fuel IH]; intros s; [by constructor|].
  destruct s as [|c s]; [by constructor|]. cbn [runes_from].
  pose proof (Decode_size (String c s) ltac:(done)) as Hsz.
  destruct (utf8.DecodeRuneInString (String c s)) as [r size].
  cbn [snd] in Hsz. constructor; [|apply IH].
  cbn [snd]. destruct size; [lia|done].
Qed.

(** The offsets at which [range] visits the characters [cs] of a string,
    the first of them at offset [off]. *)
Lemma range_from_runes (fuel : nat) :
  forall off s,
    range_from fuel off s = range_items off (runes_from fuel s).
Proof.
  induction fuel as [|fuel IH]; intros off s; [done|].
  destruct s as [|c s]; [done|]. cbn [range_from runes_from range_items].
  pose proof (Decode_size (String c s) ltac:(done)) as Hsz.
  destruct (utf8.DecodeRuneInString (String c s)) as [r size].
  cbn [snd fst range_items] in *. f_equal. rewrite IH. f_equal.
  rewrite len_take. lia.
Qed.

End Decoding.

(** ** [Fields] yields the tokens between runs of white space *)

Section WhiteSpace.

Lemma ws_tokens_space (c : Z * string) cs ts :
  is_space c -> ws_tokens cs ts -> ws_tokens (c :: cs) ts.
Proof.
  intros Hc H. destruct H as [ws Hws|ws t rest ts Hws Ht Hns Hend Hrest].
  - apply ws_tokens_end. by constructor.
  - apply (ws_tokens_cons (c :: ws)); try done. by constructor.
Qed.

Lemma ws_tokens_token (t cs : list (Z * string)) ts :
  t <> [] -> Forall not_space t -> token_end cs -> ws_tokens cs ts ->
  ws_tokens (t ++ cs) (t :: ts).
Proof. intros. by apply (ws_tokens_cons [] t cs ts). Qed.

(** The loop of [FieldsFunc], started in the middle of a string: [cur] are
    the characters of the field being read (none outside a field), [cs]
    the characters still to visit; the spans it adds are the tokens of
    [cur ++ cs]. *)
Lemma FieldsFunc_loop (s : string) (cs : list (Z * string)) :
  forall (off : nat) (start : Z) (spans : list (nat * nat)) (cur : list (Z * string)),
    (off <= len s)%nat ->
    string_drop off s = bytes_of cs ->
    (start < 0 /\ cur = []) \/
    (0 <= start /\ (Z.to_nat start <= off)%nat /\ cur <> [] /\
     Forall not_space cur /\ slice s (Z.to_nat start) off = bytes_of cur) ->
    exists ts,
      ws_tokens (cur ++ cs) ts /\
      map (fun span => slice s (fst span) (snd span))
          (strings.FieldsFunc_last s
             (fold_left (strings.FieldsFunc_step unicode.IsSpace)
                        (range_items off cs) (start, spans)))
      = map (fun span => slice s (fst span) (snd span)) spans ++ map bytes_of ts.
Proof.
  induction cs as [|[r b] cs IH]; intros off start spans cur Hoff Hdrop Hinv.
  - assert (off = len s) as ->.
    { apply (f_equal len) in Hdrop. rewrite len_drop in Hdrop. simpl in Hdrop. lia. }
    cbn [range_items fold_left strings.FieldsFunc_last].
    destruct Hinv as [[Hs ->]|(Hs & _ & Hcur & Hns & Hsl)].
    + exists []. destruct (Z.leb_spec 0 start); [lia|].
      split; [apply ws_tokens_end; constructor|]. by rewrite app_nil_r.
    + exists [cur]. destruct (Z.leb_spec 0 start); [|lia].
      split; [apply ws_tokens_token; try done; apply ws_tokens_end; constructor|].
      rewrite map_app. cbn [map fst snd]. by rewrite Hsl.
  - assert (string_drop (off + len b) s = bytes_of cs) as Hdrop'.
    { rewrite drop_add, Hdrop. apply drop_app_len. }
    assert (off + len b <= len s)%nat as Hoff'.
    { apply (f_equal len) in Hdrop. rewrite len_drop in Hdrop.
      change (bytes_of ((r, b) :: cs)) with (b +:+ bytes_of cs) in Hdrop.
      rewrite len_app in Hdrop. lia. }
    assert (slice s off (off + len b) = b) as Hb.
    { rewrite (slice_of_drop s _ off Hdrop).
      change (bytes_of ((r, b) :: cs)) with (b +:+ bytes_of cs). apply take_app_len. }
    cbn [range_items fold_left fst snd].
    unfold strings.FieldsFunc_step at 2.
    destruct (unicode.IsSpace r) eqn:Hr.
    + destruct Hinv as [[Hs ->]|(Hs & Hle & Hcur & Hns & Hsl)].
      * destruct (Z.leb_spec 0 start); [lia|].
        destruct (IH (off + len b)%nat start spans []) as (ts & Hts & E); [done|done|by left|].
        exists ts. split; [|done]. by apply ws_tokens_space.
      * destruct (Z.leb_spec 0 start); [|lia].
        destruct (IH (off + len b)%nat (Z.lnot start) (spans ++ [(Z.to_nat start, off)]) [])
          as (ts & Hts & E); [done|done|left; split; [unfold Z.lnot; lia|done]|].
        exists (cur :: ts). split.
        -- apply ws_tokens_token; [done|done|exact Hr|]. by apply ws_tokens_space.
        -- rewrite E, map_app. cbn [map fst snd]. by rewrite Hsl, <-app_assoc.
    + destruct Hinv as [[Hs ->]|(Hs & Hle & Hcur & Hns & Hsl)].
      * destruct (Z.ltb_spec start 0); [|lia].
        destruct (IH (off + len b)%nat (Z.of_nat off) spans [(r, b)]) as (ts & Hts & E);
          [done|done| |by exists ts].
        right. rewrite Nat2Z.id. repeat split; [lia|lia|done|by repeat constructor|].
        rewrite Hb. cbn. by rewrite app_empty_r.
      * destruct (Z.ltb_spec start 0); [lia|].
        destruct (IH (off + len b)%nat start spans (cur ++ [(r, b)])) as (ts & Hts & E);
          [done|done| |].
        { right. repeat split; [done|lia|by destruct cur| |].
          - apply Forall_app. split; [done|]. by repeat constructor.
          - rewrite (slice_extend s _ off) by lia.
            rewrite Hsl, Hb, bytes_of_app. cbn. by rewrite app_empty_r. }
        exists ts. split; [|done]. by rewrite <-app_assoc in Hts.
Qed.

(** [FieldsFunc] with [unicode.IsSpace] returns the bytes of the tokens
    of the string's characters. *)
Lemma Fields_spec (s : string) :
  exists ts, ws_tokens (runes s) ts /\ strings.Fields s = map bytes_of ts.
Proof.
  unfold strings.Fields, strings.FieldsFunc, range_string.
  rewrite range_from_runes. fold (runes s).
  destruct (FieldsFunc_loop s (runes s) 0 (-1) [] []) as (ts & Hts & E).
  - lia.
  - by rewrite bytes_of_runes.
  - left. split; [lia|done].
  - by exists ts.
Qed.

End WhiteSpace.

(** ** The tokens of a sequence of characters are determined *)

Section TokensUnique.

(** A run of elements satisfying [P] that stops at the end or before an
    element satisfying [Q] is determined, when [P] and [Q] exclude each
    other. *)
Lemma run_unique {A} (P Q : A -> Prop) (l1 r1 l2 r2 : list A) :
  (forall x, P x -> Q x -> False) ->
  l1 ++ r1 = l2 ++ r2 ->
  Forall P l1 -> Forall P l2 ->
  match r1 with [] => True | x :: _ => Q x end ->
  match r2 with [] => True | x :: _ => Q x end ->
  l1 = l2 /\ r1 = r2.
Proof.
  intros HPQ. revert l2.
  induction l1 as [|x l1 IH]; intros [|y l2] E H1 H2 Hr1 Hr2; simpl in E.
  - done.
  - subst r1. inversion H2; subst. by destruct (HPQ y).
  - subst r2. inversion H1; subst. by destruct (HPQ x).
  - injection E as -> E. inversion H1; inversion H2; subst.
    destruct (IH l2 E) as [-> ->]; done.
Qed.

Lemma space_not_space (c : Z * string) : is_space c -> not_space c -> False.
Proof. unfold is_space, not_space. congruence. Qed.

Lemma token_starts (t rest : list (Z * string)) :
  t <> [] -> Forall not_space t ->
  match t ++ rest with [] => True | x :: _ => not_space x end.
Proof. destruct t as [|x t]; [done|]. intros _ H. by inversion H. Qed.

Lemma ws_tokens_unique (cs : list (Z * string)) ts ts' :
  ws_tokens cs ts -> ws_tokens cs ts' -> ts = ts'.
Proof.
  intros H. revert ts'.
  induction H as [ws Hws|ws t rest ts Hws Ht Hns Hend Hrest IH]; intros ts' H'.
  - inversion H' as [|ws' t' rest' ts'' Hws' Ht' Hns' Hend' Hrest' E]; subst; [done|].
    exfalso. apply Forall_app in Hws as [_ Hws]. apply Forall_app in Hws as [Hws _].
    destruct t' as [|x t']; [done|]. inversion Hws; inversion Hns'; subst.
    by apply (space_not_space x).
  - inversion H' as [ws' Hws' E|ws' t' rest' ts'' Hws' Ht' Hns' Hend' Hrest' E]; subst.
    + exfalso. apply Forall_app in Hws' as [_ Hws']. apply Forall_app in Hws' as [Hws' _].
      destruct t as [|x t]; [done|]. inversion Hws'; inversion Hns; subst.
      by apply (space_not_space x).
    + destruct (run_unique is_space not_space ws' (t' ++ rest') ws (t ++ rest))
        as [-> E2]; try done.
      * apply space_not_space.
      * by apply token_starts.
      * by apply token_starts.
      * destruct (run_unique not_space is_space t' rest' t rest) as [-> ->]; try done.
        -- intros x ? ?. by apply (space_not_space x).
        -- f_equal. by apply IH.
Qed.

(** No token at all exactly when every character is white space. *)
Lemma ws_tokens_none (cs : list (Z * string)) ts :
  ws_tokens cs ts -> (ts = [] <-> Forall is_space cs).
Proof.
  intros H. split.
  - intros ->. by inversion H.
  - intros Hall. destruct H as [|ws t rest ts Hws Ht Hns Hend Hrest]; [done|].
    exfalso. apply Forall_app in Hall as [_ Hall]. apply Forall_app in Hall as [Hall _].
    destruct t as [|x t]; [done|]. inversion Hall; inversion Hns; subst.
    by apply (space_not_space x).
Qed.

(** Tokens cut out of a string's characters are not empty strings. *)
Lemma ws_tokens_bytes_nonempty (cs : list (Z * string)) ts :
  Forall (fun c => snd c <> "") cs ->
  ws_tokens cs ts -> Forall (fun t => bytes_of t <> "") ts.
Proof.
  intros Hcs H. induction H as [|ws t rest ts Hws Ht Hns Hend Hrest IH]; [constructor|].
  apply Forall_app in Hcs as [_ Hcs]. apply Forall_app in Hcs as [Hct Hcr].
  constructor; [|by apply IH].
  destruct t as [|[r b] t]; [done|]. inversion Hct; subst.
  change (bytes_of ((r, b) :: t)) with (b +:+ bytes_of t).
  destruct b; [done|]. by rewrite app_cons.
Qed.

End TokensUnique.

(** ** The record update *)

Section RecordUpdate.

Lemma updateRecord_Fields (c : Context) (line : string) :
  Fields (updateRecord c line) = line :: splitLine (FS c) line.
Proof. reflexivity. Qed.

Lemma updateRecord_NF (c : Context) (line : string) :
  NF (updateRecord c line) = Z.of_nat (length (splitLine (FS c) line)).
Proof. reflexivity. Qed.

Lemma updateRecord_NR (c : Context) (line : string) :
  NR (updateRecord c line) = wrap64 (NR c + 1).
Proof. reflexivity. Qed.

Lemma updateRecord_rest (c : Context) (line : string) :
  FS (updateRecord c line) = FS c /\ OFS (updateRecord c line) = OFS c /\
  RS (updateRecord c line) = RS c /\ Variables (updateRecord c line) = Variables c.
Proof. done. Qed.

Lemma wrap64_small (z : Z) : - 2 ^ 63 <= z < 2 ^ 63 -> wrap64 z = z.
Proof. intros H. unfold wrap64. rewrite Z.mod_small; lia. Qed.

Lemma splitLine_whitespace (fs line : string) :
  fs = " " -> splitLine fs line = strings.Fields line.
Proof. by intros ->. Qed.

Lemma splitLine_literal_empty (fs : string) :
  fs <> " " -> splitLine fs "" = [].
Proof. intros H. unfold splitLine. by destruct (String.eqb_spec fs " "). Qed.

Lemma splitLine_literal (fs line : string) :
  fs <> " " -> line <> "" -> splitLine fs line = strings.Split line fs.
Proof.
  intros H1 H2. unfold splitLine.
  destruct (String.eqb_spec fs " "); [done|]. by destruct (String.eqb_spec line "").
Qed.

(** The separator a command made by [Awk] runs with is never empty: an
    empty [FieldSeparator] selects the white-space mode. *)
Lemma Awk_FS_nonempty {P} (prog : Program P) (fl : flags) :
  FS (initContext (inputs_Flags (Awk prog fl))) <> "".
Proof.
  unfold Awk. cbn [inputs_Flags].
  destruct (String.eqb_spec (FieldSeparator fl) "") as [E|E];
    cbn [FieldSeparator OutputFieldSeparator];
    destruct (String.eqb (OutputFieldSeparator fl) ""); cbn; done.
Qed.

Lemma Split_empty_record (sep : string) : sep <> "" -> strings.Split "" sep = [""].
Proof.
  intros Hsep. pose proof (Split_spec sep "" Hsep) as H.
  inversion H as [s Hno E|f rest fs Hfirst Hrest E]; [done|].
  exfalso. destruct f; [|done]. rewrite app_empty_l in E. by destruct sep.
Qed.

End RecordUpdate.

(** ** Claims about the split of one record *)

(** C1. Under a literal separator (any [FS] other than the white-space
    sentinel) the update for the empty record leaves [NF = 0] and only
    [$0] in [Fields], although [strings.Split] of the empty string by a
    non-empty separator has one (empty) element. *)
Theorem C1_empty_record_has_no_fields (c : Context) :
  FS c <> " " ->
  NF (updateRecord c "") = 0 /\
  Fields (updateRecord c "") = [""] /\
  (FS c <> "" -> strings.Split "" (FS c) = [""] /\
                 length (strings.Split "" (FS c)) = 1%nat).
Proof.
  intros Hfs. rewrite updateRecord_NF, updateRecord_Fields.
  rewrite splitLine_literal_empty by done.
  split; [done|]. split; [done|].
  intros Hne. by rewrite Split_empty_record.
Qed.

Lemma C1_witness :
  NF (updateRecord (initContext (inputs_Flags (Awk SimpleProgram (mkFlags ":" "" None)))) "") = 0.
Proof.
  apply (C1_empty_record_has_no_fields
           (initContext (inputs_Flags (Awk SimpleProgram (mkFlags ":" "" None))))).
  vm_compute. discriminate.
Defined.

(** C2. With the white-space sentinel as separator, the update splits the
    record into its tokens: [Fields] is the record followed by the
    non-empty maximal runs of non-space characters ([ws_tokens], which
    determines them), white space at both ends and between tokens is
    dropped, [NF] is their number, and [NF] is 0
    exactly when every character of the record is white space, which
    includes the empty record. *)
Theorem C2_whitespace_split (c : Context) (s : string) :
  FS c = " " ->
  exists ts,
    ws_tokens (runes s) ts /\
    Fields (updateRecord c s) = s :: map bytes_of ts /\
    NF (updateRecord c s) = Z.of_nat (length ts) /\
    (forall ts', ws_tokens (runes s) ts' -> ts' = ts) /\
    Forall (fun f => f <> "") (map bytes_of ts) /\
    (Forall is_space (runes s) <-> NF (updateRecord c s) = 0) /\
    (Forall is_space (runes s) -> Fields (updateRecord c s) = [s]).
Proof.
  intros Hfs. destruct (Fields_spec s) as (ts & Hts & E). exists ts.
  rewrite updateRecord_NF, updateRecord_Fields, splitLine_whitespace, E by done.
  rewrite length_map. repeat split; try done.
  - intros ts' Hts'. by apply (ws_tokens_unique (runes s)).
  - apply Forall_map. eapply ws_tokens_bytes_nonempty; [|exact Hts].
    apply runes_from_nonempty.
  - intros Hall. by apply (ws_tokens_none _ _ Hts) in Hall as ->.
  - intros H0. apply (ws_tokens_none _ _ Hts). destruct ts; [done|simpl in H0; lia].
  - intros Hall. by apply (ws_tokens_none _ _ Hts) in Hall as ->.
Qed.

Lemma C2_witness :
  exists ts,
    ws_tokens (runes "  one two   three ") ts /\
    Fields (updateRecord (initContext (inputs_Flags (Awk SimpleProgram defaultFlags)))
                         "  one two   three ")
    = "  one two   three " :: map bytes_of ts.
Proof.
  destruct (C2_whitespace_split
              (initContext (inputs_Flags (Awk SimpleProgram defaultFlags)))
              "  one two   three " eq_refl) as (ts & H1 & H2 & _).
  exists ts. split; [exact H1|exact H2].
Defined.

(** C3. Under a literal separator (neither the white-space sentinel nor
    empty: [Awk] turns the empty separator into the sentinel) the update
    of a non-empty record cuts it at the leftmost non-overlapping
    occurrences of the separator ([split_at], which determines the
    fields): [NF] is the number of those occurrences plus one, that
    number being the largest size of a family of occurrences that do not
    overlap, and a field followed at once by two separators is followed
    by an empty field. *)
Theorem C3_literal_split (c : Context) (s : string) :
  FS c <> " " -> FS c <> "" -> s <> "" ->
  NF (updateRecord c s) = Z.of_nat (count_occurrences (FS c) s) + 1 /\
  (forall ps, non_overlapping (FS c) s 0 ps ->
              (length ps <= count_occurrences (FS c) s)%nat) /\
  (exists ps, non_overlapping (FS c) s 0 ps /\
              length ps = count_occurrences (FS c) s) /\
  exists fs,
    Fields (updateRecord c s) = s :: fs /\
    split_at (FS c) s fs /\
    (forall fs', split_at (FS c) s fs' -> fs' = fs) /\
    Join fs (FS c) = s /\
    NF (updateRecord c s) = Z.of_nat (length fs) /\
    (forall x y,
        s = x +:+ FS c +:+ FS c +:+ y ->
        (forall i, (i < len x)%nat -> ~ occurs_at (FS c) (x +:+ FS c) i) ->
        exists fs', fs = x :: "" :: fs').
Proof.
  intros Hws Hne Hs.
  rewrite updateRecord_NF, updateRecord_Fields, splitLine_literal by done.
  pose proof (Split_spec (FS c) s Hne) as Hsplit.
  rewrite (split_at_length _ _ _ Hne Hsplit). split; [lia|].
  split; [intros ps; by apply count_maximal|].
  split; [by apply count_attained|].
  exists (strings.Split s (FS c)). repeat split; try done.
  - intros fs' Hfs'. by apply (split_at_unique (FS c) s).
  - by apply split_at_join.
  - by rewrite (split_at_length _ _ _ Hne Hsplit).
  - intros x y -> Hx. exists (strings.Split y (FS c)).
    apply (split_at_unique (FS c) (x +:+ FS c +:+ FS c +:+ y)); [done|].
    apply split_at_adjacent; [done|]. by apply Split_spec.
Qed.

Lemma C3_witness :
  NF (updateRecord (initContext (inputs_Flags (Awk SimpleProgram (mkFlags "," "" None))))
                   "a,,b")
  = Z.of_nat (count_occurrences "," "a,,b") + 1.
Proof.
  apply (C3_literal_split
           (initContext (inputs_Flags (Awk SimpleProgram (mkFlags "," "" None)))) "a,,b");
    vm_compute; discriminate.
Defined.

(** ** [Field] and [SetField] *)

Section FieldAccess.

(** [Field] never panics. *)
Lemma Field_checked_total (c : Context) (i : Z) :
  Field_checked c i = Some (Field c i).
Proof.
  unfold Field, Field_checked, slice_get.
  destruct ((i <? 0) || (Z.of_nat (length (Fields c)) <=? i)) eqn:E; [done|].
  apply orb_false_iff in E as [E0%Z.ltb_ge E%Z.leb_gt].
  destruct (Fields c !! Z.to_nat i) eqn:El; [done|].
  apply lookup_ge_None in El. lia.
Qed.

Lemma Field_eq (c : Context) (i : Z) :
  Field c i
  = if (i <? 0) || (Z.of_nat (length (Fields c)) <=? i) then ""
    else default "" (Fields c !! Z.to_nat i).
Proof.
  unfold Field, Field_checked, slice_get.
  by destruct ((i <? 0) || (Z.of_nat (length (Fields c)) <=? i)).
Qed.

Lemma Field_in_range (c : Context) (i : Z) :
  0 <= i < Z.of_nat (length (Fields c)) ->
  Fields c !! Z.to_nat i = Some (Field c i).
Proof.
  intros H. rewrite Field_eq.
  destruct (Z.ltb_spec i 0); [lia|]. destruct (Z.leb_spec (Z.of_nat (length (Fields c))) i); [lia|].
  cbn [orb]. destruct (Fields c !! Z.to_nat i) eqn:E; [done|].
  apply lookup_ge_None in E. lia.
Qed.

Lemma Field_out_of_range (c : Context) (i : Z) :
  i < 0 \/ Z.of_nat (length (Fields c)) <= i -> Field c i = "".
Proof.
  intros H. rewrite Field_eq.
  destruct (Z.ltb_spec i 0); [done|]. destruct (Z.leb_spec (Z.of_nat (length (Fields c))) i); [done|lia].
Qed.

(** [Field] reads the list, with the empty string outside of it. *)
Lemma Field_lookup (c : Context) (i : Z) :
  0 <= i -> Field c i = default "" (Fields c !! Z.to_nat i).
Proof.
  intros H. destruct (Z.lt_ge_cases i (Z.of_nat (length (Fields c)))) as [Hlt|Hge].
  - by rewrite Field_in_range by lia.
  - rewrite Field_out_of_range by lia.
    by rewrite (proj2 (lookup_ge_None (Fields c) (Z.to_nat i))) by lia.
Qed.

(** The loop of [SetField] pads with empty strings up to index [index]. *)
Lemma expandFields_spec (index : Z) (fuel : nat) :
  0 <= index ->
  forall fields : list string,
    (Z.to_nat (index + 1) - length fields <= fuel)%nat ->
    expandFields fuel fields index
    = fields ++ replicate (Z.to_nat (index + 1) - length fields) "".
Proof.
  intros Hi. induction fuel as [|fuel IH]; intros fields Hfuel; cbn [expandFields].
  - replace (Z.to_nat (index + 1) - length fields)%nat with 0%nat by lia.
    by rewrite app_nil_r.
  - destruct (Z.leb_spec (Z.of_nat (length fields)) index) as [Hle|Hgt].
    + rewrite IH by (rewrite length_app; simpl; lia).
      rewrite length_app. cbn [length].
      replace (Z.to_nat (index + 1) - length fields)%nat
        with (S (Z.to_nat (index + 1) - (length fields + 1)))%nat by lia.
      by rewrite <-app_assoc.
    + replace (Z.to_nat (index + 1) - length fields)%nat with 0%nat by lia.
      by rewrite app_nil_r.
Qed.

(** When the loop of [SetField] is left, [index] is in range: the
    assignment that follows does not panic. *)
Lemma expandFields_in_range (c : Context) (i : Z) :
  0 <= i ->
  i < Z.of_nat (length (expandFields (Z.to_nat (i + 1)) (Fields c) i)).
Proof.
  intros Hi. rewrite expandFields_spec by (done || lia).
  rewrite length_app, length_replicate. lia.
Qed.

(** [SetField] never panics. *)
Lemma SetField_checked_total (c : Context) (i : Z) (v : string) :
  SetField_checked c i v = Some (SetField c i v).
Proof.
  unfold SetField, SetField_checked, slice_set.
  destruct (Z.ltb_spec i 0); [done|].
  pose proof (expandFields_in_range c i ltac:(done)) as Hr.
  destruct (Z.leb_spec (Z.of_nat (length (expandFields (Z.to_nat (i + 1)) (Fields c) i))) i);
    [lia|done].
Qed.

Lemma SetField_eq (c : Context) (i : Z) (v : string) :
  0 <= i ->
  SetField c i v
  = set_NF (set_Fields c (<[Z.to_nat i := v]>
                            (Fields c ++ replicate (Z.to_nat (i + 1) - length (Fields c)) "")))
           (Z.of_nat (length (<[Z.to_nat i := v]>
                                (Fields c ++ replicate (Z.to_nat (i + 1) - length (Fields c)) ""))) - 1).
Proof.
  intros Hi. unfold SetField, SetField_checked, slice_set.
  destruct (Z.ltb_spec i 0); [lia|].
  pose proof (expandFields_in_range c i Hi) as Hr.
  destruct (Z.leb_spec (Z.of_nat (length (expandFields (Z.to_nat (i + 1)) (Fields c) i))) i);
    [lia|].
  cbn [orb default]. by rewrite expandFields_spec by (done || lia).
Qed.

Lemma SetField_negative (c : Context) (i : Z) (v : string) :
  i < 0 -> SetField c i v = c.
Proof.
  intros Hi. unfold SetField, SetField_checked. by destruct (Z.ltb_spec i 0); [|lia].
Qed.

Lemma SetField_Fields (c : Context) (i : Z) (v : string) :
  0 <= i ->
  Fields (SetField c i v)
  = <[Z.to_nat i := v]>
      (Fields c ++ replicate (Z.to_nat (i + 1) - length (Fields c)) "").
Proof. intros Hi. by rewrite SetField_eq. Qed.

Lemma SetField_NF (c : Context) (i : Z) (v : string) :
  0 <= i -> NF (SetField c i v) = Z.of_nat (length (Fields (SetField c i v))) - 1.
Proof. intros Hi. by rewrite SetField_eq. Qed.

Lemma SetField_length (c : Context) (i : Z) (v : string) :
  0 <= i ->
  Z.of_nat (length (Fields (SetField c i v)))
  = Z.max (Z.of_nat (length (Fields c))) (i + 1).
Proof.
  intros Hi. rewrite SetField_Fields by done.
  rewrite length_insert, length_app, length_replicate. lia.
Qed.

End FieldAccess.

(** C5. [Field] returns for every context and every index, without a
    panic: outside [0 .. len(Fields) - 1] the empty string, inside the
    element, at index 0 the first element [$0] when there is one, which
    is the whole record in a context the engine has updated for a
    record. *)
Theorem C5_Field_total (c : Context) (i : Z) :
  Field_checked c i = Some (Field c i) /\
  (i < 0 \/ Z.of_nat (length (Fields c)) <= i -> Field c i = "") /\
  (0 <= i < Z.of_nat (length (Fields c)) ->
     Fields c !! Z.to_nat i = Some (Field c i)) /\
  (forall f0 rest, Fields c = f0 :: rest -> Field c 0 = f0) /\
  (forall line, Field (updateRecord c line) 0 = line).
Proof.
  split; [apply Field_checked_total|].
  split; [apply Field_out_of_range|]. split; [apply Field_in_range|].
  split; [|done]. intros f0 rest E. rewrite Field_lookup by done. by rewrite E.
Qed.

Lemma C5_witness :
  Field (updateRecord defaultContext "a b") (-1) = "" /\
  Field (updateRecord defaultContext "a b") 3 = "" /\
  Field (updateRecord defaultContext "a b") 0 = "a b".
Proof.
  split; [|split].
  - apply (proj1 (proj2 (C5_Field_total (updateRecord defaultContext "a b") (-1)))).
    left. lia.
  - apply (proj1 (proj2 (C5_Field_total (updateRecord defaultContext "a b") 3))).
    right. vm_compute. intros H. discriminate H.
  - apply (proj2 (proj2 (proj2 (proj2 (C5_Field_total defaultContext 0))))).
Defined.

(** C6. [SetField] returns for every context, index and value, without
    a panic.  With a negative index it leaves the context as it is.
    With an index [i >= 0] it pads [Fields] with empty strings up to and
    including index [i] if it is shorter, writes the value there, and
    sets [NF] to the new length minus one; the other fields and the rest
    of the context stay, so writing [$0] changes neither the other fields
    nor their number. *)
Theorem C6_SetField (c : Context) (i : Z) (v : string) :
  SetField_checked c i v = Some (SetField c i v) /\
  (i < 0 -> SetField c i v = c) /\
  (0 <= i ->
     Fields (SetField c i v)
     = <[Z.to_nat i := v]>
         (Fields c ++ replicate (Z.to_nat (i + 1) - length (Fields c)) "") /\
     Z.of_nat (length (Fields (SetField c i v)))
     = Z.max (Z.of_nat (length (Fields c))) (i + 1) /\
     Field (SetField c i v) i = v /\
     NF (SetField c i v) = Z.of_nat (length (Fields (SetField c i v))) - 1 /\
     (forall j, j <> i -> Field (SetField c i v) j = Field c j) /\
     NR (SetField c i v) = NR c /\ FS (SetField c i v) = FS c /\
     OFS (SetField c i v) = OFS c /\ RS (SetField c i v) = RS c /\
     Variables (SetField c i v) = Variables c) /\
  (forall f0 rest,
     Fields c = f0 :: rest ->
     Fields (SetField c 0 v) = v :: rest /\
     NF (SetField c 0 v) = Z.of_nat (length rest)).
Proof.
  split; [apply SetField_checked_total|]. split; [|split].
  - apply SetField_negative.
  - intros Hi. pose proof (SetField_length c i v Hi) as Hlen.
    pose proof (SetField_Fields c i v Hi) as HF.
    split; [done|]. split; [done|]. split; [|split; [by apply SetField_NF|split]].
    + rewrite Field_lookup, HF by done.
      rewrite list_lookup_insert_eq; [done|].
      rewrite length_app, length_replicate. lia.
    + intros j Hj. destruct (Z.lt_ge_cases j 0) as [Hneg|Hpos].
      { by rewrite !Field_out_of_range by lia. }
      rewrite !Field_lookup, HF by done.
      rewrite list_lookup_insert_ne by lia.
      destruct (Nat.lt_ge_cases (Z.to_nat j) (length (Fields c))) as [Hlt|Hge].
      * by rewrite lookup_app_l.
      * rewrite lookup_app_r by done.
        rewrite (proj2 (lookup_ge_None (Fields c) (Z.to_nat j))) by done.
        destruct (replicate _ _ !! _) eqn:E; [|done].
        by apply lookup_replicate in E as [-> _].
    + by rewrite SetField_eq.
  - intros f0 rest E. split.
    + rewrite SetField_Fields, E by lia. cbn [length].
      replace (Z.to_nat (0 + 1) - S (length rest))%nat with 0%nat by lia.
      cbn [replicate]. by rewrite app_nil_r.
    + rewrite SetField_NF, SetField_Fields, E by lia.
      rewrite length_insert, length_app, length_replicate. cbn [length]. lia.
Qed.

Lemma C6_witness :
  SetField (updateRecord defaultContext "a b") (-1) "x"
  = updateRecord defaultContext "a b" /\
  Field (SetField (updateRecord defaultContext "a b") 5 "x") 5 = "x" /\
  NF (SetField (updateRecord defaultContext "a b") 5 "x") = 5.
Proof.
  pose proof (C6_SetField (updateRecord defaultContext "a b") (-1) "x") as H1.
  pose proof (C6_SetField (updateRecord defaultContext "a b") 5 "x") as H2.
  split; [apply (proj1 (proj2 H1)); lia|].
  destruct (proj1 (proj2 (proj2 H2))) as (_ & Hl & Hf & Hn & _); [lia|].
  split; [exact Hf|]. rewrite Hn, Hl. vm_compute. reflexivity.
Defined.

(** ** Runs of the executor *)

Section Runs.
Context {P : Type} (prog : Program P).

(** The two ways through one iteration of the scanning loop. *)
Lemma processLine_cases (st : run_state P) (line : string) :
  let u := updateRecord (awkCtx st) line in
  (exists p1 c1,
      Condition prog (prog_state st) u = (p1, c1, false) /\
      processLine prog st line
      = mkRun p1 c1 (stdout st) (calls st ++ [CallCondition u c1 false])) \/
  (exists p1 c1 p2 c2 o emit,
      Condition prog (prog_state st) u = (p1, c1, true) /\
      Action prog p1 c1 = (p2, c2, (o, emit)) /\
      processLine prog st line
      = mkRun p2 c2 (stdout st +:+ written (CallAction c1 c2 o emit))
              (calls st ++ [CallCondition u c1 true; CallAction c1 c2 o emit])).
Proof.
  intros u. unfold processLine. fold u.
  destruct (Condition prog (prog_state st) u) as [[p1 c1] [|]]; cbn [negb].
  - right. destruct (Action prog p1 c1) as [[p2 c2] [o emit]] eqn:E.
    exists p1, c1, p2, c2, o, emit. split; [done|]. split; [done|].
    rewrite <-app_assoc. destruct emit; cbn [written]; [done|].
    by rewrite app_empty_r.
  - left. by exists p1, c1.
Qed.

Lemma scanLoop_snoc (st : run_state P) (ls : list string) (l : string) :
  scanLoop prog st (ls ++ [l]) = processLine prog (scanLoop prog st ls) l.
Proof. unfold scanLoop. by rewrite fold_left_app. Qed.

(** Induction over the lines consumed so far. *)
Lemma scanLoop_invariant (Inv : run_state P -> list string -> Prop) (st0 : run_state P) :
  Inv st0 [] ->
  (forall st ls l, Inv st ls -> Inv (processLine prog st l) (ls ++ [l])) ->
  forall ls, Inv (scanLoop prog st0 ls) ls.
Proof.
  intros H0 Hstep ls. induction ls as [|l ls IH] using rev_ind; [done|].
  rewrite scanLoop_snoc. by apply Hstep.
Qed.

End Runs.

Section Traces.

Lemma written_all_app (cs cs' : list call) :
  written_all (cs ++ cs') = written_all cs +:+ written_all cs'.
Proof.
  induction cs as [|e cs IH]; [done|]. cbn [app].
  change (written_all (e :: cs ++ cs')) with (written e +:+ written_all (cs ++ cs')).
  change (written_all (e :: cs)) with (written e +:+ written_all cs).
  by rewrite IH, app_assoc_s.
Qed.

Lemma last_out_snoc (c0 : Context) (cs : list call) (e : call) :
  last_out c0 (cs ++ [e]) = call_out e.
Proof. unfold last_out. by rewrite fold_left_app. Qed.

Lemma chained_app (c0 : Context) (cs cs' : list call) :
  chained c0 (cs ++ cs') <-> chained c0 cs /\ chained (last_out c0 cs) cs'.
Proof.
  revert c0. induction cs as [|e cs IH]; intros c0; [cbn; tauto|].
  cbn [app chained]. rewrite IH. unfold last_out. cbn [fold_left]. tauto.
Qed.

Lemma condition_inputs_app (cs cs' : list call) :
  condition_inputs (cs ++ cs') = condition_inputs cs ++ condition_inputs cs'.
Proof. apply omap_app. Qed.

Lemma action_inputs_app (cs cs' : list call) :
  action_inputs (cs ++ cs') = action_inputs cs ++ action_inputs cs'.
Proof. apply omap_app. Qed.

Lemma end_inputs_app (cs cs' : list call) :
  end_inputs (cs ++ cs') = end_inputs cs ++ end_inputs cs'.
Proof. apply omap_app. Qed.

Lemma begin_inputs_app (cs cs' : list call) :
  begin_inputs (cs ++ cs') = begin_inputs cs ++ begin_inputs cs'.
Proof. apply omap_app. Qed.

Lemma passed_outputs_app (cs cs' : list call) :
  passed_outputs (cs ++ cs') = passed_outputs cs ++ passed_outputs cs'.
Proof. apply omap_app. Qed.

Lemma passed_NR_app (cs cs' : list call) :
  passed_NR (cs ++ cs') = passed_NR cs ++ passed_NR cs'.
Proof. apply omap_app. Qed.

Lemma StronglySorted_snoc (l : list Z) (y : Z) :
  StronglySorted Z.le l -> Forall (fun x => x <= y) l -> StronglySorted Z.le (l ++ [y]).
Proof.
  induction 1 as [|x l Hs IH Hx]; intros Hy; cbn [app].
  - repeat constructor.
  - inversion Hy; subst. constructor; [by apply IH|].
    apply Forall_app. split; [done|]. by repeat constructor.
Qed.

Lemma holds_record_update (c : Context) (line : string) :
  holds_record (updateRecord c line) line.
Proof. done. Qed.

Lemma holds_record_length (c : Context) (line : string) :
  holds_record c line -> Z.of_nat (length (Fields c)) = NF c + 1.
Proof. intros [-> ->]. cbn [length]. lia. Qed.

Lemma copyVariables_spec (m : gmap string any) : copyVariables (Some m) = m.
Proof.
  cbn [copyVariables].
  apply (map_fold_weak_ind (fun (r : gmap string any) m => r = m)); [done|].
  by intros k v m' r _ ->.
Qed.

End Traces.

Section Executions.
Context {P : Type} (c : command P) (p : P) (stdin : Input) (out : string).

(** The three ways a run can end, with the run's state in each. *)
Lemma Executor_cases :
  let c0 := initContext (inputs_Flags c) in
  exists p1 c1 e0,
    Begin (program c) p c0 = (p1, c1, e0) /\
    match e0 with
    | Some e =>
        Executor c p stdin out
        = (mkRun p1 c1 out [CallBegin c0 c1 (Some e)], Some (Errorf_w "BEGIN: " e))
    | None =>
        let st := scanLoop (program c) (mkRun p1 c1 out [CallBegin c0 c1 None])
                           (lines stdin) in
        match scanner_Err stdin with
        | Some e => Executor c p stdin out = (st, Some e)
        | None =>
            exists p2 c2 o e2,
              End_ (program c) (prog_state st) (awkCtx st) = (p2, c2, (o, e2)) /\
              Executor c p stdin out
              = (mkRun p2 c2 (stdout st +:+ written (CallEnd (awkCtx st) c2 o e2))
                       (calls st ++ [CallEnd (awkCtx st) c2 o e2]),
                 Errorf_w "END: " <$> e2)
        end
    end.
Proof.
  intros c0. unfold Executor. fold c0.
  destruct (Begin (program c) p c0) as [[p1 c1] [e|]]; exists p1, c1.
  - by exists (Some e).
  - exists None. split; [done|]. cbn zeta.
    destruct (scanner_Err stdin) as [e|]; [done|].
    destruct (End_ _ _ _) as [[p2 c2] [o [e2|]]] eqn:E; exists p2, c2, o.
    + exists (Some e2). split; [done|]. cbn [written fmap option_fmap option_map].
      by rewrite app_empty_r.
    + exists None. split; [done|]. cbn [written fmap option_fmap option_map].
      destruct (String.eqb o ""); cbn [negb]; [by rewrite app_empty_r|done].
Qed.

End Executions.

(** ** What the scanning loop leaves unchanged or adds *)

Section LoopFacts.
Context {P : Type} (prog : Program P).

(** The loop invokes neither [Begin] nor [End]. *)
Lemma scanLoop_begin_end (st0 : run_state P) (ls : list string) :
  begin_inputs (calls (scanLoop prog st0 ls)) = begin_inputs (calls st0) /\
  end_inputs (calls (scanLoop prog st0 ls)) = end_inputs (calls st0).
Proof.
  apply (scanLoop_invariant prog
           (fun st _ => begin_inputs (calls st) = begin_inputs (calls st0) /\
                        end_inputs (calls st) = end_inputs (calls st0))); [done|].
  intros st _ l [Hb He].
  destruct (processLine_cases prog st l) as [(p1 & c1 & _ & ->)|(p1 & c1 & p2 & c2 & o & emit & _ & _ & ->)];
    cbn [calls]; rewrite begin_inputs_app, end_inputs_app, Hb, He; cbn; by rewrite !app_nil_r.
Qed.

(** What is on [stdout] is what was there, followed by what the engine
    writes for the hook invocations. *)
Lemma scanLoop_stdout (out : string) (st0 : run_state P) (ls : list string) :
  stdout st0 = out +:+ written_all (calls st0) ->
  stdout (scanLoop prog st0 ls) = out +:+ written_all (calls (scanLoop prog st0 ls)).
Proof.
  intros H0.
  apply (scanLoop_invariant prog
           (fun st _ => stdout st = out +:+ written_all (calls st))); [done|].
  intros st _ l Hst.
  destruct (processLine_cases prog st l) as [(p1 & c1 & _ & ->)|(p1 & c1 & p2 & c2 & o & emit & _ & _ & ->)];
    cbn [calls stdout]; rewrite written_all_app, Hst, <-app_assoc_s.
  - cbn. by rewrite app_empty_r.
  - do 2 f_equal. cbn -[written]. by rewrite app_empty_r.
Qed.

(** One context goes through all the hooks. *)
Lemma scanLoop_chained (c0 : Context) (st0 : run_state P) (ls : list string) :
  chained c0 (calls st0) -> awkCtx st0 = last_out c0 (calls st0) ->
  chained c0 (calls (scanLoop prog st0 ls)) /\
  awkCtx (scanLoop prog st0 ls) = last_out c0 (calls (scanLoop prog st0 ls)).
Proof.
  intros H0 H1.
  apply (scanLoop_invariant prog
           (fun st _ => chained c0 (calls st) /\ awkCtx st = last_out c0 (calls st)));
    [done|].
  intros st _ l [Hch Hlast].
  destruct (processLine_cases prog st l) as [(p1 & c1 & _ & ->)|(p1 & c1 & p2 & c2 & o & emit & _ & _ & ->)];
    cbn [calls awkCtx].
  - split; [|by rewrite last_out_snoc].
    apply chained_app. split; [done|]. cbn. rewrite <-Hlast. eauto.
  - split.
    + apply chained_app. split; [done|]. cbn. rewrite <-Hlast. eauto.
    + change [CallCondition (updateRecord (awkCtx st) l) c1 true; CallAction c1 c2 o emit]
        with ([CallCondition (updateRecord (awkCtx st) l) c1 true] ++ [CallAction c1 c2 o emit]).
      by rewrite app_assoc, last_out_snoc.
Qed.

(** [Action] is invoked after a [Condition] that returned true, and only
    then, on the context that [Condition] left. *)
Lemma scanLoop_action_inputs (st0 : run_state P) (ls : list string) :
  action_inputs (calls st0) = passed_outputs (calls st0) ->
  action_inputs (calls (scanLoop prog st0 ls))
  = passed_outputs (calls (scanLoop prog st0 ls)).
Proof.
  intros H0.
  apply (scanLoop_invariant prog
           (fun st _ => action_inputs (calls st) = passed_outputs (calls st)));
    [done|].
  intros st _ l Hst.
  destruct (processLine_cases prog st l) as [(p1 & c1 & _ & ->)|(p1 & c1 & p2 & c2 & o & emit & _ & _ & ->)];
    cbn [calls]; rewrite action_inputs_app, passed_outputs_app, Hst; done.
Qed.

(** Every [Condition] is handed the context updated for its line. *)
Lemma scanLoop_condition_inputs (st0 : run_state P) (ls : list string) :
  condition_inputs (calls st0) = [] ->
  Forall2 (fun line c => holds_record c line) ls
          (condition_inputs (calls (scanLoop prog st0 ls))).
Proof.
  intros H0.
  apply (scanLoop_invariant prog
           (fun st ls => Forall2 (fun line c => holds_record c line) ls
                                 (condition_inputs (calls st)))).
  { rewrite H0. constructor. }
  intros st ls' l Hst.
  destruct (processLine_cases prog st l) as [(p1 & c1 & _ & ->)|(p1 & c1 & p2 & c2 & o & emit & _ & _ & ->)];
    cbn [calls]; rewrite condition_inputs_app; apply Forall2_app; try done;
    cbn; repeat constructor.
Qed.

(** [len(Fields) = NF + 1] whenever [Condition] or [Action] is invoked,
    if [Condition] keeps the two in step. *)
Lemma scanLoop_fields_counted (st0 : run_state P) (ls : list string) :
  condition_keeps_count prog ->
  Forall fields_counted (condition_inputs (calls st0) ++ action_inputs (calls st0)) ->
  Forall fields_counted (condition_inputs (calls (scanLoop prog st0 ls)) ++
                         action_inputs (calls (scanLoop prog st0 ls))).
Proof.
  intros Hkeep H0.
  apply (scanLoop_invariant prog
           (fun st _ => Forall fields_counted
                          (condition_inputs (calls st) ++ action_inputs (calls st))));
    [done|].
  intros st _ l Hst. apply Forall_app in Hst as [Hc Ha].
  assert (fields_counted (updateRecord (awkCtx st) l)) as Hu.
  { apply (holds_record_length _ l), holds_record_update. }
  destruct (processLine_cases prog st l) as [(p1 & c1 & E & ->)|(p1 & c1 & p2 & c2 & o & emit & E & _ & ->)];
    cbn [calls]; rewrite condition_inputs_app, action_inputs_app; cbn;
    rewrite ?app_nil_r; repeat (apply Forall_app; split); try done;
    repeat constructor; try done.
  specialize (Hkeep (prog_state st) _ Hu). by rewrite E in Hkeep.
Qed.

End LoopFacts.

Section RecordNumbers.
Context {P : Type} (prog : Program P).

(** The record numbers the hooks see while the loop runs, for hooks that
    do not assign [NR]. *)
Lemma scanLoop_NR (st0 : run_state P) (ls : list string) :
  keeps_NR prog ->
  NR (awkCtx st0) = 0 ->
  condition_inputs (calls st0) = [] ->
  action_inputs (calls st0) = [] ->
  passed_NR (calls st0) = [] ->
  StronglySorted Z.le (map (fun e => NR (call_in e)) (calls st0)) ->
  Forall (fun e => NR (call_in e) <= 0) (calls st0) ->
  Z.of_nat (length ls) < 2 ^ 63 ->
  NR (awkCtx (scanLoop prog st0 ls)) = Z.of_nat (length ls) /\
  map NR (condition_inputs (calls (scanLoop prog st0 ls)))
  = map Z.of_nat (seq 1 (length ls)) /\
  map NR (action_inputs (calls (scanLoop prog st0 ls)))
  = passed_NR (calls (scanLoop prog st0 ls)) /\
  StronglySorted Z.le (map (fun e => NR (call_in e)) (calls (scanLoop prog st0 ls))) /\
  Forall (fun e => NR (call_in e) <= NR (awkCtx (scanLoop prog st0 ls)))
         (calls (scanLoop prog st0 ls)).
Proof.
  intros (_ & HkC & HkA) H0 Hc0 Ha0 Hp0 Hs0 Hle0.
  apply (scanLoop_invariant prog
    (fun st ls =>
       Z.of_nat (length ls) < 2 ^ 63 ->
       NR (awkCtx st) = Z.of_nat (length ls) /\
       map NR (condition_inputs (calls st)) = map Z.of_nat (seq 1 (length ls)) /\
       map NR (action_inputs (calls st)) = passed_NR (calls st) /\
       StronglySorted Z.le (map (fun e => NR (call_in e)) (calls st)) /\
       Forall (fun e => NR (call_in e) <= NR (awkCtx st)) (calls st))).
  { intros _. rewrite H0, Hc0, Ha0, Hp0. cbn. by rewrite <-H0 at 1. }
  clear ls. intros st ls l IH Hlen. rewrite length_app in Hlen |- *. cbn [length] in *.
  destruct IH as (Hn & Hc & Ha & Hs & Hle); [lia|].
  pose proof (processLine_cases prog st l) as Hcases. cbn zeta in Hcases.
  remember (updateRecord (awkCtx st) l) as u eqn:Eu.
  assert (NR u = Z.of_nat (length ls) + 1) as Hu.
  { rewrite Eu, updateRecord_NR, Hn. apply wrap64_small. lia. }
  assert (Forall (fun e => NR (call_in e) <= NR u) (calls st)) as Hle'.
  { eapply Forall_impl; [exact Hle|]. intros e He. cbn beta in He. lia. }
  replace (length ls + 1)%nat with (S (length ls)) by lia. rewrite seq_S, map_app.
  cbn [map]. replace (Z.of_nat (1 + length ls)) with (NR u) by lia.
  replace (Z.of_nat (S (length ls))) with (NR u) by lia.
  destruct Hcases
    as [(p1 & c1 & E & ->)|(p1 & c1 & p2 & c2 & o & emit & E & E' & ->)];
    cbn [calls awkCtx];
    pose proof (HkC (prog_state st) u) as H1; rewrite E in H1; cbn [fst snd] in H1.
  - rewrite condition_inputs_app, action_inputs_app, passed_NR_app, !map_app.
    cbn. rewrite !app_nil_r, Hc, Ha, H1.
    repeat split; try done.
    + by apply StronglySorted_snoc; [|rewrite Forall_map].
    + apply Forall_app. split; [done|]. repeat constructor. cbn. lia.
  - pose proof (HkA p1 c1) as H2. rewrite E' in H2. cbn [fst snd] in H2.
    rewrite condition_inputs_app, action_inputs_app, passed_NR_app, !map_app.
    cbn. rewrite Hc, Ha, H2, H1.
    repeat split; try done.
    + change [NR u; NR u] with ([NR u] ++ [NR u]). rewrite app_assoc.
      apply StronglySorted_snoc.
      * by apply StronglySorted_snoc; [|rewrite Forall_map].
      * apply Forall_app. split; [by rewrite Forall_map|]. repeat constructor. lia.
    + apply Forall_app. split; [done|]. repeat constructor; cbn; lia.
Qed.

End RecordNumbers.

(** ** Claims about whole runs *)

(** Case analysis on how a run ends: [Begin] fails, the scanner fails, or
    [End] is reached. *)
Ltac run_cases c p stdin out :=
  let H := fresh "Hrun" in
  destruct (Executor_cases c p stdin out) as (p1 & c1 & e0 & EB & H);
  cbn zeta in H; rewrite ?EB in *; cbn [fst snd] in *;
  destruct e0 as [e|];
  [ rewrite ?H in *
  | destruct (scanner_Err stdin) as [e|] eqn:Escan;
    [ rewrite ?H in *
    | destruct H as (p2 & c2 & o & e2 & EE & H); rewrite ?H in * ] ];
  cbn [fst snd calls stdout awkCtx prog_state] in *.

Lemma CountString_newline (o : string) :
  strings.CountString (o +:+ String "010" "") "010"
  = S (strings.CountString o "010").
Proof.
  induction o as [|a o IH]; [done|]. rewrite app_cons. cbn [strings.CountString].
  rewrite IH. lia.
Qed.

(** One context goes through all the hooks of a run, however it ends. *)
Lemma Executor_chained {P} (c : command P) (p : P) (stdin : Input) (out : string) :
  chained (initContext (inputs_Flags c)) (calls (Executor c p stdin out).1).
Proof.
  run_cases c p stdin out.
  - by cbn.
  - by apply scanLoop_chained.
  - destruct (scanLoop_chained (program c) (initContext (inputs_Flags c))
                (mkRun p1 c1 out [CallBegin (initContext (inputs_Flags c)) c1 None])
                (lines stdin)) as [Hch Hlast]; [done|done|].
    apply chained_app. split; [done|]. cbn. by rewrite <-Hlast.
Qed.

(** [Action] runs exactly after the [Condition] calls that return true,
    on what they left. *)
Lemma Executor_action_inputs {P} (c : command P) (p : P) (stdin : Input) (out : string) :
  action_inputs (calls (Executor c p stdin out).1)
  = passed_outputs (calls (Executor c p stdin out).1).
Proof.
  run_cases c p stdin out.
  - done.
  - by apply scanLoop_action_inputs.
  - rewrite action_inputs_app, passed_outputs_app. cbn. rewrite !app_nil_r.
    by apply scanLoop_action_inputs.
Qed.

(** C9. [stdout] holds what it held before the run followed, in call
    order, by the output and one newline for every [Action] that returned
    [emit = true] (invoked only when [Condition] returned true) and for
    an [End] that returned a non-empty output and no error, and nothing
    else.  One iteration of the loop appends the output of [Action] and
    exactly one newline when [Condition] and [emit] are both true, and
    nothing otherwise; an empty output then gives the line that is just
    the newline. *)
Theorem C9_output_lines {P} (c : command P) (p : P) (stdin : Input) (out : string) :
  let r := Executor c p stdin out in
  let c0 := initContext (inputs_Flags c) in
  let b := Begin (program c) p c0 in
  stdout r.1 = out +:+ written_all (calls r.1) /\
  (forall st line,
     let u := updateRecord (awkCtx st) line in
     let rc := Condition (program c) (prog_state st) u in
     let ra := Action (program c) rc.1.1 rc.1.2 in
     stdout (processLine (program c) st line)
     = if rc.2 && ra.2.2 then stdout st +:+ ra.2.1 +:+ String "010" ""
       else stdout st) /\
  (b.2 = None -> scanner_Err stdin = None ->
     let st := scanLoop (program c) (mkRun b.1.1 b.1.2 out [CallBegin c0 b.1.2 None])
                        (lines stdin) in
     let t := End_ (program c) (prog_state st) (awkCtx st) in
     stdout r.1
     = match t.2.2 with
       | Some _ => stdout st
       | None => if String.eqb t.2.1 "" then stdout st
                 else stdout st +:+ t.2.1 +:+ String "010" ""
       end) /\
  (forall cin cout o,
     written (CallAction cin cout o true) = o +:+ String "010" "" /\
     written (CallAction cin cout o false) = "" /\
     written (CallAction cin cout "" true) = String "010" "") /\
  (forall o, strings.CountString (o +:+ String "010" "") "010"
             = S (strings.CountString o "010")) /\
  (forall cin cout o,
     strings.CountString o "010" = 0%nat ->
     strings.CountString (written (CallAction cin cout o true)) "010" = 1%nat).
Proof.
  cbn zeta. split; [|split; [|split; [|split; [|split]]]].
  - run_cases c p stdin out.
    + cbn. by rewrite app_empty_r.
    + apply scanLoop_stdout. cbn. by rewrite app_empty_r.
    + rewrite written_all_app, <-app_assoc_s. cbn -[written]. rewrite app_empty_r.
      f_equal. apply scanLoop_stdout. cbn. by rewrite app_empty_r.
  - intros st line.
    destruct (processLine_cases (program c) st line)
      as [(q1 & d1 & E & ->)|(q1 & d1 & q2 & d2 & o & emit & E & E' & ->)];
      rewrite E; cbn [fst snd andb stdout]; [done|].
    rewrite E'. cbn [fst snd written]. destruct emit; [done|]. by rewrite app_empty_r.
  - intros Hb Hs. run_cases c p stdin out; try done.
    rewrite EE. cbn [fst snd]. destruct e2 as [e2|]; cbn [written].
    + by rewrite app_empty_r.
    + destruct (String.eqb o ""); [by rewrite app_empty_r|done].
  - done.
  - apply CountString_newline.
  - intros cin cout o Ho. cbn [written]. by rewrite CountString_newline, Ho.
Qed.

Lemma C9_witness :
  stdout (Executor (Awk rewriteProgram defaultFlags) tt
                   (mkInput ["a b"; "c"] None) "").1
  = String "010" (String "010" "").
Proof.
  pose proof (C9_output_lines (Awk rewriteProgram defaultFlags) tt
                (mkInput ["a b"; "c"] None) "") as H.
  cbn zeta in H. destruct H as (H & _). rewrite H. vm_compute. reflexivity.
Defined.

(** C8. [End] is invoked once when [Begin] returns no error and the
    scanner reports none, and not at all otherwise.  An error of [Begin]
    ends the run with that error wrapped under the prefix BEGIN, with
    [Begin] as the only hook invoked and nothing written.  An error of
    the scanner ends the run with that very error after the loop, with
    [End] not invoked and [stdout] holding what the loop wrote for the
    lines read, which is a prefix of what the run would hold without the
    failure.  An error of [End] ends the run with that error wrapped
    under the prefix END. *)
Theorem C8_End_invocation {P} (c : command P) (p : P) (stdin : Input) (out : string) :
  let c0 := initContext (inputs_Flags c) in
  let b := Begin (program c) p c0 in
  let r := Executor c p stdin out in
  let st := scanLoop (program c) (mkRun b.1.1 b.1.2 out [CallBegin c0 b.1.2 None])
                     (lines stdin) in
  let t := End_ (program c) (prog_state st) (awkCtx st) in
  (length (end_inputs (calls r.1)) = 1%nat <-> b.2 = None /\ scanner_Err stdin = None) /\
  (length (end_inputs (calls r.1)) <= 1)%nat /\
  (forall e, b.2 = Some e ->
     r.2 = Some (Errorf_w "BEGIN: " e) /\
     Unwrap (Errorf_w "BEGIN: " e) = Some e /\
     Error (Errorf_w "BEGIN: " e) = "BEGIN: " +:+ Error e /\
     calls r.1 = [CallBegin c0 b.1.2 (Some e)] /\
     stdout r.1 = out) /\
  (forall e, b.2 = None -> scanner_Err stdin = Some e ->
     r.2 = Some e /\
     end_inputs (calls r.1) = [] /\
     r.1 = st /\
     stdout r.1 = out +:+ written_all (calls r.1) /\
     exists w, stdout (Executor c p (mkInput (lines stdin) None) out).1
               = stdout r.1 +:+ w) /\
  (b.2 = None -> scanner_Err stdin = None ->
     end_inputs (calls r.1) = [awkCtx st] /\
     r.2 = (Errorf_w "END: " <$> t.2.2) /\
     forall e, t.2.2 = Some e ->
       r.2 = Some (Errorf_w "END: " e) /\
       Unwrap (Errorf_w "END: " e) = Some e /\
       Error (Errorf_w "END: " e) = "END: " +:+ Error e /\
       stdout r.1 = stdout st).
Proof.
  cbn zeta.
  pose proof (Executor_cases c p (mkInput (lines stdin) None) out) as Hok.
  cbn zeta in Hok. cbn [scanner_Err lines] in Hok.
  run_cases c p stdin out.
  - destruct Hok as (? & ? & ? & _ & _).
    repeat split; try (intros; simplify_eq/=; done || lia).
    intros [? _]. done.
  - destruct Hok as (q1 & d1 & f0 & [= <- <- <-] & (q2 & d2 & o & e2 & _ & Hok)).
    pose proof (scanLoop_begin_end (program c)
                  (mkRun p1 c1 out [CallBegin (initContext (inputs_Flags c)) c1 None])
                  (lines stdin)) as [_ He].
    cbn in He. rewrite He.
    repeat split; try (intros; simplify_eq/=; done || lia).
    + by intros [_ ?].
    + apply scanLoop_stdout. cbn. by rewrite app_empty_r.
    + rewrite Hok. cbn [fst stdout]. eauto.
  - clear Hok.
    pose proof (scanLoop_begin_end (program c)
                  (mkRun p1 c1 out [CallBegin (initContext (inputs_Flags c)) c1 None])
                  (lines stdin)) as [_ He].
    cbn in He. rewrite end_inputs_app, He, EE. cbn [fst snd].
    repeat split; intros; simplify_eq/=; try done; try lia.
    by rewrite app_empty_r.
Qed.

Lemma C8_witness :
  (Executor (Awk ErrorInBeginProgram defaultFlags) tt (mkInput ["line"] None) "").2
  = Some (Errorf_w "BEGIN: " (errors_New "begin error")) /\
  end_inputs (calls (Executor (Awk SimpleProgram defaultFlags) tt
                       (mkInput ["a"; "b"] (Some (errors_New "read failed"))) "").1)
  = [] /\
  (Executor (Awk ErrorInEndProgram defaultFlags) tt (mkInput ["line"] None) "").2
  = Some (Errorf_w "END: " (errors_New "end error")).
Proof.
  split; [|split].
  - pose proof (C8_End_invocation (Awk ErrorInBeginProgram defaultFlags) tt
                  (mkInput ["line"] None) "") as H.
    cbn zeta in H. destruct H as (_ & _ & H & _).
    apply (H (errors_New "begin error")). reflexivity.
  - pose proof (C8_End_invocation (Awk SimpleProgram defaultFlags) tt
                  (mkInput ["a"; "b"] (Some (errors_New "read failed"))) "") as H.
    cbn zeta in H. destruct H as (_ & _ & _ & H & _).
    apply (H (errors_New "read failed")); reflexivity.
  - pose proof (C8_End_invocation (Awk ErrorInEndProgram defaultFlags) tt
                  (mkInput ["line"] None) "") as H.
    cbn zeta in H. destruct H as (_ & _ & _ & _ & H).
    destruct H as (_ & _ & H); [reflexivity|reflexivity|].
    apply (H (errors_New "end error")). vm_compute. reflexivity.
Defined.

(** C4. The update for a record makes [Fields] the record followed by
    its tokens (those of [strings.Fields] under the white-space sentinel,
    none for the empty record and those of [strings.Split] otherwise) and
    [NF] their number, so [len(Fields) = NF + 1].  Every [Condition] of
    a run is handed the context in that state, line by line; every
    [Action] is handed what a [Condition] that returned true left, where
    [len(Fields) = NF + 1] still holds if [Condition] keeps the two in
    step. *)
Theorem C4_fields_after_update {P} (c : command P) (p : P) (stdin : Input) (out : string) :
  (forall ctx line,
      Fields (updateRecord ctx line) = [line] ++ splitLine (FS ctx) line /\
      NF (updateRecord ctx line) = Z.of_nat (length (splitLine (FS ctx) line)) /\
      fields_counted (updateRecord ctx line) /\
      (FS ctx = " " -> splitLine (FS ctx) line = strings.Fields line) /\
      (FS ctx <> " " ->
         splitLine (FS ctx) line
         = if String.eqb line "" then [] else strings.Split line (FS ctx))) /\
  ((Begin (program c) p (initContext (inputs_Flags c))).2 = None ->
     Forall2 (fun line ctx => holds_record ctx line) (lines stdin)
             (condition_inputs (calls (Executor c p stdin out).1))) /\
  Forall fields_counted (condition_inputs (calls (Executor c p stdin out).1)) /\
  action_inputs (calls (Executor c p stdin out).1)
  = passed_outputs (calls (Executor c p stdin out).1) /\
  (condition_keeps_count (program c) ->
     Forall fields_counted (action_inputs (calls (Executor c p stdin out).1))).
Proof.
  assert ((Begin (program c) p (initContext (inputs_Flags c))).2 = None ->
          Forall2 (fun line ctx => holds_record ctx line) (lines stdin)
                  (condition_inputs (calls (Executor c p stdin out).1))) as HC.
  { intros Hb. run_cases c p stdin out; try done.
    - by apply scanLoop_condition_inputs.
    - rewrite condition_inputs_app. cbn. rewrite app_nil_r.
      by apply scanLoop_condition_inputs. }
  split; [|split; [done|split; [|split; [apply Executor_action_inputs|]]]].
  - intros ctx line. split; [done|]. split; [done|].
    split; [apply (holds_record_length _ line), holds_record_update|].
    split; [apply splitLine_whitespace|].
    intros Hfs. unfold splitLine. by destruct (String.eqb_spec (FS ctx) " ").
  - destruct (Begin (program c) p (initContext (inputs_Flags c))).2 as [err|] eqn:Hb.
    + clear HC. run_cases c p stdin out; try done.
    + specialize (HC eq_refl). clear Hb.
      induction HC as [|line ctx ls cs H _ IH]; constructor; [|done].
      by apply (holds_record_length _ line).
  - intros Hkeep. clear HC.
    assert (forall st0 : run_state P,
              condition_inputs (calls st0) ++ action_inputs (calls st0) = [] ->
              Forall fields_counted
                (action_inputs (calls (scanLoop (program c) st0 (lines stdin))))) as HA.
    { intros st0 H0.
      pose proof (scanLoop_fields_counted (program c) st0 (lines stdin) Hkeep) as H.
      rewrite H0 in H. specialize (H ltac:(constructor)).
      by apply Forall_app in H as [_ H]. }
    run_cases c p stdin out.
    + constructor.
    + by apply HA.
    + rewrite action_inputs_app. cbn. rewrite app_nil_r. by apply HA.
Qed.

Lemma markProgram_keeps_count : condition_keeps_count markProgram.
Proof.
  intros p c _. change (fields_counted (SetField c 3 "seen")).
  unfold fields_counted. rewrite SetField_NF; lia.
Qed.

Lemma C4_witness :
  Forall fields_counted
    (action_inputs (calls (Executor (Awk markProgram defaultFlags) tt
                             (mkInput ["one two three"; ""; "a b"] None) "").1)).
Proof.
  apply (C4_fields_after_update (Awk markProgram defaultFlags) tt
           (mkInput ["one two three"; ""; "a b"] None) "").
  exact markProgram_keeps_count.
Defined.

(** C7. [Begin] sees [NR = 0]; the update for a record adds exactly one
    (on the [int64]); between two hooks the engine changes the context
    by that update only, once per line, and hands [End] what the last
    hook left.  For hooks that do not assign [NR] themselves and an input of
    fewer than 2^63 lines: the [Condition] of the i-th record sees
    [NR = i] and its [Action], when invoked, the same; the record
    numbers seen by successive hook invocations never decrease; and
    after [n] records [NR] is [n], which is what [End] sees. *)
Theorem C7_record_number {P} (c : command P) (p : P) (stdin : Input) (out : string) :
  let r := Executor c p stdin out in
  let started := (Begin (program c) p (initContext (inputs_Flags c))).2 = None in
  map NR (begin_inputs (calls r.1)) = [0] /\
  (forall ctx line,
      NR (updateRecord ctx line) = wrap64 (NR ctx + 1) /\
      (- 2 ^ 63 <= NR ctx < 2 ^ 63 - 1 -> NR (updateRecord ctx line) = NR ctx + 1)) /\
  chained (initContext (inputs_Flags c)) (calls r.1) /\
  (started -> length (condition_inputs (calls r.1)) = length (lines stdin)) /\
  (keeps_NR (program c) ->
   Z.of_nat (length (lines stdin)) < 2 ^ 63 ->
     (started ->
        map NR (condition_inputs (calls r.1))
        = map Z.of_nat (seq 1 (length (lines stdin)))) /\
     map NR (action_inputs (calls r.1)) = passed_NR (calls r.1) /\
     StronglySorted Z.le (map (fun e => NR (call_in e)) (calls r.1)) /\
     (started -> scanner_Err stdin = None ->
        map NR (end_inputs (calls r.1)) = [Z.of_nat (length (lines stdin))]) /\
     (started -> scanner_Err stdin <> None ->
        NR (awkCtx r.1) = Z.of_nat (length (lines stdin)))).
Proof.
  cbn zeta. split; [|split; [|split; [|split]]].
  { run_cases c p stdin out; try done.
    - by rewrite (proj1 (scanLoop_begin_end _ _ _)).
    - by rewrite begin_inputs_app, (proj1 (scanLoop_begin_end _ _ _)). }
  { intros ctx line. split; [done|]. intros H.
    rewrite updateRecord_NR. apply wrap64_small. lia. }
  { apply Executor_chained. }
  { intros Hb. symmetry. eapply Forall2_length.
    run_cases c p stdin out; try done.
    - by apply scanLoop_condition_inputs.
    - rewrite condition_inputs_app. cbn. rewrite app_nil_r.
      by apply scanLoop_condition_inputs. }
  intros Hkeep Hlen.
  assert (forall p1 c1,
            Begin (program c) p (initContext (inputs_Flags c)) = (p1, c1, None) ->
            let st := scanLoop (program c)
                        (mkRun p1 c1 out [CallBegin (initContext (inputs_Flags c)) c1 None])
                        (lines stdin) in
            NR (awkCtx st) = Z.of_nat (length (lines stdin)) /\
            map NR (condition_inputs (calls st))
            = map Z.of_nat (seq 1 (length (lines stdin))) /\
            map NR (action_inputs (calls st)) = passed_NR (calls st) /\
            StronglySorted Z.le (map (fun e => NR (call_in e)) (calls st)) /\
            Forall (fun e => NR (call_in e) <= NR (awkCtx st)) (calls st)) as HL.
  { intros p1 c1 E. apply scanLoop_NR; try done.
    - destruct Hkeep as (Hk & _).
      specialize (Hk p (initContext (inputs_Flags c))). by rewrite E in Hk.
    - repeat constructor.
    - repeat constructor. cbn. lia. }
  split; [|split; [|split; [|split]]].
  - intros Hb. run_cases c p stdin out; try done;
      destruct (HL p1 c1 eq_refl) as (H1 & H2 & H3 & H4 & H5); [done|].
    rewrite condition_inputs_app. cbn. by rewrite app_nil_r.
  - run_cases c p stdin out; try done;
      destruct (HL p1 c1 eq_refl) as (H1 & H2 & H3 & H4 & H5); [done|].
    rewrite action_inputs_app, passed_NR_app. cbn. by rewrite !app_nil_r.
  - run_cases c p stdin out; [repeat constructor|..];
      destruct (HL p1 c1 eq_refl) as (H1 & H2 & H3 & H4 & H5); [done|].
    rewrite map_app. cbn [map call_in].
    apply StronglySorted_snoc; [done|]. by rewrite Forall_map.
  - intros Hb Hs. run_cases c p stdin out; try done.
    destruct (HL p1 c1 eq_refl) as (H1 & H2 & H3 & H4 & H5).
    rewrite end_inputs_app, (proj2 (scanLoop_begin_end _ _ _)). cbn. by f_equal.
  - intros Hb Hs. run_cases c p stdin out; try done.
    by destruct (HL p1 c1 eq_refl) as (H1 & H2 & H3 & H4 & H5).
Qed.

Lemma SimpleProgram_keeps_NR : keeps_NR SimpleProgram.
Proof. by repeat split. Qed.

Lemma C7_witness :
  map NR (condition_inputs
            (calls (Executor (Awk SimpleProgram defaultFlags) tt
                      (mkInput ["a"; "b"; "c"] None) "").1))
  = [1; 2; 3] /\
  map NR (end_inputs
            (calls (Executor (Awk SimpleProgram defaultFlags) tt
                      (mkInput ["a"; "b"; "c"] None) "").1))
  = [3].
Proof.
  pose proof (C7_record_number (Awk SimpleProgram defaultFlags) tt
                (mkInput ["a"; "b"; "c"] None) "") as H.
  cbn zeta in H. destruct H as (_ & _ & _ & _ & H).
  destruct (H SimpleProgram_keeps_NR) as (H1 & _ & _ & H2 & _); [cbn; lia|].
  split; [apply H1; reflexivity|apply H2; reflexivity].
Defined.

(** C10. When [End] is reached, the hook invocations of the run are
    chained on one context: each hook is handed what the hook before it
    left (updated for the next record in the case of [Condition]), so
    [End] is handed what the last hook before it left.  With no record
    that is what [Begin] left of the initial context, which has [NR = 0],
    no fields, [NF = 0] and the initial variables of the flags.  With
    records, it is what the hooks of the last record left of the context
    updated for it: [NR] is the number of records for hooks that do not
    assign it, and [Fields] and [NF] are those of the last record's split
    for hooks that leave them alone. *)
Theorem C10_End_sees_final_state {P} (c : command P) (p : P) (stdin : Input)
    (out : string) :
  let c0 := initContext (inputs_Flags c) in
  let b := Begin (program c) p c0 in
  let r := Executor c p stdin out in
  b.2 = None -> scanner_Err stdin = None ->
  chained c0 (calls r.1) /\
  exists pre cout o e,
    calls r.1 = pre ++ [CallEnd (last_out c0 pre) cout o e] /\
    end_inputs (calls r.1) = [last_out c0 pre] /\
    NR c0 = 0 /\ Fields c0 = [] /\ NF c0 = 0 /\
    Variables c0 = Some (default ∅ (flags_Variables (inputs_Flags c))) /\
    (lines stdin = [] ->
       pre = [CallBegin c0 b.1.2 None] /\
       last_out c0 pre = b.1.2 /\
       (begin_keeps_record (program c) ->
          NR (last_out c0 pre) = 0 /\ Fields (last_out c0 pre) = [] /\
          NF (last_out c0 pre) = 0)) /\
    (forall ls l, lines stdin = ls ++ [l] ->
       exists u p',
         last (condition_inputs pre) = Some u /\
         holds_record u l /\
         last_out c0 pre
         = (let rc := Condition (program c) p' u in
            if rc.2 then (Action (program c) rc.1.1 rc.1.2).1.2 else rc.1.2) /\
         (keeps_NR (program c) -> Z.of_nat (length (lines stdin)) < 2 ^ 63 ->
            NR (last_out c0 pre) = Z.of_nat (length (lines stdin))) /\
         (condition_keeps_fields (program c) -> action_keeps_fields (program c) ->
            Fields (last_out c0 pre) = Fields u /\ NF (last_out c0 pre) = NF u)).
Proof.
  cbn zeta. intros Hb Hs. run_cases c p stdin out; try done. clear Hb Hs.
  set (c0 := initContext (inputs_Flags c)) in *.
  set (st0 := mkRun p1 c1 out [CallBegin c0 c1 None]) in *.
  destruct (scanLoop_chained (program c) c0 st0 (lines stdin)) as [Hch Hlast];
    [done|done|].
  pose proof (scanLoop_begin_end (program c) st0 (lines stdin)) as [_ He].
  split.
  { apply chained_app. split; [done|]. cbn. by rewrite <-Hlast. }
  exists (calls (scanLoop (program c) st0 (lines stdin))), c2, o, e2.
  rewrite <-Hlast. split; [done|].
  split; [by rewrite end_inputs_app, He|].
  split; [done|]. split; [done|]. split; [done|].
  split.
  { unfold c0. cbn. f_equal. destruct (flags_Variables (inputs_Flags c)) as [m|]; [|done].
    apply copyVariables_spec. }
  split.
  - intros ->. cbn. split; [done|]. split; [done|].
    intros Hkeep. specialize (Hkeep p c0). rewrite EB in Hkeep.
    cbn [fst snd] in Hkeep. destruct Hkeep as (HF & HN & HR). by rewrite HF, HN, HR.
  - intros ls l El. rewrite El in *. rewrite scanLoop_snoc in *.
    set (st' := scanLoop (program c) st0 ls) in *.
    exists (updateRecord (awkCtx st') l), (prog_state st').
    destruct (processLine_cases (program c) st' l)
      as [(q1 & d1 & E & Ep)|(q1 & d1 & q2 & d2 & o' & emit & E & E' & Ep)];
      rewrite Ep; cbn [calls awkCtx]; rewrite condition_inputs_app; cbn.
    + split; [apply last_snoc|]. split; [apply holds_record_update|].
      split; [by rewrite E|]. split.
      * intros Hk Hlen.
        destruct (scanLoop_NR (program c) st0 (ls ++ [l]) Hk) as (Hn & _); try done.
        { destruct Hk as (Hk & _). specialize (Hk p c0). by rewrite EB in Hk. }
        { repeat constructor. }
        { repeat constructor. cbn. lia. }
        rewrite scanLoop_snoc in Hn. fold st' in Hn. by rewrite Ep in Hn.
      * intros Hc _. specialize (Hc (prog_state st') (updateRecord (awkCtx st') l)).
        by rewrite E in Hc.
    + split; [apply last_snoc|]. split; [apply holds_record_update|].
      split; [by rewrite E; cbn; rewrite E'|]. split.
      * intros Hk Hlen.
        destruct (scanLoop_NR (program c) st0 (ls ++ [l]) Hk) as (Hn & _); try done.
        { destruct Hk as (Hk & _). specialize (Hk p c0). by rewrite EB in Hk. }
        { repeat constructor. }
        { repeat constructor. cbn. lia. }
        rewrite scanLoop_snoc in Hn. fold st' in Hn. by rewrite Ep in Hn.
      * intros Hc Ha. specialize (Hc (prog_state st') (updateRecord (awkCtx st') l)).
        specialize (Ha q1 d1). rewrite E in Hc. rewrite E' in Ha.
        cbn [fst snd] in *. destruct Hc as [Hc1 Hc2], Ha as [Ha1 Ha2].
        by rewrite Ha1, Ha2, Hc1, Hc2.
Qed.

Lemma totalProgram_keeps_NR : keeps_NR totalProgram.
Proof. by repeat split. Qed.

Lemma totalProgram_keeps_fields :
  condition_keeps_fields totalProgram /\ action_keeps_fields totalProgram.
Proof. by split. Qed.

Lemma C10_witness :
  map (fun ctx => (NR ctx, Fields ctx, NF ctx, Var ctx "total"))
      (end_inputs (calls (Executor (Awk totalProgram (mkFlags "," "" None)) tt
                            (mkInput ["a,b,c"; ""; "x,y"] None) "").1))
  = [(3, ["x,y"; "x"; "y"], 2, AnyInt 3)] /\
  chained (initContext (inputs_Flags (Awk totalProgram (mkFlags "," "" None))))
          (calls (Executor (Awk totalProgram (mkFlags "," "" None)) tt
                    (mkInput ["a,b,c"; ""; "x,y"] None) "").1).
Proof.
  split; [vm_compute; reflexivity|].
  apply (C10_End_sees_final_state (Awk totalProgram (mkFlags "," "" None)) tt
           (mkInput ["a,b,c"; ""; "x,y"] None) ""); reflexivity.
Defined.

(** ** Variables: [Var] and [SetVar] *)

Section VariablesFacts.

Lemma Var_SetVar_eq (c : Context) (k : string) (v : any) : Var (SetVar c k v) k = v.
Proof. unfold Var, SetVar. cbn. by rewrite lookup_insert_eq. Qed.

Lemma Var_SetVar_ne (c : Context) (k k' : string) (v : any) :
  k' <> k -> Var (SetVar c k v) k' = Var c k'.
Proof.
  intros Hk. unfold Var, SetVar. cbn. rewrite lookup_insert_ne by done.
  destruct (Variables c); [done|]. by rewrite lookup_empty.
Qed.

End VariablesFacts.

(** X1. After [SetVar(k, v)], [Var(k)] is [v] and [Var] of every other
    name is what it was before.  This holds on a context whose map is
    nil as well: [SetVar] makes the map, which then holds that one
    variable, and the map is never nil afterwards. *)
Theorem X1_Var_after_SetVar (c : Context) (k k' : string) (v : any) :
  Var (SetVar c k v) k' = (if decide (k' = k) then v else Var c k') /\
  Variables (SetVar c k v) <> None /\
  (Variables c = None -> Variables (SetVar c k v) = Some {[ k := v ]}).
Proof.
  split; [|split].
  - destruct (decide (k' = k)) as [->|Hne]; [apply Var_SetVar_eq|by apply Var_SetVar_ne].
  - done.
  - intros E. unfold SetVar. rewrite E. cbn. by rewrite insert_empty.
Qed.

Lemma X1_witness :
  Variables (SetVar (mkContext [] 0 0 " " " " None "") "n" (AnyInt 1))
  = Some {[ "n" := AnyInt 1 ]}.
Proof.
  apply (X1_Var_after_SetVar (mkContext [] 0 0 " " " " None "") "n" "n" (AnyInt 1)).
  reflexivity.
Defined.

(** X2. [SetVar] changes nothing but the variables: the fields, [NR],
    [NF] and the separators stay.  Setting a name twice leaves the
    context that the second call alone would leave, and two calls on
    different names give the same context in either order. *)
Theorem X2_SetVar_composes (c : Context) (k1 k2 : string) (v1 v2 : any) :
  SetVar (SetVar c k1 v1) k1 v2 = SetVar c k1 v2 /\
  (k1 <> k2 ->
     SetVar (SetVar c k1 v1) k2 v2 = SetVar (SetVar c k2 v2) k1 v1) /\
  Fields (SetVar c k1 v1) = Fields c /\ NR (SetVar c k1 v1) = NR c /\
  NF (SetVar c k1 v1) = NF c /\ FS (SetVar c k1 v1) = FS c /\
  OFS (SetVar c k1 v1) = OFS c /\ RS (SetVar c k1 v1) = RS c.
Proof.
  split; [|split].
  - unfold SetVar. cbn. by rewrite insert_insert_eq.
  - intros Hne. unfold SetVar. cbn. by rewrite insert_insert_ne.
  - done.
Qed.

Lemma X2_witness :
  SetVar (SetVar defaultContext "sum" (AnyInt 0)) "count" (AnyInt 1)
  = SetVar (SetVar defaultContext "count" (AnyInt 1)) "sum" (AnyInt 0).
Proof.
  apply (X2_SetVar_composes defaultContext "sum" "count" (AnyInt 0) (AnyInt 1)).
  discriminate.
Defined.

(** X3. [Var] returns nil in exactly three cases: the map of the context
    is nil, the name is not in the map, or the name is in the map with
    the value nil.  Its result does not tell a variable that was never
    set from one that was set to nil. *)
Theorem X3_Var_of_unset_is_nil (c : Context) (k : string) :
  Var c k = AnyNil <->
  Variables c = None \/
  exists m, Variables c = Some m /\ (m !! k = None \/ m !! k = Some AnyNil).
Proof.
  unfold Var. destruct (Variables c) as [m|]; [|by split; [left|]].
  split.
  - intros H. right. exists m. split; [done|].
    destruct (m !! k) as [v|]; [right; by simplify_eq/=|by left].
  - intros [H|(m' & [= <-] & [->| ->])]; done.
Qed.

(** ** [Print] and the split of what it returns *)

Section Joining.

Lemma Join_cons (f g : string) (fs : list string) (sep : string) :
  Join (f :: g :: fs) sep = f +:+ sep +:+ Join (g :: fs) sep.
Proof. done. Qed.

Lemma Join_shift (a r : string) (rest : list string) (sep : string) :
  Join ((a +:+ sep +:+ r) :: rest) sep = a +:+ sep +:+ Join (r :: rest) sep.
Proof. destruct rest as [|g rest]; [done|]. by rewrite !Join_cons, !app_assoc_s. Qed.

Lemma Join_fold (rest : list string) (e sep : string) :
  fold_left (fun b s => b +:+ sep +:+ s) rest e = Join (e :: rest) sep.
Proof.
  revert e. induction rest as [|r rest IH]; intros e; [done|].
  cbn [fold_left]. rewrite IH. apply Join_shift.
Qed.

(** What [strings.Join] builds is the join of the specification. *)
Lemma Join_eq (elems : list string) (sep : string) :
  strings.Join elems sep = Join elems sep.
Proof.
  destruct elems as [|e [|r rest]]; [done|done|]. unfold strings.Join.
  apply Join_fold.
Qed.

Lemma Join_app (fs gs : list string) (sep : string) :
  fs <> [] -> gs <> [] ->
  Join (fs ++ gs) sep = Join fs sep +:+ sep +:+ Join gs sep.
Proof.
  intros Hf Hg. induction fs as [|f fs IH]; [done|].
  destruct fs as [|f' fs].
  - destruct gs as [|g gs]; [done|]. done.
  - cbn [app]. rewrite !Join_cons. cbn [app] in IH. rewrite IH by done.
    by rewrite !app_assoc_s.
Qed.

Lemma no_byte_no_occurrence (a : ascii) (s : string) :
  strings.CountString s a = 0%nat -> forall i, ~ occurs_at (String a "") s i.
Proof.
  induction s as [|c s IH]; intros Hc i Ho.
  - apply occurs_at_bound in Ho. cbn in Ho. lia.
  - cbn [strings.CountString] in Hc. destruct i as [|i].
    + apply occurs_at_zero in Ho as [r Hr]. rewrite app_cons in Hr.
      injection Hr as -> _. rewrite Ascii.eqb_refl in Hc. lia.
    + apply occurs_at_succ in Ho. apply (IH ltac:(lia) i Ho).
Qed.

Lemma occurs_at_byte_prefix (a : ascii) (f t : string) (i : nat) :
  (i < len f)%nat -> occurs_at (String a "") (f +:+ t) i -> occurs_at (String a "") f i.
Proof.
  revert i. induction f as [|c f IH]; intros i Hi Ho; [cbn in Hi; lia|].
  rewrite app_cons in Ho. destruct i as [|i].
  - apply occurs_at_zero in Ho as [r Hr]. rewrite app_cons in Hr.
    injection Hr as -> _. apply occurs_at_zero. exists f. by rewrite app_cons.
  - apply occurs_at_succ in Ho. apply occurs_at_succ. apply IH; [cbn in Hi; lia|done].
Qed.



End Joining.

(** X4. [Print] of no value is the empty string and [Print] of one value
    is the text of that value, with no separator.  [Print] of two
    non-empty lists of values one after the other is the two results
    with exactly one [OFS] between them: [OFS] stands between the values
    and never at either end. *)
Theorem X4_Print_joins (c : Context) (vs ws : list any) (v : any) :
  Print c [] = "" /\
  Print c [v] = fmt.Sprint v /\
  (vs <> [] -> ws <> [] ->
     Print c (vs ++ ws) = Print c vs +:+ OFS c +:+ Print c ws).
Proof.
  split; [done|]. split; [done|].
  intros Hv Hw. unfold Print. cbn zeta. rewrite !Join_eq, map_app.
  apply Join_app; by destruct vs, ws.
Qed.

Lemma X4_witness :
  Print defaultContext ([AnyInt 1; AnyString "two"] ++ [AnyBool true; AnyNil])
  = Print defaultContext [AnyInt 1; AnyString "two"] +:+ OFS defaultContext
    +:+ Print defaultContext [AnyBool true; AnyNil].
Proof.
  apply (X4_Print_joins defaultContext [AnyInt 1; AnyString "two"]
           [AnyBool true; AnyNil] AnyNil); discriminate.
Defined.



Section Words.

Lemma Decode_ascii (b : ascii) (s : string) :
  byteZ b < 0x80 -> utf8.DecodeRuneInString (String b s) = (byteZ b, 1%nat).
Proof.
  intros Hb. unfold utf8.DecodeRuneInString.
  destruct (Z.ltb_spec (Z.of_nat (len (String b s))) 1) as [H|_];
    [cbn [String.length] in H; lia|].
  change (byteAt (String b s) 0) with (byteZ b).
  unfold utf8.first. destruct (Z.ltb_spec (byteZ b) 0x80); [|lia].
  change (utf8.as_ <=? utf8.as_) with true. cbn iota.
  change (- Z.land utf8.as_ 1) with 0. change (Z.lnot 0) with (-1).
  by rewrite Z.land_m1_r, Z.land_0_r, Z.lor_0_r.
Qed.

(** A string of ASCII bytes has its bytes as characters. *)
Lemma runes_from_chars (fuel : nat) :
  forall s, (len s <= fuel)%nat ->
    (forall b, In b (list_ascii_of_string s) -> byteZ b < 0x80) ->
    runes_from fuel s = chars s.
Proof.
  induction fuel as [|fuel IH]; intros s Hlen Hs.
  - by apply Nat.le_0_r, len_zero in Hlen as ->.
  - destruct s as [|b s]; [done|]. cbn [runes_from].
    rewrite Decode_ascii by (apply Hs; by left).
    cbn [string_take string_drop chars]. f_equal.
    apply IH; [cbn in Hlen; lia|]. intros b' Hb'. apply Hs. by right.
Qed.

Lemma chars_app (a b : string) : chars (a +:+ b) = chars a ++ chars b.
Proof.
  induction a as [|c a IH]; [by rewrite app_empty_l|].
  rewrite app_cons. cbn [chars app]. by rewrite IH.
Qed.

Lemma bytes_of_chars (s : string) : bytes_of (chars s) = s.
Proof.
  induction s as [|b s IH]; [done|]. cbn [chars bytes_of foldr snd].
  fold (bytes_of (chars s)). by rewrite IH.
Qed.

Lemma solid_not_space (b : ascii) :
  solid b = true -> unicode.IsSpace (byteZ b) = false.
Proof.
  unfold solid, strings.asciiSpace, utf8.RuneSelf, unicode.IsSpace, unicode.MaxLatin1.
  intros [H1 H2]%andb_true_iff. apply Z.ltb_lt in H1. apply negb_true_iff in H2.
  destruct (Z.leb_spec (byteZ b) 255); [|lia].
  repeat (apply orb_false_iff in H2 as [H2 ?]).
  repeat (apply orb_false_iff; split); try done; apply Z.eqb_neq; lia.
Qed.

Lemma solid_ascii (s : string) :
  solid_bytes s = true ->
  forall b, In b (list_ascii_of_string s) -> byteZ b < 0x80.
Proof.
  induction s as [|c s IH]; [done|]. cbn [solid_bytes list_ascii_of_string].
  intros [Hc Hs]%andb_true_iff b [<-|Hb]; [|by apply IH].
  apply andb_true_iff in Hc as [Hc _]. by apply Z.ltb_lt in Hc.
Qed.

Lemma chars_not_space (s : string) :
  solid_bytes s = true -> Forall not_space (chars s).
Proof.
  induction s as [|c s IH]; [constructor|]. cbn [solid_bytes chars].
  intros [Hc Hs]%andb_true_iff. constructor; [|by apply IH].
  by apply solid_not_space.
Qed.

Lemma ws_tokens_words (fs : list string) :
  Forall (fun f => word f = true) fs ->
  ws_tokens (chars (Join fs " ")) (map chars fs).
Proof.
  induction 1 as [|f fs Hf Hfs IH]; [apply ws_tokens_end; constructor|].
  apply andb_true_iff in Hf as [Hne Hsolid].
  assert (chars f <> []) as Hcf.
  { destruct f; [done|done]. }
  destruct fs as [|g fs].
  - cbn [Join map]. rewrite <-(app_nil_r (chars f)) at 1.
    apply ws_tokens_token; [done|by apply chars_not_space|done|].
    apply ws_tokens_end. constructor.
  - rewrite Join_cons, !chars_app. cbn [map].
    apply ws_tokens_token; [done|by apply chars_not_space|done|].
    cbn [chars app]. by apply ws_tokens_space.
Qed.

Lemma Join_ascii (fs : list string) (b : ascii) :
  Forall (fun f => word f = true) fs ->
  In b (list_ascii_of_string (Join fs " ")) -> byteZ b < 0x80.
Proof.
  induction 1 as [|f fs Hf Hfs IH]; [done|].
  apply andb_true_iff in Hf as [_ Hsolid].
  assert (forall s t, In b (list_ascii_of_string (s +:+ t))
            -> In b (list_ascii_of_string s) \/ In b (list_ascii_of_string t)) as Happ.
  { intros s t. induction s as [|c s IHs]; [rewrite app_empty_l; by right|].
    rewrite app_cons. cbn. intros [->|H]; [by left; left|].
    destruct (IHs H); [left; by right|by right]. }
  destruct fs as [|g fs]; [by apply solid_ascii|].
  rewrite Join_cons. intros [H|H]%Happ; [by apply (solid_ascii f)|].
  apply Happ in H as [H|H]; [|by apply IH].
  cbn in H. destruct H as [<-|[]]. done.
Qed.

Lemma Fields_Join_words (fs : list string) :
  Forall (fun f => word f = true) fs ->
  strings.Fields (Join fs " ") = fs.
Proof.
  intros Hfs. destruct (Fields_spec (Join fs " ")) as (ts & Hts & ->).
  unfold runes in Hts.
  rewrite runes_from_chars in Hts; [|done|intros b; by apply Join_ascii].
  rewrite (ws_tokens_unique _ _ _ Hts (ws_tokens_words fs Hfs)).
  rewrite map_map. rewrite <-(map_id fs) at 2. apply map_ext. apply bytes_of_chars.
Qed.

End Words.

(** X6. Under the default separators ([OFS] and [FS] both one space),
    when the text of every value is a non-empty string of ASCII bytes
    none of which is white space, [strings.Fields] of what [Print]
    returns gives back the texts of the values, and the engine that reads
    that line as a record finds them as [$1], [$2], ... with [NF] the
    number of values. *)
Theorem X6_Print_then_Fields (c c' : Context) (vs : list any) :
  OFS c = " " -> FS c' = " " ->
  Forall (fun v => word (fmt.Sprint v) = true) vs ->
  strings.Fields (Print c vs) = map fmt.Sprint vs /\
  Fields (updateRecord c' (Print c vs)) = Print c vs :: map fmt.Sprint vs /\
  NF (updateRecord c' (Print c vs)) = Z.of_nat (length vs).
Proof.
  intros Ho Hf Hvs.
  assert (strings.Fields (Print c vs) = map fmt.Sprint vs) as HF.
  { unfold Print. cbn zeta. rewrite Join_eq, Ho. apply Fields_Join_words.
    by apply Forall_map. }
  split; [done|].
  assert (splitLine (FS c') (Print c vs) = map fmt.Sprint vs) as Hsp.
  { unfold splitLine. by rewrite Hf. }
  split.
  - by rewrite updateRecord_Fields, Hsp.
  - by rewrite updateRecord_NF, Hsp, length_map.
Qed.

Lemma X6_witness :
  Fields (updateRecord defaultContext
            (Print defaultContext [AnyString "x"; AnyInt (-12); AnyBool true; AnyNil]))
  = ["x -12 true <nil>"; "x"; "-12"; "true"; "<nil>"].
Proof.
  apply (X6_Print_then_Fields defaultContext defaultContext
           [AnyString "x"; AnyInt (-12); AnyBool true; AnyNil]).
  - reflexivity.
  - reflexivity.
  - repeat constructor.
Defined.

(** ** The default program and the defaults of [Awk] *)

Section DefaultProgram.

Lemma unlines_cons (l : string) (ls : list string) :
  unlines (l :: ls) = l +:+ String "010" "" +:+ unlines ls.
Proof. done. Qed.

Lemma unlines_app (l1 l2 : list string) :
  unlines (l1 ++ l2) = unlines l1 +:+ unlines l2.
Proof.
  induction l1 as [|x l1 IH]; [by rewrite app_empty_l|].
  cbn [app]. by rewrite !unlines_cons, IH, !app_assoc_s.
Qed.

Lemma unlines_snoc (ls : list string) (l : string) :
  unlines (ls ++ [l]) = unlines ls +:+ l +:+ String "010" "".
Proof. rewrite unlines_app, unlines_cons. cbn [unlines foldr]. by rewrite app_empty_r. Qed.

Lemma scanLoop_SimpleProgram (st0 : run_state unit) (ls : list string) :
  stdout (scanLoop SimpleProgram st0 ls) = stdout st0 +:+ unlines ls.
Proof.
  revert ls. apply (scanLoop_invariant SimpleProgram
    (fun st ls => stdout st = stdout st0 +:+ unlines ls)).
  - by rewrite app_empty_r.
  - intros st ls l IH. unfold processLine. cbn.
    rewrite unlines_snoc, <-app_assoc_s, <-IH. unfold Fprintln. done.
Qed.

(** A run of a program whose [Begin] and [End] are the default ones is
    its scanning loop. *)
Lemma Executor_plain {P} (c : command P) (p : P) (stdin : Input) (out : string) :
  (forall q ctx, Begin (program c) q ctx = (q, ctx, None)) ->
  (forall q ctx, End_ (program c) q ctx = (q, ctx, ("", None))) ->
  let st := scanLoop (program c) (mkRun p (initContext (inputs_Flags c)) out
                                    [CallBegin (initContext (inputs_Flags c))
                                               (initContext (inputs_Flags c)) None])
                     (lines stdin) in
  stdout (Executor c p stdin out).1 = stdout st /\
  (Executor c p stdin out).2 = scanner_Err stdin.
Proof.
  intros HB HE. cbn zeta. unfold Executor. rewrite HB.
  destruct (scanner_Err stdin); [done|]. rewrite HE. done.
Qed.

End DefaultProgram.

(** X7. A run of [Awk(SimpleProgram{})], whatever the options, copies
    its input: it appends to [stdout] every line read, in order, each
    followed by one newline, and nothing else; an empty line gives an
    empty line.  The run returns the error of the scanner, nil at the end
    of the input; the lines read before a failure are written. *)
Theorem X7_SimpleProgram_copies (fl : flags) (stdin : Input) (out : string) :
  let r := Executor (Awk SimpleProgram fl) tt stdin out in
  stdout r.1 = out +:+ unlines (lines stdin) /\
  r.2 = scanner_Err stdin.
Proof.
  cbn zeta.
  destruct (Executor_plain (Awk SimpleProgram fl) tt stdin out) as [-> ->]; try done.
  split; [|done]. by rewrite scanLoop_SimpleProgram.
Qed.

Section Options.

Lemma Awk_flags {P} (prog : Program P) (fl : flags) :
  inputs_Flags (Awk prog fl)
  = mkFlags (if String.eqb (FieldSeparator fl) "" then " " else FieldSeparator fl)
            (if String.eqb (OutputFieldSeparator fl) "" then " "
             else OutputFieldSeparator fl)
            (flags_Variables fl).
Proof.
  unfold Awk. cbn [inputs_Flags]. destruct fl as [f o v]. cbn.
  destruct (String.eqb f ""); cbn; by destruct (String.eqb o "").
Qed.

Lemma configure_snoc (ps : list parameter) (o : parameter) (fl : flags) :
  configure (ps ++ [o]) fl = Configure o (configure ps fl).
Proof. unfold configure. by rewrite fold_left_app. Qed.

Lemma copyVariables_lookup (m : option (gmap string any)) (k : string) :
  copyVariables m !! k = m ≫= (.!! k).
Proof.
  destruct m as [m|]; [by rewrite copyVariables_spec|]. cbn. by rewrite lookup_empty.
Qed.

Lemma Var_initContext (fl : flags) (k : string) :
  Var (initContext fl) k = default AnyNil (flags_Variables fl ≫= (.!! k)).
Proof. unfold Var. cbn [Variables initContext]. by rewrite copyVariables_lookup. Qed.

End Options.

(** X8. The command made by [Awk] never has an empty separator: an empty
    [FieldSeparator] or [OutputFieldSeparator] becomes one space, a
    non-empty one is kept.  The variables of the flags and the program
    are kept as they are, and applying the defaults a second time changes
    nothing. *)
Theorem X8_Awk_defaults {P} (prog : Program P) (fl : flags) :
  let fl' := inputs_Flags (Awk prog fl) in
  FieldSeparator fl' <> "" /\ OutputFieldSeparator fl' <> "" /\
  (FieldSeparator fl <> "" -> FieldSeparator fl' = FieldSeparator fl) /\
  (OutputFieldSeparator fl <> "" -> OutputFieldSeparator fl' = OutputFieldSeparator fl) /\
  (FieldSeparator fl = "" -> FieldSeparator fl' = " ") /\
  (OutputFieldSeparator fl = "" -> OutputFieldSeparator fl' = " ") /\
  flags_Variables fl' = flags_Variables fl /\
  program (Awk prog fl) = prog /\
  Awk prog fl' = Awk prog fl.
Proof.
  cbn zeta.
  assert (forall s, (if String.eqb s "" then " " else s) <> "") as Hne.
  { intros s. by destruct (String.eqb_spec s ""). }
  assert (forall s, s <> "" -> (if String.eqb s "" then " " else s) = s) as Hkeep.
  { intros s ?. by destruct (String.eqb_spec s ""). }
  assert (Awk prog (inputs_Flags (Awk prog fl)) = Awk prog fl) as Hidem.
  { change (mkCommand prog (inputs_Flags (Awk prog (inputs_Flags (Awk prog fl))))
            = mkCommand prog (inputs_Flags (Awk prog fl))).
    f_equal. rewrite !Awk_flags.
    cbn [FieldSeparator OutputFieldSeparator flags_Variables].
    by rewrite (Hkeep _ (Hne (FieldSeparator fl))),
               (Hkeep _ (Hne (OutputFieldSeparator fl))). }
  rewrite Hidem, Awk_flags. cbn [FieldSeparator OutputFieldSeparator flags_Variables].
  repeat split; try done; try by apply Hkeep.
  - by intros ->.
  - by intros ->.
Qed.

Lemma X8_witness :
  FieldSeparator (inputs_Flags (Awk SimpleProgram (mkFlags "" ":" None))) = " " /\
  OutputFieldSeparator (inputs_Flags (Awk SimpleProgram (mkFlags "" ":" None))) = ":".
Proof.
  pose proof (X8_Awk_defaults SimpleProgram (mkFlags "" ":" None)) as H.
  cbn zeta in H. destruct H as (_ & _ & _ & H2 & H1 & _).
  split; [apply H1; reflexivity|apply H2; discriminate].
Defined.

(** ** What the engine hands from one hook to the next *)

Section Settings.

Lemma same_settings_update (c : Context) (line : string) :
  same_settings (updateRecord c line) c.
Proof. apply updateRecord_rest. Qed.

Lemma chained_settings (c0 : Context) (cs : list call) :
  chained c0 cs -> settings_kept c0 cs.
Proof.
  revert c0. induction cs as [|e cs IH]; intros c0; [done|].
  cbn [chained settings_kept]. intros [He Hcs]. split; [|by apply IH].
  destruct e; try (by rewrite He).
  destruct He as [line ->]. apply same_settings_update.
Qed.

End Settings.

(** X9. The engine itself never changes [FS], [OFS], [RS] or the
    variables: in every run, however it ends, each hook is handed these
    four exactly as the hook invoked before it left them, and [Begin] as
    the options set them.  A variable that one hook sets is therefore
    what [Var] returns in the next one, also across records, and a hook
    that assigns [FS] changes how the following records are split. *)
Theorem X9_settings_persist {P} (c : command P) (p : P) (stdin : Input) (out : string) :
  let c0 := initContext (inputs_Flags c) in
  let cs := calls (Executor c p stdin out).1 in
  settings_kept c0 cs /\
  (forall pre e1 e2 post name,
     cs = pre ++ e1 :: e2 :: post ->
     same_settings (call_in e2) (call_out e1) /\
     Var (call_in e2) name = Var (call_out e1) name) /\
  (forall ctx line,
     Fields (updateRecord ctx line) = line :: splitLine (FS ctx) line).
Proof.
  cbn zeta. pose proof (chained_settings _ _ (Executor_chained c p stdin out)) as H.
  split; [done|]. split; [|done].
  intros pre e1 e2 post name E. rewrite E in H. clear E.
  revert H. generalize (initContext (inputs_Flags c)).
  induction pre as [|e pre IH]; intros c0 H.
  - destruct H as (_ & H & _). split; [done|].
    destruct H as (_ & _ & _ & Hv). unfold Var. by rewrite Hv.
  - destruct H as (_ & H). by apply (IH _ H).
Qed.

Lemma X9_witness :
  match calls (Executor (Awk totalProgram defaultFlags) tt (mkInput ["a"] None) "").1 with
  | _ :: e1 :: e2 :: _ => Var (call_in e2) "total" = Var (call_out e1) "total"
  | _ => False
  end.
Proof.
  pose proof (proj1 (proj2 (X9_settings_persist (Awk totalProgram defaultFlags) tt
                              (mkInput ["a"] None) ""))) as H.
  cbn zeta in H.
  destruct (calls (Executor (Awk totalProgram defaultFlags) tt (mkInput ["a"] None) "").1)
    as [|e0 [|e1 [|e2 post]]] eqn:E; try (vm_compute in E; discriminate E).
  apply (H [e0] e1 e2 post "total" eq_refl).
Defined.

(** X10. What a hook writes into the fields does not outlive the record:
    the update for the next line replaces [Fields] and [NF] by the split
    of that line, so it gives the same context whether or not [SetField]
    was called before, and whatever [Fields] and [NF] held.  What a hook
    writes with [SetVar] is still there after the update. *)
Theorem X10_field_edits_end_with_record (ctx : Context) (line : string) :
  (forall i v, updateRecord (SetField ctx i v) line = updateRecord ctx line) /\
  (forall fs n, updateRecord (set_NF (set_Fields ctx fs) n) line = updateRecord ctx line) /\
  (forall name v, Var (updateRecord (SetVar ctx name v) line) name = v) /\
  (forall name v i w,
     Var (updateRecord (SetField (SetVar ctx name v) i w) line) name = v).
Proof.
  assert (forall c i v, updateRecord (SetField c i v) line = updateRecord c line) as HS.
  { intros c i v. destruct (Z.lt_ge_cases i 0) as [Hi|Hi].
    - by rewrite SetField_negative.
    - by rewrite SetField_eq. }
  assert (forall c name v, Var (updateRecord (SetVar c name v) line) name = v) as HV.
  { intros c name v. unfold Var.
    rewrite (proj2 (proj2 (proj2 (updateRecord_rest _ line)))). cbn.
    by rewrite lookup_insert_eq. }
  split; [apply HS|]. split; [done|]. split; [apply HV|].
  intros name v i w. by rewrite HS.
Qed.

(** ** The options of [opt.go] *)

Section OptionsInOrder.

Lemma last_FieldSeparator_snoc (ps : list parameter) (o : parameter) :
  last_FieldSeparator (ps ++ [o])
  = match o with OptFieldSeparator f => Some f | _ => last_FieldSeparator ps end.
Proof.
  unfold last_FieldSeparator. rewrite omap_app. destruct o; cbn;
    rewrite ?app_nil_r, ?last_snoc; done.
Qed.

Lemma last_OutputFieldSeparator_snoc (ps : list parameter) (o : parameter) :
  last_OutputFieldSeparator (ps ++ [o])
  = match o with
    | OptOutputFieldSeparator f => Some f
    | _ => last_OutputFieldSeparator ps
    end.
Proof.
  unfold last_OutputFieldSeparator. rewrite omap_app. destruct o; cbn;
    rewrite ?app_nil_r, ?last_snoc; done.
Qed.

Lemma last_Variable_snoc (name : string) (ps : list parameter) (o : parameter) :
  last_Variable name (ps ++ [o])
  = match o with
    | OptVariable n v => if String.eqb n name then Some v else last_Variable name ps
    | _ => last_Variable name ps
    end.
Proof.
  unfold last_Variable. rewrite omap_app. destruct o as [f|f|n v]; cbn;
    rewrite ?app_nil_r; try done.
  destruct (String.eqb n name); cbn; rewrite ?app_nil_r, ?last_snoc; done.
Qed.

Lemma Variable_Configure_lookup (n name : string) (v : any) (fl : flags) :
  flags_Variables (Variable_Configure n v fl) ≫= (.!! name)
  = if String.eqb n name then Some v else flags_Variables fl ≫= (.!! name).
Proof.
  cbn. destruct (String.eqb_spec n name) as [->|Hne].
  - by rewrite lookup_insert_eq.
  - rewrite lookup_insert_ne by done. destruct (flags_Variables fl); [done|].
    cbn. by rewrite lookup_empty.
Qed.

Lemma configure_FieldSeparator (ps : list parameter) (fl : flags) :
  FieldSeparator (configure ps fl)
  = default (FieldSeparator fl) (last_FieldSeparator ps).
Proof.
  induction ps as [|o ps IH] using rev_ind; [done|].
  rewrite configure_snoc, last_FieldSeparator_snoc. by destruct o.
Qed.

Lemma configure_OutputFieldSeparator (ps : list parameter) (fl : flags) :
  OutputFieldSeparator (configure ps fl)
  = default (OutputFieldSeparator fl) (last_OutputFieldSeparator ps).
Proof.
  induction ps as [|o ps IH] using rev_ind; [done|].
  rewrite configure_snoc, last_OutputFieldSeparator_snoc. by destruct o.
Qed.

Lemma configure_Variables (ps : list parameter) (fl : flags) (name : string) :
  flags_Variables (configure ps fl) ≫= (.!! name)
  = match last_Variable name ps with
    | Some v => Some v
    | None => flags_Variables fl ≫= (.!! name)
    end.
Proof.
  induction ps as [|o ps IH] using rev_ind; [done|].
  rewrite configure_snoc, last_Variable_snoc. destruct o as [f|f|n v]; try done.
  unfold Configure. rewrite Variable_Configure_lookup.
  by destruct (String.eqb n name).
Qed.

End OptionsInOrder.

(** X11. When options are applied one after the other, the last option
    of a kind wins: the flags hold the separator of the last
    [FieldSeparator] option (and of the last [OutputFieldSeparator]
    option), or the one they held if there is none, and a variable has
    the value of the last [Variable] option with its name, or the one it
    had if there is none.  Options of different kinds, and variables of
    different names, do not disturb each other; the map of the variables
    is made by the first [Variable] option when the flags have none. *)
Theorem X11_options_last_wins (ps : list parameter) (fl : flags) :
  FieldSeparator (configure ps fl)
  = default (FieldSeparator fl) (last_FieldSeparator ps) /\
  OutputFieldSeparator (configure ps fl)
  = default (OutputFieldSeparator fl) (last_OutputFieldSeparator ps) /\
  forall name,
    flags_Variables (configure ps fl) ≫= (.!! name)
    = match last_Variable name ps with
      | Some v => Some v
      | None => flags_Variables fl ≫= (.!! name)
      end.
Proof.
  split; [apply configure_FieldSeparator|].
  split; [apply configure_OutputFieldSeparator|].
  intros name. apply configure_Variables.
Qed.

(** X12. The options reach the program: in a run of the command that
    [Awk] makes of a program and of flags configured by options, [Begin]
    is invoked once, on a context whose [FS] and [OFS] are those of the
    last separator options (one space when there is none in options or
    flags, or when it is empty) and in which [Var] returns, for every
    name, the value of the last [Variable] option with that name, and nil
    for a name that no option and no flag sets. *)
Theorem X12_options_reach_Begin {P} (prog : Program P) (p : P) (stdin : Input)
    (out : string) (ps : list parameter) (fl : flags) :
  let c := Awk prog (configure ps fl) in
  let c0 := initContext (inputs_Flags c) in
  let nonempty := fun s : string => if String.eqb s "" then " " else s in
  begin_inputs (calls (Executor c p stdin out).1) = [c0] /\
  FS c0 = nonempty (default (FieldSeparator fl) (last_FieldSeparator ps)) /\
  OFS c0 = nonempty (default (OutputFieldSeparator fl) (last_OutputFieldSeparator ps)) /\
  (forall name,
     Var c0 name
     = match last_Variable name ps with
       | Some v => v
       | None => default AnyNil (flags_Variables fl ≫= (.!! name))
       end) /\
  forall name value,
    Var (initContext (inputs_Flags (Awk prog (Variable_Configure name value fl)))) name
    = value.
Proof.
  cbn zeta.
  pose proof (configure_FieldSeparator ps fl) as H1.
  pose proof (configure_OutputFieldSeparator ps fl) as H2.
  pose proof (configure_Variables ps fl) as H3.
  split; [|split; [|split; [|split]]].
  - run_cases (Awk prog (configure ps fl)) p stdin out; try done.
    + by rewrite (proj1 (scanLoop_begin_end _ _ _)).
    + by rewrite begin_inputs_app, (proj1 (scanLoop_begin_end _ _ _)).
  - rewrite Awk_flags. cbn. by rewrite H1.
  - rewrite Awk_flags. cbn. by rewrite H2.
  - intros name. rewrite Var_initContext, Awk_flags. cbn [flags_Variables].
    rewrite H3. by destruct (last_Variable name ps).
  - intros name value. rewrite Var_initContext, Awk_flags. cbn [flags_Variables].
    rewrite Variable_Configure_lookup. by rewrite String.eqb_refl.
Qed.

(** ** Runs of the programs of [command_test.go] *)

Section TestPrograms.

Lemma filter_app_s (f : string -> bool) (l1 l2 : list string) :
  List.filter f (l1 ++ l2) = List.filter f l1 ++ List.filter f l2.
Proof. apply List.filter_app. Qed.

Lemma Itoa_nonempty (i : Z) : strconv.Itoa i <> "".
Proof.
  unfold strconv.Itoa.
  assert (forall d, NilZero.string_of_uint d <> "") as H.
  { intros d. by destruct d. }
  destruct (Z.to_int i); cbn; [apply H|done].
Qed.

End TestPrograms.

(** X13. A run of [ConditionalProgram] is a filter: it writes, in order
    and each followed by one newline, exactly the lines that start with
    [include:], and nothing for the others; it returns the error of the
    scanner. *)
Theorem X13_ConditionalProgram_filters (fl : flags) (stdin : Input) (out : string) :
  let r := Executor (Awk ConditionalProgram fl) tt stdin out in
  stdout r.1
  = out +:+ unlines (List.filter (fun l => strings.HasPrefix l "include:") (lines stdin)) /\
  r.2 = scanner_Err stdin.
Proof.
  cbn zeta.
  destruct (Executor_plain (Awk ConditionalProgram fl) tt stdin out) as [-> ->]; try done.
  split; [|done].
  set (st0 := mkRun _ _ _ _).
  apply (scanLoop_invariant ConditionalProgram
    (fun st ls => stdout st
                  = out +:+ unlines (List.filter (fun l => strings.HasPrefix l "include:") ls))).
  - by rewrite app_empty_r.
  - intros st ls l IH. rewrite filter_app_s, unlines_app, <-app_assoc_s, <-IH.
    unfold processLine. cbn [Condition Action ConditionalProgram SimpleProgram List.filter].
    change (Field (updateRecord (awkCtx st) l) 0) with l.
    destruct (strings.HasPrefix l "include:"); cbn [negb stdout];
      [|by rewrite app_empty_r].
    unfold Fprintln. cbn [unlines foldr]. by rewrite app_empty_r.
Qed.

(** X14. A run of [FieldExtractorProgram] writes one line for every line
    read: the field at [fieldIndex] of that line as the command splits
    it ([$0], the line itself, at index 0), and the empty line when the
    line has no field at that index or the index is negative.  It
    returns the error of the scanner. *)
Theorem X14_FieldExtractorProgram_column (fl : flags) (fieldIndex : Z) (stdin : Input)
    (out : string) :
  let c := Awk FieldExtractorProgram fl in
  let r := Executor c fieldIndex stdin out in
  let fs := FieldSeparator (inputs_Flags c) in
  stdout r.1
  = out +:+ unlines (map (fun l => if fieldIndex <? 0 then ""
                                   else default "" ((l :: splitLine fs l) !! Z.to_nat fieldIndex))
                         (lines stdin)) /\
  r.2 = scanner_Err stdin.
Proof.
  cbn zeta.
  destruct (Executor_plain (Awk FieldExtractorProgram fl) fieldIndex stdin out) as [-> ->];
    try done.
  split; [|done].
  set (c0 := initContext _). set (st0 := mkRun _ _ _ _).
  set (f := fun l : string => _).
  assert (forall ls,
            let st := scanLoop FieldExtractorProgram st0 ls in
            stdout st = out +:+ unlines (map f ls) /\ FS (awkCtx st) = FS c0 /\
            prog_state st = fieldIndex) as H.
  { apply (scanLoop_invariant FieldExtractorProgram
      (fun st ls => stdout st = out +:+ unlines (map f ls) /\ FS (awkCtx st) = FS c0 /\
                    prog_state st = fieldIndex)).
    - by rewrite app_empty_r.
    - intros st ls l (IH1 & IH2 & IH3). unfold processLine.
      cbn [Condition Action FieldExtractorProgram negb stdout awkCtx prog_state].
      rewrite IH3.
      split; [|split; [by rewrite (proj1 (updateRecord_rest _ _))|done]].
      rewrite map_app, unlines_app, <-app_assoc_s, <-IH1. unfold Fprintln.
      cbn [map unlines foldr]. rewrite app_empty_r. do 2 f_equal.
      unfold f. destruct (Z.ltb_spec fieldIndex 0).
      + by rewrite Field_out_of_range by lia.
      + by rewrite Field_lookup, updateRecord_Fields, IH2 by done. }
  apply H.
Qed.

(** X15. A run of [CountingProgram] that starts with a count of at least
    zero and reads fewer lines than would overflow the count writes
    nothing per line and ends with the count increased by the number of
    lines read.  When the scanner reports no error, [End] writes the
    single line [Total lines: n] with that count in decimal; when it
    reports one, nothing is written and the error is returned. *)
Theorem X15_CountingProgram_total (fl : flags) (count : Z) (stdin : Input) (out : string) :
  0 <= count -> count + Z.of_nat (length (lines stdin)) < 2 ^ 63 ->
  let r := Executor (Awk CountingProgram fl) count stdin out in
  prog_state r.1 = count + Z.of_nat (length (lines stdin)) /\
  r.2 = scanner_Err stdin /\
  stdout r.1
  = match scanner_Err stdin with
    | Some _ => out
    | None =>
        out +:+ "Total lines: "
            +:+ strconv.Itoa (count + Z.of_nat (length (lines stdin)))
            +:+ String "010" ""
    end.
Proof.
  intros H0 Hn. cbn zeta.
  set (c0 := initContext (inputs_Flags (Awk CountingProgram fl))).
  assert (forall ls,
            count + Z.of_nat (length ls) < 2 ^ 63 ->
            let st := scanLoop CountingProgram (mkRun count c0 out [CallBegin c0 c0 None]) ls in
            stdout st = out /\ prog_state st = count + Z.of_nat (length ls)) as H.
  { induction ls as [|l ls IH] using rev_ind; intros Hl; [cbn; split; [done|lia]|].
    rewrite length_app in Hl. cbn [length] in Hl.
    rewrite scanLoop_snoc. destruct IH as [IH1 IH2]; [lia|].
    unfold processLine. cbn [Condition Action CountingProgram negb stdout prog_state].
    split; [done|]. rewrite IH2, wrap64_small, length_app by lia. cbn [length]. lia. }
  destruct (H (lines stdin) Hn) as [H1 H2]. clear H.
  unfold Executor. cbn [program Awk Begin CountingProgram]. fold c0.
  destruct (scanner_Err stdin) as [e|]; [done|].
  cbn [End_ CountingProgram]. rewrite H2.
  assert (String.eqb ("Total lines: " +:+ strconv.Itoa (count + Z.of_nat (length (lines stdin))))
                     "" = false) as ->.
  { by rewrite app_cons. }
  cbn [negb fst snd prog_state stdout]. unfold Fprintln. by rewrite H1.
Qed.

Lemma X15_witness :
  stdout (Executor (Awk CountingProgram defaultFlags) 0
            (mkInput ["line1"; "line2"; "line3"] None) "").1
  = "Total lines: 3" +:+ String "010" "".
Proof.
  pose proof (X15_CountingProgram_total defaultFlags 0
                (mkInput ["line1"; "line2"; "line3"] None) "") as H.
  cbn zeta in H. destruct H as (_ & _ & H); [lia|vm_compute; reflexivity|].
  rewrite H. reflexivity.
Defined.

(** X16. A run of [LineNumberProgram] on fewer than 2^63 lines writes
    every line read after its number in the input, counted from 1, a
    colon and a space; it returns the error of the scanner. *)
Theorem X16_LineNumberProgram_numbers (fl : flags) (stdin : Input) (out : string) :
  Z.of_nat (length (lines stdin)) < 2 ^ 63 ->
  let r := Executor (Awk LineNumberProgram fl) tt stdin out in
  stdout r.1
  = out +:+ unlines (zip_with (fun i l => strconv.Itoa (Z.of_nat i) +:+ ": " +:+ l)
                              (seq 1 (length (lines stdin))) (lines stdin)) /\
  r.2 = scanner_Err stdin.
Proof.
  intros Hn. cbn zeta.
  destruct (Executor_plain (Awk LineNumberProgram fl) tt stdin out) as [-> ->]; try done.
  split; [|done].
  set (c0 := initContext _). set (st0 := mkRun _ _ _ _).
  assert (forall ls,
            Z.of_nat (length ls) < 2 ^ 63 ->
            let st := scanLoop LineNumberProgram st0 ls in
            stdout st
            = out +:+ unlines (zip_with (fun i l => strconv.Itoa (Z.of_nat i) +:+ ": " +:+ l)
                                        (seq 1 (length ls)) ls) /\
            NR (awkCtx st) = Z.of_nat (length ls)) as H.
  { induction ls as [|l ls IH] using rev_ind; intros Hl.
    { cbn. by rewrite app_empty_r. }
    rewrite length_app in Hl. cbn [length] in Hl.
    rewrite scanLoop_snoc. destruct IH as [IH1 IH2]; [lia|].
    unfold processLine.
    cbn [Condition Action LineNumberProgram SimpleProgram negb stdout awkCtx].
    rewrite updateRecord_NR, IH2, wrap64_small by lia.
    change (Field (updateRecord _ l) 0) with l.
    split; [|rewrite length_app; cbn [length]; lia].
    rewrite length_app. cbn [length]. rewrite seq_app. cbn [seq].
    rewrite zip_with_app by (by rewrite length_seq).
    rewrite unlines_app. unfold Fprintln. rewrite IH1, !app_assoc_s.
    cbn [zip_with unlines foldr]. rewrite app_empty_r, !app_assoc_s.
    by replace (Z.of_nat (length ls) + 1) with (Z.of_nat (1 + length ls)) by lia. }
  by apply H.
Qed.

Lemma X16_witness :
  stdout (Executor (Awk LineNumberProgram defaultFlags) tt
            (mkInput ["first"; "second"; "third"] None) "").1
  = unlines ["1: first"; "2: second"; "3: third"].
Proof.
  pose proof (X16_LineNumberProgram_numbers defaultFlags
                (mkInput ["first"; "second"; "third"] None) "") as H.
  cbn zeta in H. destruct H as [H _]; [vm_compute; reflexivity|].
  rewrite H. reflexivity.
Defined.

(** ** The interpreter of script strings ([awk.go]) *)

Section Interpreter.

Lemma slice_get_Some (l : list string) (i : Z) :
  0 <= i < Z.of_nat (length l) ->
  exists x, slice_get l i = Some x /\ l !! Z.to_nat i = Some x.
Proof.
  intros Hi. unfold slice_get.
  destruct (Z.ltb_spec i 0); [lia|]. destruct (Z.leb_spec (Z.of_nat (length l)) i); [lia|].
  cbn. destruct (l !! Z.to_nat i) as [x|] eqn:E; [by exists x|].
  apply lookup_ge_None in E. lia.
Qed.

Lemma HasPrefix_len (s p : string) : strings.HasPrefix s p = true -> (len p <= len s)%nat.
Proof. intros [r ->]%HasPrefix_true. rewrite len_app. lia. Qed.

(** What the action [print $d] returns, for every text [d]. *)
Lemma executeAction_print_field (line : string) (fields : list string) (lineNum : Z)
    (d : string) :
  awk.executeAction line fields lineNum ("print $" +:+ d)
  = if String.eqb d "0" then line
    else if String.eqb d "1" then default "" (fields !! 0%nat)
    else if String.eqb d "2" then default "" (fields !! 1%nat)
    else match strconv.Atoi d with
         | Some n =>
             if (0 <? n) && (n <=? Z.of_nat (length fields))
             then default line (fields !! Z.to_nat (n - 1))
             else line
         | None => line
         end.
Proof.
  unfold awk.executeAction, awk.executeAction_checked.
  rewrite !app_cons, app_empty_l.
  change (String.eqb (String "p" (String "r" (String "i" (String "n" (String "t"
            (String " " (String "$" d))))))) "print") with false.
  change (String.eqb (String "p" (String "r" (String "i" (String "n" (String "t"
            (String " " (String "$" d))))))) "print NF") with false.
  change (String.eqb (String "p" (String "r" (String "i" (String "n" (String "t"
            (String " " (String "$" d))))))) "print NR") with false.
  change (String.eqb (String "p" (String "r" (String "i" (String "n" (String "t"
            (String " " (String "$" d))))))) "print $0") with (String.eqb d "0").
  change (String.eqb (String "p" (String "r" (String "i" (String "n" (String "t"
            (String " " (String "$" d))))))) "print $1") with (String.eqb d "1").
  change (String.eqb (String "p" (String "r" (String "i" (String "n" (String "t"
            (String " " (String "$" d))))))) "print $2") with (String.eqb d "2").
  destruct (String.eqb d "0"); [done|].
  destruct (String.eqb d "1").
  { destruct (Z.ltb_spec 0 (Z.of_nat (length fields))) as [H|H].
    - destruct (slice_get_Some fields 0 ltac:(lia)) as (x & -> & Hx).
      change (Z.to_nat 0) with 0%nat in Hx. by rewrite Hx.
    - destruct fields; [done|]. cbn [length] in H. lia. }
  destruct (String.eqb d "2").
  { destruct (Z.ltb_spec 1 (Z.of_nat (length fields))) as [H|H].
    - destruct (slice_get_Some fields 1 ltac:(lia)) as (x & -> & Hx).
      change (Z.to_nat 1) with 1%nat in Hx. by rewrite Hx.
    - destruct fields as [|? [|? ?]]; [done|done|]. cbn [length] in H. lia. }
  assert (strings.HasPrefix (String "p" (String "r" (String "i" (String "n" (String "t"
            (String " " (String "$" d))))))) "print $" = true) as ->.
  { apply HasPrefix_true. exists d. by rewrite !app_cons, app_empty_l. }
  cbn [String.length Nat.leb string_drop].
  destruct (strconv.Atoi d) as [n|]; [|done].
  destruct (Z.ltb_spec 0 n); [|done].
  destruct (Z.leb_spec n (Z.of_nat (length fields))); [|done]. cbn [andb].
  destruct (slice_get_Some fields (n - 1) ltac:(lia)) as (x & -> & ->). done.
Qed.

Lemma Contains_spec (s substr : string) :
  strings.Contains s substr = true <-> exists a b, s = a +:+ substr +:+ b.
Proof.
  unfold strings.Contains. split.
  - intros H%Z.leb_le. destruct (Index_found substr s H) as (a & b & _ & E & _).
    by exists a, b.
  - intros (a & b & E). apply Z.leb_le.
    destruct (Index_spec substr s) as [[_ Hno]|(a' & b' & -> & _)]; [|lia].
    exfalso. apply (Hno (len a)). by exists a, b.
Qed.

Lemma processRecord_print (c : awk.command) (pattern action : string)
    (n : Z) (out line : string) :
  action = "print" \/ action = "print $0" ->
  awk.processRecord c (awk.mkAwkProgram pattern action) (n, out) line
  = (wrap64 (n + 1),
     out +:+ unlines (List.filter
                        (fun l => negb (String.eqb l "") && awk.matchesPattern l [] pattern)
                        [line])).
Proof.
  intros Ha. unfold awk.processRecord. cbn [awk.Pattern awk.Action List.filter].
  unfold awk.matchesPattern at 1 2.
  destruct (if String.eqb pattern "" then true else strings.Contains line pattern).
  - assert (awk.executeAction line
              (awk.splitFields (awk.FieldSeparator (awk.cmd_Flags c)) line)
              (wrap64 (n + 1)) action = line) as ->.
    { by destruct Ha as [-> | ->]. }
    destruct (String.eqb line ""); cbn [negb andb]; [by rewrite app_empty_r|].
    unfold Fprintln. rewrite unlines_cons. cbn [unlines foldr]. by rewrite app_empty_r.
  - rewrite andb_false_r. by rewrite app_empty_r.
Qed.

End Interpreter.

(** X17. [executeAction] returns for every line, field list, line number
    and action: none of its index expressions and not its slice
    expression is ever out of range. *)
Theorem X17_executeAction_total (line : string) (fields : list string)
    (lineNum : Z) (action : string) :
  awk.executeAction_checked line fields lineNum action
  = Some (awk.executeAction line fields lineNum action).
Proof.
  unfold awk.executeAction.
  destruct (awk.executeAction_checked line fields lineNum action) as [r|] eqn:E; [done|].
  exfalso. unfold awk.executeAction_checked in E.
  repeat (match type of E with
          | (if String.eqb ?a ?b then _ else _) = _ => destruct (String.eqb a b)
          end; try done).
  - destruct (Z.ltb_spec 0 (Z.of_nat (length fields))); [|done].
    destruct (slice_get_Some fields 0 ltac:(lia)) as (x & Hx & _). by rewrite Hx in E.
  - destruct (Z.ltb_spec 1 (Z.of_nat (length fields))); [|done].
    destruct (slice_get_Some fields 1 ltac:(lia)) as (x & Hx & _). by rewrite Hx in E.
  - destruct (strings.HasPrefix action "print $") eqn:Hp; [|done].
    apply HasPrefix_len in Hp. cbn in Hp.
    destruct (Nat.leb_spec 7 (len action)); [|lia].
    destruct (strconv.Atoi _) as [n|]; [|done].
    destruct (Z.ltb_spec 0 n); [|done].
    destruct (Z.leb_spec n (Z.of_nat (length fields))); [|done].
    cbn in E.
    destruct (slice_get_Some fields (n - 1) ltac:(lia)) as (x & Hx & _). by rewrite Hx in E.
Qed.

(** X18. For an action [print $d] where [d] is read by [strconv.Atoi]
    as the number [n] (an optional sign and decimal digits): when
    [1 <= n <= len(fields)] the result is the [n]-th field, however the
    number is written.  When [n] is out of that range the result depends
    on how it is written: the empty string for the actions [print $1]
    and [print $2], and the whole line for every other text, [print $0]
    and numbers beyond the last field included. *)
Theorem X18_print_field (line : string) (fields : list string) (lineNum : Z)
    (d : string) (n : Z) :
  strconv.Atoi d = Some n ->
  let r := awk.executeAction line fields lineNum ("print $" +:+ d) in
  (1 <= n <= Z.of_nat (length fields) -> fields !! Z.to_nat (n - 1) = Some r) /\
  (n <= 0 \/ Z.of_nat (length fields) < n ->
     r = if String.eqb d "1" || String.eqb d "2" then "" else line).
Proof.
  intros Hd. cbn zeta. rewrite executeAction_print_field, Hd.
  destruct (String.eqb_spec d "0") as [->|_].
  { vm_compute in Hd. injection Hd as <-. split; [lia|done]. }
  destruct (String.eqb_spec d "1") as [->|_].
  { vm_compute in Hd. injection Hd as <-. cbn [orb]. split.
    - intros H. destruct fields; [cbn in H; lia|done].
    - intros [?|H]; [lia|]. destruct fields; [done|]. cbn [length] in H. lia. }
  destruct (String.eqb_spec d "2") as [->|_].
  { vm_compute in Hd. injection Hd as <-. cbn [orb]. split.
    - intros H. destruct fields as [|? [|? ?]]; cbn in H; try lia. done.
    - intros [?|H]; [lia|]. destruct fields as [|? [|? ?]]; try done.
      cbn [length] in H. lia. }
  cbn [orb]. split.
  - intros H. destruct (Z.ltb_spec 0 n); [|lia].
    destruct (Z.leb_spec n (Z.of_nat (length fields))); [|lia]. cbn [andb].
    destruct (slice_get_Some fields (n - 1) ltac:(lia)) as (x & _ & ->). done.
  - intros H. destruct (Z.ltb_spec 0 n); [|done].
    destruct (Z.leb_spec n (Z.of_nat (length fields))); [lia|done].
Qed.

Lemma X18_witness :
  ["a"; "b"; "c"] !! Z.to_nat (3 - 1)
  = Some (awk.executeAction "a b c" ["a"; "b"; "c"] 1 ("print $" +:+ "+3")) /\
  awk.executeAction "a" ["a"] 1 ("print $" +:+ "2") = "" /\
  awk.executeAction "a" ["a"] 1 ("print $" +:+ "3") = "a".
Proof.
  split; [|split].
  - apply (X18_print_field "a b c" ["a"; "b"; "c"] 1 "+3" 3); [reflexivity|].
    cbn. lia.
  - apply (X18_print_field "a" ["a"] 1 "2" 2); [reflexivity|]. right. cbn. lia.
  - apply (X18_print_field "a" ["a"] 1 "3" 3); [reflexivity|]. right. cbn. lia.
Defined.

(** X19. An action that the interpreter does not know is not an error:
    apart from [print NF] and [print NR], every action that does not
    start with [print $], or that starts with it but is followed by
    something [strconv.Atoi] does not read as a number, returns the
    whole line, as [print] does.  The action [print $1, $2] is an
    example. *)
Theorem X19_unknown_action_prints_line (line : string) (fields : list string)
    (lineNum : Z) (action : string) :
  action <> "print NF" -> action <> "print NR" ->
  strings.HasPrefix action "print $" = false
  \/ strconv.Atoi (string_drop 7 action) = None ->
  awk.executeAction line fields lineNum action = line.
Proof.
  intros HNF HNR H. unfold awk.executeAction, awk.executeAction_checked.
  destruct (String.eqb action "print"); [done|].
  destruct (String.eqb_spec action "print NF"); [done|].
  destruct (String.eqb_spec action "print NR"); [done|].
  destruct (String.eqb action "print $0"); [done|].
  destruct (String.eqb_spec action "print $1") as [->|_].
  { by destruct H as [H|H]. }
  destruct (String.eqb_spec action "print $2") as [->|_].
  { by destruct H as [H|H]. }
  destruct (strings.HasPrefix action "print $") eqn:Hp; [|done].
  destruct H as [H|H]; [done|]. rewrite H.
  by destruct (7 <=? len action)%nat.
Qed.

Lemma X19_witness :
  awk.executeAction "a b" ["a"; "b"] 1 "print $1, $2" = "a b" /\
  awk.executeAction "a b" ["a"; "b"] 1 "printf" = "a b".
Proof.
  split.
  - apply X19_unknown_action_prints_line; [discriminate|discriminate|].
    right. reflexivity.
  - apply X19_unknown_action_prints_line; [discriminate|discriminate|].
    left. reflexivity.
Defined.

(** X20. A line matches a pattern exactly when the pattern occurs in the
    line as a substring, byte for byte; the empty pattern therefore
    matches every line, the empty line included.  The fields play no
    part. *)
Theorem X20_matchesPattern (line : string) (fields : list string) (pattern : string) :
  awk.matchesPattern line fields pattern = true
  <-> exists a b, line = a +:+ pattern +:+ b.
Proof.
  unfold awk.matchesPattern. destruct (String.eqb_spec pattern "") as [->|_].
  - split; [|done]. intros _. exists "", line. by rewrite !app_empty_l.
  - apply Contains_spec.
Qed.

(** X21. With the action [print] or [print $0], [processReader] writes
    the lines that match the pattern and are not empty, in order, each
    followed by one newline: a result that is the empty string is not
    written, so empty lines are dropped from the output even under the
    empty pattern.  The error is that of the cancellation check if there
    is one, and that of the scanner otherwise. *)
Theorem X21_print_skips_empty_lines (c : awk.command) (src : awk.Source)
    (out pattern action : string) :
  action = "print" \/ action = "print $0" ->
  let r := awk.processReader c src out (awk.mkAwkProgram pattern action) in
  r.1 = out +:+ unlines (List.filter
                           (fun l => negb (String.eqb l "")
                                     && awk.matchesPattern l [] pattern)
                           (awk.src_lines src)) /\
  r.2 = match awk.src_cancelled src with
        | Some err => Some err
        | None => awk.src_Err src
        end.
Proof.
  intros Ha. cbn zeta. unfold awk.processReader.
  assert (forall ls n out0,
            (fold_left (awk.processRecord c (awk.mkAwkProgram pattern action)) ls (n, out0)).2
            = out0 +:+ unlines (List.filter
                                 (fun l => negb (String.eqb l "")
                                           && awk.matchesPattern l [] pattern) ls)) as HL.
  { induction ls as [|l ls IH]; intros n out0; [by rewrite app_empty_r|].
    cbn [fold_left]. rewrite processRecord_print by done. rewrite IH.
    change (l :: ls) with ([l] ++ ls). by rewrite filter_app_s, unlines_app, app_assoc_s. }
  destruct (awk.src_cancelled src); cbn [fst snd]; by rewrite HL.
Qed.

Lemma X21_witness :
  (awk.processReader (awk.Awk (awk.mkCommand [] (awk.mkFlags "" "" "" None)))
     (awk.mkSource ["a x"; ""; "b"; "x"] None None) ""
     (awk.mkAwkProgram "" "print")).1
  = unlines ["a x"; "b"; "x"].
Proof.
  rewrite (proj1 (X21_print_skips_empty_lines
                    (awk.Awk (awk.mkCommand [] (awk.mkFlags "" "" "" None)))
                    (awk.mkSource ["a x"; ""; "b"; "x"] None None) "" "" "print"
                    (or_introl eq_refl))).
  reflexivity.
Defined.

(** X22. With the action [print NR], [processReader] writes, for every
    line that matches the pattern, the number of that line in the input
    in decimal, counted from 1 over all lines read and not over the
    matching ones (for fewer than 2^63 lines). *)
Theorem X22_print_NR_numbers_lines (c : awk.command) (src : awk.Source)
    (out pattern : string) :
  Z.of_nat (length (awk.src_lines src)) < 2 ^ 63 ->
  (awk.processReader c src out (awk.mkAwkProgram pattern "print NR")).1
  = out +:+ unlines
      (omap (fun il : nat * string =>
               if awk.matchesPattern il.2 [] pattern
               then Some (strconv.Itoa (Z.of_nat il.1)) else None)
            (zip (seq 1 (length (awk.src_lines src))) (awk.src_lines src))).
Proof.
  intros Hlen. unfold awk.processReader.
  assert (forall ls k out0,
            Z.of_nat (k + length ls) < 2 ^ 63 ->
            (fold_left (awk.processRecord c (awk.mkAwkProgram pattern "print NR")) ls
                       (Z.of_nat k, out0)).2
            = out0 +:+ unlines
                (omap (fun il : nat * string =>
                         if awk.matchesPattern il.2 [] pattern
                         then Some (strconv.Itoa (Z.of_nat il.1)) else None)
                      (zip (seq (S k) (length ls)) ls))) as HL.
  { induction ls as [|l ls IH]; intros k out0 Hk; [by rewrite app_empty_r|].
    cbn [fold_left length seq zip zip_with]. cbn [length] in Hk.
    unfold awk.processRecord at 2. cbn [awk.Pattern awk.Action].
    rewrite wrap64_small by lia.
    replace (Z.of_nat k + 1) with (Z.of_nat (S k)) by lia.
    cbn [omap list_omap fst snd].
    change (awk.matchesPattern l (awk.splitFields (awk.FieldSeparator (awk.cmd_Flags c)) l)
              pattern) with (awk.matchesPattern l [] pattern).
    destruct (awk.matchesPattern l [] pattern).
    - change (awk.executeAction l _ (Z.of_nat (S k)) "print NR")
        with (strconv.Itoa (Z.of_nat (S k))).
      destruct (String.eqb_spec (strconv.Itoa (Z.of_nat (S k))) "") as [E|_];
        [by apply Itoa_nonempty in E|].
      cbn [negb]. rewrite IH by lia. unfold Fprintln.
      by rewrite unlines_cons, !app_assoc_s.
    - by rewrite IH by lia. }
  specialize (HL (awk.src_lines src) 0%nat out ltac:(lia)).
  change (Z.of_nat 0) with 0 in HL.
  destruct (awk.src_cancelled src); cbn [fst snd]; by rewrite HL.
Qed.

Lemma X22_witness :
  (awk.processReader (awk.Awk (awk.mkCommand [] (awk.mkFlags "" "" "" None)))
     (awk.mkSource ["ab"; "c"; ""; "b"] None None) ""
     (awk.mkAwkProgram "b" "print NR")).1
  = unlines ["1"; "4"].
Proof.
  rewrite (X22_print_NR_numbers_lines
             (awk.Awk (awk.mkCommand [] (awk.mkFlags "" "" "" None)))
             (awk.mkSource ["ab"; "c"; ""; "b"] None None) "" "b").
  - reflexivity.
  - vm_compute. reflexivity.
Defined.

(** X23. The interpreter and the engine split every line into the same
    fields, except the empty line under a literal separator (one that is
    neither the space nor empty): there the interpreter has the one
    empty field that [strings.Split] returns, so its [print NF] prints 1
    for an empty line, where the engine has no field and [NF = 0]. *)
Theorem X23_empty_line_one_field (fs : string) :
  (forall line, line <> "" \/ fs = " " \/ fs = "" ->
     awk.splitFields fs line = splitLine fs line) /\
  (fs <> " " -> fs <> "" ->
     awk.splitFields fs "" = [""] /\ splitLine fs "" = [] /\
     forall lineNum,
       awk.executeAction "" (awk.splitFields fs "") lineNum "print NF" = "1").
Proof.
  split.
  - intros line H. unfold awk.splitFields, splitLine.
    destruct (String.eqb_spec fs " ") as [->|Hfs]; [done|].
    destruct (String.eqb_spec line "") as [->|Hl]; [|done].
    destruct H as [H|[H| ->]]; done.
  - intros Hsp Hne.
    assert (awk.splitFields fs "" = [""]) as E.
    { unfold awk.splitFields. destruct (String.eqb_spec fs " "); [done|].
      by apply Split_empty_record. }
    split; [done|]. split.
    + unfold splitLine. by destruct (String.eqb_spec fs " ").
    + intros lineNum. by rewrite E.
Qed.

Lemma X23_witness :
  awk.splitFields "," "" = [""] /\ splitLine "," "" = [] /\
  awk.splitFields "," "a,,b" = splitLine "," "a,,b".
Proof.
  destruct (X23_empty_line_one_field ",") as [H1 H2].
  destruct H2 as (H2 & H3 & _); [discriminate|discriminate|].
  split; [exact H2|]. split; [exact H3|]. apply H1. left. discriminate.
Defined.

Section LastOccurrence.

Lemma LastIndex_spec (sep s : string) :
  (strings.LastIndex s sep = -1 /\ forall i, ~ occurs_at sep s i) \/
  (exists a b, strings.LastIndex s sep = Z.of_nat (len a) /\ s = a +:+ sep +:+ b /\
     forall i, (len a < i)%nat -> ~ occurs_at sep s i).
Proof.
  induction s as [|c s IH]; cbn [strings.LastIndex].
  - destruct (strings.HasPrefix "" sep) eqn:Hp.
    + right. apply HasPrefix_true in Hp as [r Hr]. exists "", r.
      split; [done|]. split; [by rewrite app_empty_l|].
      intros i Hi Ho. apply occurs_at_bound in Ho. cbn in Ho, Hi. lia.
    + left. split; [done|]. intros i Ho.
      pose proof (occurs_at_bound _ _ _ Ho) as Hb. cbn in Hb.
      assert (i = 0%nat) as -> by lia. apply occurs_at_zero in Ho.
      apply HasPrefix_true in Ho. congruence.
  - destruct IH as [[-> Hno]|(a & b & -> & E & Hlast)].
    + cbn. destruct (strings.HasPrefix (String c s) sep) eqn:Hp.
      * right. apply HasPrefix_true in Hp as [r Hr]. exists "", r.
        split; [done|]. split; [by rewrite app_empty_l|].
        intros [|i] Hi Ho; [cbn in Hi; lia|]. apply occurs_at_succ in Ho. by apply (Hno i).
      * left. split; [done|]. intros [|i] Ho.
        -- apply occurs_at_zero, HasPrefix_true in Ho. congruence.
        -- apply occurs_at_succ in Ho. by apply (Hno i).
    + destruct (Z.leb_spec 0 (Z.of_nat (len a))); [|lia].
      right. exists (String c a), b. split; [cbn [String.length]; lia|].
      split; [by rewrite app_cons, <-E|].
      intros [|i] Hi Ho; [cbn in Hi; lia|]. apply occurs_at_succ in Ho.
      apply (Hlast i); [cbn in Hi; lia|done].
Qed.

Lemma occurs_at_byte_suffix (a : ascii) (f t : string) (i : nat) :
  (len f <= i)%nat -> occurs_at (String a "") (f +:+ t) i ->
  occurs_at (String a "") t (i - len f).
Proof.
  intros Hi Ho. replace i with (len f + (i - len f))%nat in Ho by lia.
  by apply occurs_at_app in Ho.
Qed.

Lemma occurs_at_here (sep a b : string) : occurs_at sep (a +:+ sep +:+ b) (len a).
Proof. by exists a, b. Qed.

Lemma Index_first_byte (a : ascii) (pre rest : string) :
  strings.CountString pre a = 0%nat ->
  strings.Index (pre +:+ String a "" +:+ rest) (String a "") = Z.of_nat (len pre).
Proof.
  intros Hc. pose proof (no_byte_no_occurrence a pre Hc) as Hno.
  destruct (Index_spec (String a "") (pre +:+ String a "" +:+ rest))
    as [[_ H]|(x & y & -> & E & Hfirst)].
  - exfalso. apply (H (len pre)). apply occurs_at_here.
  - f_equal. destruct (Nat.lt_trichotomy (len x) (len pre)) as [Hlt|[Heq|Hgt]]; [|done|].
    + exfalso. apply (Hno (len x)).
      apply (occurs_at_byte_prefix a pre (String a "" +:+ rest) _ Hlt).
      rewrite E. apply occurs_at_here.
    + exfalso. apply (Hfirst (len pre) Hgt). apply occurs_at_here.
Qed.

Lemma LastIndex_last_byte (a : ascii) (pre rest : string) :
  strings.CountString rest a = 0%nat ->
  strings.LastIndex (pre +:+ String a "" +:+ rest) (String a "") = Z.of_nat (len pre).
Proof.
  intros Hc. pose proof (no_byte_no_occurrence a rest Hc) as Hno.
  destruct (LastIndex_spec (String a "") (pre +:+ String a "" +:+ rest))
    as [[_ H]|(x & y & -> & E & Hlast)].
  - exfalso. apply (H (len pre)). apply occurs_at_here.
  - f_equal. destruct (Nat.lt_trichotomy (len x) (len pre)) as [Hlt|[Heq|Hgt]]; [|done|].
    + exfalso. apply (Hlast (len pre) Hlt). apply occurs_at_here.
    + exfalso. assert (occurs_at (String a "") (pre +:+ String a "" +:+ rest) (len x)) as Ho.
      { rewrite E. apply occurs_at_here. }
      rewrite <-app_assoc_s in Ho. apply occurs_at_byte_suffix in Ho.
      * by apply Hno in Ho.
      * rewrite len_app. cbn. lia.
Qed.

End LastOccurrence.

Section Trimming.

Lemma slice_middle (a b c : string) :
  slice (a +:+ b +:+ c) (len a) (len a + len b) = b.
Proof.
  rewrite (slice_of_drop _ (b +:+ c)) by apply drop_app_len. apply take_app_len.
Qed.

Lemma byteAt_app (a : string) (b : ascii) (t : string) :
  byteAt (a +:+ String b t) (len a) = byteZ b.
Proof. induction a as [|c a IH]; [done|]. rewrite app_cons. apply IH. Qed.

Lemma string_snoc (s : string) :
  s = "" \/ exists s' b, s = s' +:+ String b "" /\ lastByte s = Some b.
Proof.
  induction s as [|c s IH]; [by left|]. right.
  destruct IH as [->|(s' & b & -> & Hl)].
  - exists "", c. by rewrite app_empty_l.
  - exists (String c s'), b. split; [by rewrite app_cons|].
    cbn [lastByte]. by destruct (s' +:+ String b "").
Qed.

Lemma blank_app (a b : string) : blank (a +:+ b) = blank a && blank b.
Proof.
  induction a as [|c a IH]; [by rewrite app_empty_l|].
  rewrite app_cons. cbn [blank]. by rewrite IH, andb_assoc.
Qed.

Lemma asciiSpace_small (c : Z) :
  strings.asciiSpace c = true -> (utf8.RuneSelf <=? c) = false.
Proof.
  unfold strings.asciiSpace, utf8.RuneSelf. intros H. apply Z.leb_gt.
  repeat (apply orb_true_iff in H as [H|H]); apply Z.eqb_eq in H; lia.
Qed.

Lemma TrimSpace_start_blank (ws r s : string) (start : nat) :
  blank ws = true ->
  strings.TrimSpace_start (ws +:+ r) s start
  = strings.TrimSpace_start r s (start + len ws).
Proof.
  revert start. induction ws as [|b ws IH]; intros start Hb.
  - rewrite app_empty_l. cbn. by rewrite Nat.add_0_r.
  - cbn [blank] in Hb. apply andb_true_iff in Hb as [Hc Hws].
    rewrite app_cons. cbn [strings.TrimSpace_start String.length].
    rewrite (asciiSpace_small _ Hc), Hc. cbn [negb]. rewrite IH by done.
    f_equal. lia.
Qed.

Lemma TrimSpace_stop_blank (pre core : string) (e : ascii) (n : nat) :
  lastByte core = Some e -> solid e = true ->
  forall ws tail,
    len ws = n -> blank ws = true ->
    strings.TrimSpace_stop (len core + n) (pre +:+ core +:+ ws +:+ tail) (len pre)
    = core.
Proof.
  intros Hl He. apply andb_true_iff in He as [He1 He2]. apply Z.ltb_lt in He1.
  destruct (string_snoc core) as [->|(core' & e' & -> & Hl')]; [done|].
  assert (e' = e) as -> by congruence.
  induction n as [|n IH]; intros ws tail Hlen Hb.
  - apply len_zero in Hlen as ->. rewrite app_empty_l, len_app. cbn [String.length].
    replace (len core' + 1 + 0)%nat with (S (len core')) by lia.
    cbn [strings.TrimSpace_stop].
    replace (len pre + S (len core') - 1)%nat with (len (pre +:+ core')) by
      (rewrite len_app; lia).
    set (s := pre +:+ (core' +:+ String e "") +:+ tail).
    assert (byteAt s (len (pre +:+ core')) = byteZ e) as ->.
    { replace s with ((pre +:+ core') +:+ String e tail); [apply byteAt_app|].
      unfold s. by rewrite !app_assoc_s, app_cons, app_empty_l. }
    destruct (Z.leb_spec utf8.RuneSelf (byteZ e)); [lia|]. rewrite He2.
    replace (S (len core')) with (len (core' +:+ String e "")) by (rewrite len_app; cbn; lia).
    apply slice_middle.
  - destruct (string_snoc ws) as [->|(ws' & b & -> & _)]; [done|].
    rewrite len_app in Hlen. cbn [String.length] in Hlen.
    rewrite blank_app in Hb. apply andb_true_iff in Hb as [Hb1 Hb2].
    cbn [blank] in Hb2. rewrite andb_true_r in Hb2.
    replace (len (core' +:+ String e "") + S n)%nat
      with (S (len (core' +:+ String e "") + n)) by lia.
    cbn [strings.TrimSpace_stop].
    replace (len pre + S (len (core' +:+ String e "") + n) - 1)%nat
      with (len (pre +:+ (core' +:+ String e "") +:+ ws')) by (rewrite !len_app; lia).
    set (s := pre +:+ (core' +:+ String e "") +:+ (ws' +:+ String b "") +:+ tail).
    assert (s = pre +:+ (core' +:+ String e "") +:+ ws' +:+ String b tail) as Es.
    { unfold s. by rewrite !app_assoc_s, app_cons, app_empty_l. }
    assert (byteAt s (len (pre +:+ (core' +:+ String e "") +:+ ws')) = byteZ b) as ->.
    { rewrite Es.
      replace (pre +:+ (core' +:+ String e "") +:+ ws' +:+ String b tail)
        with ((pre +:+ (core' +:+ String e "") +:+ ws') +:+ String b tail)
        by (by rewrite !app_assoc_s).
      apply byteAt_app. }
    rewrite (asciiSpace_small _ Hb2), Hb2. cbn [negb]. rewrite Es.
    apply IH; [lia|done].
Qed.

Lemma TrimSpace_trimmed (ws1 core ws2 : string) :
  blank ws1 = true -> blank ws2 = true -> trimmed core = true ->
  strings.TrimSpace (ws1 +:+ core +:+ ws2) = core.
Proof.
  intros H1 H2 Hc. unfold strings.TrimSpace. rewrite TrimSpace_start_blank by done.
  cbn [Nat.add]. destruct core as [|b core].
  - rewrite app_empty_l. rewrite <-(app_empty_r ws2) at 1.
    rewrite TrimSpace_start_blank by done. cbn [strings.TrimSpace_start].
    rewrite len_app. replace (len ws1 + len ws2 - (len ws1 + len ws2))%nat with 0%nat by lia.
    cbn [strings.TrimSpace_stop]. unfold slice. by rewrite Nat.sub_diag.
  - cbn [trimmed] in Hc. apply andb_true_iff in Hc as [Hb He].
    destruct (lastByte (String b core)) as [e|] eqn:Hl; [|done].
    rewrite app_cons. cbn [strings.TrimSpace_start].
    pose proof Hb as Hb'. apply andb_true_iff in Hb' as [Hb1 Hb2].
    apply Z.ltb_lt in Hb1. destruct (Z.leb_spec utf8.RuneSelf (byteZ b)); [lia|].
    rewrite Hb2. rewrite <-app_cons.
    replace (len (ws1 +:+ String b core +:+ ws2) - len ws1)%nat
      with (len (String b core) + len ws2)%nat by (rewrite !len_app; lia).
    rewrite <-(app_empty_r ws2) at 2.
    by apply (TrimSpace_stop_blank ws1 (String b core) e (len ws2)).
Qed.

Lemma blank_no_brace (ws : string) :
  blank ws = true -> strings.CountString ws "{" = 0%nat.
Proof.
  induction ws as [|b ws IH]; [done|]. cbn [blank strings.CountString].
  intros [Hb Hws]%andb_true_iff. rewrite IH by done.
  destruct (Ascii.eqb_spec b "{") as [->|_]; [done|done].
Qed.

Lemma CountString_app (a b : string) (c : ascii) :
  strings.CountString (a +:+ b) c
  = (strings.CountString a c + strings.CountString b c)%nat.
Proof.
  induction a as [|x a IH]; [by rewrite app_empty_l|].
  rewrite app_cons. cbn [strings.CountString]. rewrite IH. lia.
Qed.

End Trimming.

Section Parsing.

Lemma Contains_byte (a : ascii) (s : string) :
  strings.Contains s (String a "") = false <-> strings.CountString s a = 0%nat.
Proof.
  split.
  - intros H. induction s as [|c s IH]; [done|]. cbn [strings.CountString].
    destruct (Ascii.eqb_spec c a) as [->|Hne].
    + exfalso. apply not_true_iff_false in H. apply H. apply Contains_spec.
      exists "", s. by rewrite app_empty_l, app_cons, app_empty_l.
    + rewrite IH; [done|]. apply not_true_iff_false. intros (x & y & E)%Contains_spec.
      apply not_true_iff_false in H. apply H. apply Contains_spec.
      exists (String c x), y. by rewrite app_cons, <-E.
  - intros H. apply not_true_iff_false. intros (x & y & E)%Contains_spec.
    apply (no_byte_no_occurrence a s H (len x)). by exists x, y.
Qed.

Lemma parseProgram_split (pre body post : string) :
  strings.CountString pre "{" = 0%nat ->
  strings.CountString post "}" = 0%nat ->
  awk.parseProgram (pre +:+ "{" +:+ body +:+ "}" +:+ post)
  = (awk.mkAwkProgram (strings.TrimSpace pre) (strings.TrimSpace body), None).
Proof.
  intros Hpre Hpost. unfold awk.parseProgram.
  assert (strings.Contains (pre +:+ "{" +:+ body +:+ "}" +:+ post) "{" = true) as ->.
  { apply Contains_spec. by exists pre, (body +:+ "}" +:+ post). }
  assert (strings.Contains (pre +:+ "{" +:+ body +:+ "}" +:+ post) "}" = true) as ->.
  { apply Contains_spec. exists (pre +:+ "{" +:+ body), post. by rewrite !app_assoc_s. }
  cbn [andb]. rewrite (Index_first_byte "{" pre _ Hpre).
  assert (strings.LastIndex (pre +:+ "{" +:+ body +:+ "}" +:+ post) "}"
          = Z.of_nat (len (pre +:+ "{" +:+ body))) as ->.
  { rewrite <-(LastIndex_last_byte "}" (pre +:+ "{" +:+ body) post Hpost).
    by rewrite !app_assoc_s. }
  assert (len (pre +:+ "{" +:+ body) = (len (pre +:+ "{") + len body)%nat) as El.
  { by rewrite <-app_assoc_s, len_app. }
  assert (len (pre +:+ "{") = S (len pre)) as El'.
  { rewrite len_app. cbn. lia. }
  destruct (Z.ltb_spec (Z.of_nat (len pre)) (Z.of_nat (len (pre +:+ "{" +:+ body))));
    [|lia].
  rewrite !Nat2Z.id, slice_zero, take_app_len.
  replace (Z.to_nat (Z.of_nat (len pre) + 1)) with (len (pre +:+ "{")) by lia.
  rewrite El.
  replace (pre +:+ "{" +:+ body +:+ "}" +:+ post)
    with ((pre +:+ "{") +:+ body +:+ "}" +:+ post) by (by rewrite !app_assoc_s).
  by rewrite slice_middle.
Qed.

End Parsing.


(** X24. [parseProgram] never returns an error.  When the program has an
    opening brace and, after it, a closing one, the pattern is what
    stands before the first opening brace and the action what stands
    between it and the last closing brace, both without the white space
    around them; what follows the last closing brace is dropped, and
    braces between the two belong to the action.  A program with no
    opening or no closing brace, or with all its closing braces before
    the first opening one, is taken as an action as it stands, not
    trimmed, with the empty pattern. *)
Theorem X24_parseProgram_braces (program : string) :
  (awk.parseProgram program).2 = None /\
  (forall pre body post,
     program = pre +:+ "{" +:+ body +:+ "}" +:+ post ->
     strings.CountString pre "{" = 0%nat ->
     strings.CountString post "}" = 0%nat ->
     (awk.parseProgram program).1
     = awk.mkAwkProgram (strings.TrimSpace pre) (strings.TrimSpace body)) /\
  (strings.CountString program "{" = 0%nat \/ strings.CountString program "}" = 0%nat ->
     (awk.parseProgram program).1 = awk.mkAwkProgram "" program) /\
  (forall pre post,
     program = pre +:+ "{" +:+ post ->
     strings.CountString pre "{" = 0%nat ->
     strings.CountString post "}" = 0%nat ->
     (awk.parseProgram program).1 = awk.mkAwkProgram "" program).
Proof.
  split; [|split; [|split]].
  - unfold awk.parseProgram.
    destruct (_ && _); [|done]. by destruct (_ <? _).
  - intros pre body post -> H1 H2. by rewrite parseProgram_split.
  - intros H. unfold awk.parseProgram.
    destruct H as [H|H]; apply Contains_byte in H; rewrite H; [done|].
    by rewrite andb_false_r.
  - intros pre post -> H1 H2. unfold awk.parseProgram.
    destruct (_ && _); [|done]. rewrite (Index_first_byte "{" pre _ H1).
    destruct (LastIndex_spec "}" (pre +:+ "{" +:+ post))
      as [[-> _]|(x & y & -> & E & _)].
    { by destruct (Z.ltb_spec (Z.of_nat (len pre)) (-1)); [lia|]. }
    destruct (Z.ltb_spec (Z.of_nat (len pre)) (Z.of_nat (len x))) as [Hlt|]; [|done].
    exfalso. assert (occurs_at "}" (pre +:+ "{" +:+ post) (len x)) as Ho.
    { rewrite E. apply occurs_at_here. }
    rewrite <-app_assoc_s in Ho. apply occurs_at_byte_suffix in Ho.
    + by apply (no_byte_no_occurrence "}" post H2) in Ho.
    + rewrite len_app. cbn. lia.
Qed.

Lemma X24_witness :
  (awk.parseProgram "BEGIN {a} END {b} tail").1
  = awk.mkAwkProgram (strings.TrimSpace "BEGIN ") (strings.TrimSpace "a} END {b") /\
  (awk.parseProgram "print $1").1 = awk.mkAwkProgram "" "print $1" /\
  (awk.parseProgram "} {").1 = awk.mkAwkProgram "" "} {".
Proof.
  split; [|split].
  - apply (proj1 (proj2 (X24_parseProgram_braces "BEGIN {a} END {b} tail"))
             "BEGIN " "a} END {b" " tail"); reflexivity.
  - apply (proj1 (proj2 (proj2 (X24_parseProgram_braces "print $1")))). left. reflexivity.
  - apply (proj2 (proj2 (proj2 (X24_parseProgram_braces "} {"))) "} " ""); reflexivity.
Defined.

(** X25. The syntax [pattern { action }] parses into its two parts: for a
    pattern without an opening brace and an action, each empty or
    starting and ending with an ASCII byte that is not white space, and
    any ASCII white space around them, [parseProgram] returns exactly
    that pattern and that action, with no error.  The action may itself
    contain braces and white space, and whatever follows the closing
    brace is ignored as long as it has no closing brace. *)
Theorem X25_pattern_action_syntax (ws0 pattern ws1 ws2 action ws3 post : string) :
  blank ws0 = true -> blank ws1 = true -> blank ws2 = true -> blank ws3 = true ->
  trimmed pattern = true -> trimmed action = true ->
  strings.CountString pattern "{" = 0%nat ->
  strings.CountString post "}" = 0%nat ->
  awk.parseProgram
    (ws0 +:+ pattern +:+ ws1 +:+ "{" +:+ ws2 +:+ action +:+ ws3 +:+ "}" +:+ post)
  = (awk.mkAwkProgram pattern action, None).
Proof.
  intros H0 H1 H2 H3 Hp Ha Hc Hpost.
  replace (ws0 +:+ pattern +:+ ws1 +:+ "{" +:+ ws2 +:+ action +:+ ws3 +:+ "}" +:+ post)
    with ((ws0 +:+ pattern +:+ ws1) +:+ "{" +:+ (ws2 +:+ action +:+ ws3) +:+ "}" +:+ post)
    by (by rewrite !app_assoc_s).
  rewrite parseProgram_split; [|rewrite !CountString_app|done].
  - by rewrite !TrimSpace_trimmed.
  - by rewrite (blank_no_brace ws0 H0), (blank_no_brace ws1 H1), Hc.
Qed.

Lemma X25_witness :
  awk.parseProgram ("  " +:+ "/error/" +:+ " " +:+ "{" +:+ " " +:+ "print $2" +:+ " "
                    +:+ "}" +:+ " # rest")
  = (awk.mkAwkProgram "/error/" "print $2", None).
Proof.
  apply (X25_pattern_action_syntax "  " "/error/" " " " " "print $2" " " " # rest");
    reflexivity.
Defined.

Section OldOptions.

Lemma Variable_Configure_union (v : gmap string string) (flags : awk.Flags) :
  awk.Variables (awk.Variable_Configure v flags)
  = Some (v ∪ default ∅ (awk.Variables flags)).
Proof.
  unfold awk.Variable_Configure. cbn [awk.Variables]. f_equal.
  set (m := match awk.Variables flags with Some m => m | None => ∅ end).
  replace (default ∅ (awk.Variables flags)) with m by (by destruct (awk.Variables flags)).
  apply (map_fold_weak_ind (fun r (v' : gmap string string) => r = v' ∪ m)).
  - by rewrite (left_id_L ∅ (∪)).
  - intros k x v' r Hk ->. by rewrite insert_union_l.
Qed.

End OldOptions.

(** X26. The option [Variable] of the interpreter merges its map into the
    variables of the flags: afterwards a name has the value the option
    gives it if it gives one, and the value it had before otherwise, in
    whatever order the loop visits the option's map.  The map of the
    flags is made if it was nil, also by an option with no entry, and
    the other flags stay. *)
Theorem X26_Variable_merges (v : gmap string string) (flags : awk.Flags) (k : string) :
  let flags' := awk.Variable_Configure v flags in
  awk.Variables flags' ≫= (.!! k)
  = match v !! k with
    | Some x => Some x
    | None => awk.Variables flags ≫= (.!! k)
    end /\
  awk.Variables flags' <> None /\
  awk.Program flags' = awk.Program flags /\
  awk.ScriptFile flags' = awk.ScriptFile flags /\
  awk.FieldSeparator flags' = awk.FieldSeparator flags.
Proof.
  cbn zeta. rewrite Variable_Configure_union. split; [|done]. cbn.
  rewrite lookup_union. destruct (v !! k) as [x|] eqn:E; cbn.
  - by destruct (default ∅ (awk.Variables flags) !! k).
  - destruct (awk.Variables flags) as [m|]; cbn; [by destruct (m !! k)|].
    by rewrite lookup_empty.
Qed.

(** X27. The command made by the interpreter's [Awk] never has the empty
    field separator: an empty one becomes the space, under which
    [processReader] splits every line at white space as [strings.Fields]
    does, and a non-empty one is kept with the whole command.  The
    positional arguments and the other flags stay, and applying [Awk]
    again changes nothing. *)
Theorem X27_interpreter_Awk_default (c : awk.command) :
  let c' := awk.Awk c in
  awk.FieldSeparator (awk.cmd_Flags c') <> "" /\
  (awk.FieldSeparator (awk.cmd_Flags c) <> "" -> c' = c) /\
  (awk.FieldSeparator (awk.cmd_Flags c) = "" ->
     forall line,
       awk.splitFields (awk.FieldSeparator (awk.cmd_Flags c')) line = strings.Fields line) /\
  awk.Positional c' = awk.Positional c /\
  awk.Program (awk.cmd_Flags c') = awk.Program (awk.cmd_Flags c) /\
  awk.ScriptFile (awk.cmd_Flags c') = awk.ScriptFile (awk.cmd_Flags c) /\
  awk.Variables (awk.cmd_Flags c') = awk.Variables (awk.cmd_Flags c) /\
  awk.Awk c' = c'.
Proof.
  cbn zeta. unfold awk.Awk.
  destruct (String.eqb_spec (awk.FieldSeparator (awk.cmd_Flags c)) "") as [E|E].
  - cbn. repeat split; try done.
  - destruct (String.eqb_spec (awk.FieldSeparator (awk.cmd_Flags c)) "") as [E'|_]; [done|].
    repeat split; try done.
Qed.

Lemma X27_witness :
  awk.splitFields
    (awk.FieldSeparator
       (awk.cmd_Flags (awk.Awk (awk.mkCommand ["{print $2}"] (awk.mkFlags "" "" "" None)))))
    " a  b "
  = strings.Fields " a  b ".
Proof.
  apply (X27_interpreter_Awk_default
           (awk.mkCommand ["{print $2}"] (awk.mkFlags "" "" "" None))).
  reflexivity.
Defined.

(** ** The model on the documented examples and the test scenarios *)

Section Scenarios.

(** Examples from the documentation of package [strings]. *)
Example Fields_doc :
  strings.Fields "  foo bar  baz   " = ["foo"; "bar"; "baz"].
Proof. reflexivity. Qed.

Example Split_doc_1 : strings.Split "a,b,c" "," = ["a"; "b"; "c"].
Proof. reflexivity. Qed.

Example Split_doc_2 :
  strings.Split "a man a plan a canal panama" "a "
  = [""; "man "; "plan "; "canal panama"].
Proof. reflexivity. Qed.

Example Split_doc_3 : strings.Split " xyz " "" = [" "; "x"; "y"; "z"; " "].
Proof. reflexivity. Qed.

Example Split_doc_4 : strings.Split "" "Bernardo" = [""].
Proof. reflexivity. Qed.

Example Count_doc : strings.Count "cheese" "e" = 3%nat /\ strings.Count "five" "" = 5%nat.
Proof. by split. Qed.

Example Index_doc : strings.Index "chicken" "ken" = 4 /\ strings.Index "chicken" "dmr" = -1.
Proof. by split. Qed.

(** UTF-8: two, three and four byte sequences, and invalid ones (a lone
    continuation byte, an overlong form, a surrogate). *)
Example Decode_2 : utf8.DecodeRuneInString (bytes [195; 169]) = (0xE9, 2%nat).
Proof. reflexivity. Qed.

Example Decode_3 : utf8.DecodeRuneInString (bytes [228; 184; 150]) = (0x4E16, 3%nat).
Proof. reflexivity. Qed.

Example Decode_4 :
  utf8.DecodeRuneInString (bytes [240; 159; 152; 128]) = (0x1F600, 4%nat).
Proof. reflexivity. Qed.

Example Decode_invalid :
  utf8.DecodeRuneInString (bytes [128]) = (utf8.RuneError, 1%nat) /\
  utf8.DecodeRuneInString (bytes [192; 128]) = (utf8.RuneError, 1%nat) /\
  utf8.DecodeRuneInString (bytes [237; 160; 128]) = (utf8.RuneError, 1%nat) /\
  utf8.DecodeRuneInString (bytes [228; 184]) = (utf8.RuneError, 1%nat).
Proof. by repeat split. Qed.

(** White space outside ASCII separates fields too: U+00A0 and U+3000. *)
Example Fields_unicode :
  strings.Fields (bytes [97; 194; 160; 98; 227; 128; 128; 99]) = ["a"; "b"; "c"].
Proof. reflexivity. Qed.

(** Scenario A: the default program copies its input. *)
Example scenario_A :
  let r := Executor (Awk SimpleProgram defaultFlags) tt
             (mkInput ["one two three"; "a b"] None) "" in
  stdout r.1 = bytes [111;110;101;32;116;119;111;32;116;104;114;101;101;10;97;32;98;10]
  /\ r.2 = None.
Proof. by split. Qed.

(** Scenario B: field counts under the separator [,]. *)
Example scenario_B :
  let r := Executor (Awk SimpleProgram (mkFlags "," "" None)) tt
             (mkInput ["a,b,c"; ""; "x,y"] None) "" in
  map NF (action_inputs (calls r.1)) = [3; 0; 2].
Proof. reflexivity. Qed.

(** Scenario C: a counter kept in a variable, one line written by [End]. *)
Example scenario_C :
  let r := Executor (Awk totalProgram defaultFlags) tt
             (mkInput ["line1"; "line2"; "line3"] None) "" in
  stdout r.1 = bytes [100; 111; 110; 101; 10] /\
  map (fun ctx => Var ctx "total") (end_inputs (calls r.1)) = [AnyInt 3].
Proof. by split. Qed.

(** Scenario D: [Begin] fails. *)
Example scenario_D :
  let r := Executor (Awk ErrorInBeginProgram defaultFlags) tt
             (mkInput ["line"] None) "" in
  Error <$> r.2 = Some "BEGIN: begin error" /\ stdout r.1 = "" /\
  length (calls r.1) = 1%nat.
Proof. by repeat split. Qed.

(** Scenario E: the input fails after two lines. *)
Example scenario_E :
  let r := Executor (Awk SimpleProgram defaultFlags) tt
             (mkInput ["a"; "b"] (Some (errors_New "read failed"))) "" in
  r.2 = Some (errors_New "read failed") /\
  stdout r.1 = bytes [97; 10; 98; 10] /\
  end_inputs (calls r.1) = [].
Proof. by repeat split. Qed.

(** The tests [TestContext_Field] and [TestContext_SetField]. *)
Example test_Context_Field :
  let ctx := mkContext ["whole line"; "first"; "second"; "third"] 0 0 "" "" None "" in
  map (Field ctx) [0; 1; 2; 3; -1; 10]
  = ["whole line"; "first"; "second"; "third"; ""; ""].
Proof. reflexivity. Qed.

Example test_Context_SetField :
  let ctx := mkContext ["whole"; "first"; "second"] 0 0 "" "" None "" in
  let ctx1 := SetField ctx 1 "updated" in
  let ctx2 := SetField ctx1 5 "new" in
  let ctx3 := SetField ctx2 (-1) "ignored" in
  (Field ctx1 1, NF ctx1) = ("updated", 2) /\
  (Field ctx2 5, NF ctx2) = ("new", 5) /\
  Fields ctx3 = ["whole"; "updated"; "second"; ""; ""; "new"].
Proof. by repeat split. Qed.

(** Examples from the documentation of [strings.TrimSpace], [LastIndex],
    [Contains] and [Join], of [strconv] and of
    [utf8.DecodeLastRuneInString]. *)
Example TrimSpace_doc :
  strings.TrimSpace (bytes [32; 9; 10; 32] +:+ "Hello, Gophers" +:+ bytes [32; 10; 9; 13; 10])
  = "Hello, Gophers".
Proof. reflexivity. Qed.

(** White space outside ASCII is trimmed too, on both sides, and an
    invalid byte is kept. *)
Example TrimSpace_unicode :
  strings.TrimSpace (bytes [32; 194; 160; 97; 227; 128; 128; 98; 201; 227; 128; 128; 32; 194; 133])
  = bytes [97; 227; 128; 128; 98; 201] /\
  strings.TrimSpace (bytes [194; 160; 32; 228; 184; 150; 32]) = bytes [228; 184; 150] /\
  strings.TrimSpace (bytes [32; 194; 160; 9]) = "".
Proof. by repeat split. Qed.

Example LastIndex_doc :
  strings.Index "go gopher" "go" = 0 /\ strings.LastIndex "go gopher" "go" = 3 /\
  strings.LastIndex "go gopher" "rodent" = -1.
Proof. by repeat split. Qed.

Example Contains_doc :
  strings.Contains "seafood" "foo" = true /\ strings.Contains "seafood" "bar" = false /\
  strings.Contains "seafood" "" = true /\ strings.Contains "" "" = true.
Proof. by repeat split. Qed.

Example Join_doc : strings.Join ["foo"; "bar"; "baz"] ", " = "foo, bar, baz".
Proof. reflexivity. Qed.

Example Itoa_doc :
  strconv.Itoa 10 = "10" /\ strconv.Itoa 0 = "0" /\ strconv.Itoa (-42) = "-42".
Proof. by repeat split. Qed.

Example Atoi_doc :
  strconv.Atoi "10" = Some 10 /\ strconv.Atoi "+7" = Some 7 /\ strconv.Atoi "-0" = Some 0 /\
  strconv.Atoi "" = None /\ strconv.Atoi "-" = None /\ strconv.Atoi "1 " = None /\
  strconv.Atoi "1_0" = None /\
  strconv.Atoi "9223372036854775807" = Some 9223372036854775807 /\
  strconv.Atoi "9223372036854775808" = None.
Proof. by repeat split. Qed.

Example DecodeLast_doc :
  utf8.DecodeLastRuneInString (bytes [228; 184; 150; 231; 149; 140]) = (0x754C, 3%nat) /\
  utf8.DecodeLastRuneInString (bytes [97; 201]) = (utf8.RuneError, 1%nat) /\
  utf8.DecodeLastRuneInString "" = (utf8.RuneError, 0%nat).
Proof. by repeat split. Qed.

(** The tests [TestContext_Var], [TestContext_SetVar] and
    [TestContext_Print]. *)
Example test_Context_Var :
  let ctx := mkContext [] 0 0 "" "" (Some {[ "x" := AnyInt 42 ]}) "" in
  Var ctx "x" = AnyInt 42 /\ Var ctx "missing" = AnyNil /\
  Var (mkContext [] 0 0 "" "" None "") "anything" = AnyNil.
Proof. by repeat split. Qed.

Example test_Context_SetVar :
  let ctx := SetVar (mkContext [] 0 0 "" "" None "") "x" (AnyInt 42) in
  Var ctx "x" = AnyInt 42 /\ Var (SetVar ctx "x" (AnyInt 100)) "x" = AnyInt 100.
Proof. by repeat split. Qed.

Example test_Context_Print :
  let ctx := mkContext [] 0 0 "" "|" None "" in
  Print ctx [AnyString "a"; AnyString "b"; AnyString "c"] = "a|b|c" /\
  Print ctx [AnyString "single"] = "single" /\
  Print ctx [] = "" /\
  Print ctx [AnyInt 1; AnyString "two"; AnyBool true; AnyNil] = "1|two|true|<nil>".
Proof. by repeat split. Qed.

(** The tests [TestAwk_ConditionalProgram] and
    [TestAwk_FieldSplitting_Whitespace]. *)
Example test_ConditionalProgram :
  stdout (Executor (Awk ConditionalProgram defaultFlags) tt
            (mkInput ["include:line1"; "skip this"; "include:line2"; "skip this too"] None)
            "").1
  = unlines ["include:line1"; "include:line2"].
Proof. reflexivity. Qed.

Example test_FieldSplitting_Whitespace :
  stdout (Executor (Awk FieldExtractorProgram defaultFlags) 2
            (mkInput ["first   second   third"; "a  b  c"] None) "").1
  = unlines ["second"; "b"].
Proof. reflexivity. Qed.

(** The interpreter on a script: parsed, then run over four lines. *)
Example interpreter_run :
  let c := awk.Awk (awk.mkCommand [] (awk.mkFlags "" "" "" None)) in
  let program := (awk.parseProgram "o { print $2 }").1 in
  program = awk.mkAwkProgram "o" "print $2" /\
  awk.processReader c (awk.mkSource ["one two"; "three"; "four five six"; "solo"] None None)
                    "" program
  = (unlines ["two"; "five"], None).
Proof. by split. Qed.

End Scenarios.
